(** * The Crooked Fence: order numbering and notification pipeline

    A shallow embedding of the Cloud Functions of the repository
    (functions/index.js: the sequence allocator, the recipient resolver,
    the delivery client, the status and stock triggers, the dispatch
    callable) and of the allocation poller of the order form, followed by
    the properties the specification states about them. The second part
    of the definitions covers the functions around them: the text
    helpers, the roles, the order-created triggers, the correction
    mailing, the stock summaries, the category deletion, the batched
    writes, the caller's profile and the validation of the order form;
    their properties close the file. *)

From Stdlib Require Import ZArith NArith List String Ascii Bool Lia.
From Stdlib Require QArith.
From stdpp Require Import base option gmap strings list relations sorting.

Local Open Scope Z_scope.
Local Open Scope string_scope.

(** ** JavaScript strings

    A string is a sequence of code units; the model covers the code units
    U+0000..U+00FF, one [ascii] each. *)

Definition code (c : ascii) : N := N_of_ascii c.

(** [\d] of a JavaScript regular expression: the ASCII digits only. *)
Definition isDigit (c : ascii) : bool := (48 <=? code c)%N && (code c <=? 57)%N.

(** [\s]: tab, line feed, vertical tab, form feed, carriage return, space
    and the no-break space U+00A0 (the white space and line terminators
    that lie below U+0100). *)
Definition isSpace (c : ascii) : bool :=
  ((9 <=? code c)%N && (code c <=? 13)%N) || (code c =? 32)%N || (code c =? 160)%N.

(** Truthiness of a string: every string but the empty one. *)
Definition truthy (s : string) : bool :=
  match s with EmptyString => false | String _ _ => true end.

(** A field that may be missing: [undefined] is [None]. *)
Definition truthyField (f : option string) : bool :=
  match f with Some s => truthy s | None => false end.

(** [a || b] on a possibly missing string field with a string default. *)
Definition orElse (f : option string) (d : string) : string :=
  match f with Some s => if truthy s then s else d | None => d end.

(** [String.prototype.trim]. *)
Fixpoint trimStart (s : string) : string :=
  match s with
  | String c r => if isSpace c then trimStart r else s
  | EmptyString => EmptyString
  end.

Fixpoint trimEnd (s : string) : string :=
  match s with
  | EmptyString => EmptyString
  | String c r =>
      match trimEnd r with
      | EmptyString => if isSpace c then EmptyString else String c EmptyString
      | r' => String c r'
      end
  end.

Definition trim (s : string) : string := trimEnd (trimStart s).

(** [String.prototype.toLowerCase] on U+0000..U+00FF: A..Z and the
    Latin-1 capitals U+00C0..U+00DE (U+00D7, the multiplication sign, is
    not a letter) move up by 32. *)
Definition lowerChar (c : ascii) : ascii :=
  let n := code c in
  if ((65 <=? n)%N && (n <=? 90)%N)
     || ((192 <=? n)%N && (n <=? 222)%N && negb (n =? 215)%N)
  then ascii_of_N (n + 32) else c.

Fixpoint toLowerCase (s : string) : string :=
  match s with
  | EmptyString => EmptyString
  | String c r => String (lowerChar c) (toLowerCase r)
  end.

(** [String.prototype.padStart] with a one-character filler. *)
Fixpoint repeatChar (n : nat) (c : ascii) : string :=
  match n with O => EmptyString | S k => String c (repeatChar k c) end.

Definition padStart (targetLength : nat) (fill : ascii) (s : string) : string :=
  repeatChar (targetLength - String.length s) fill ++ s.

(** ** JavaScript numbers

    Order numbers and counters are numbers that hold integers. A finite
    one is modelled by its value in [Z]; the values that occur are the
    integers a double represents: every integer of magnitude up to 2^53,
    and beyond 2^53 the multiples of a power of two with 53 significant
    bits. Arithmetic and conversions round to the nearest of them, and
    overflow to an infinity. *)

Definition digitChar (d : N) : ascii := ascii_of_N (48 + d).

(** Decimal digits of [n], most significant first, pushed in front of
    [acc]; [fuel] bounds the number of further divisions. *)
Fixpoint toDigits (fuel : nat) (n : N) (acc : string) : string :=
  let acc' := String (digitChar (n mod 10)) acc in
  match fuel with
  | O => acc'
  | S f => if (n / 10 =? 0)%N then acc' else toDigits f (n / 10)%N acc'
  end.

(** The decimal digits of a natural number. The binary logarithm bounds
    the number of digits after the first. *)
Definition stringOfN (n : N) : string := toDigits (N.to_nat (N.log2 n)) n "".

Definition digitValue (c : ascii) : Z := Z.of_N (code c) - 48.

(** The value of a string of decimal digits. *)
Fixpoint numberOfDigits (acc : Z) (s : string) : Z :=
  match s with
  | EmptyString => acc
  | String c r => numberOfDigits (10 * acc + digitValue c) r
  end.

(** [toNumber] (line 60). A stored numeric field is a number or is
    missing; [Number(undefined)] is [NaN], and every value that is not
    finite reads as zero. The carrier [A] is [Z] for counters and [Q] for
    stock quantities. *)
Inductive number (A : Type) : Type :=
| Finite (x : A)
| NaN
| PosInfinity
| NegInfinity.
Arguments Finite {A} x.
Arguments NaN {A}.
Arguments PosInfinity {A}.
Arguments NegInfinity {A}.

Definition toNumber {A : Type} (zero : A) (value : option (number A)) : A :=
  match value with
  | Some (Finite x) => x
  | _ => zero
  end.

(** *** Rounding to a double

    The double nearest to a non-negative integer [m], ties going to the
    even significand. Up to 2^53 every integer is a double; beyond, the
    doubles of the binade of [m] are the multiples of [u], the power of
    two that leaves 53 significant bits. *)
Definition roundMagnitude (m : Z) : Z :=
  if (m <=? 2 ^ 53)%Z then m
  else
    let u := 2 ^ (Z.log2 m - 52) in
    let q := m / u in
    let r := m mod u in
    if (2 * r <? u)%Z then q * u
    else if (u <? 2 * r)%Z then (q + 1) * u
    else if Z.even q then q * u else (q + 1) * u.

(** The number for the integer [z]: the nearest double, or an infinity
    when that is 2^1024 or more in magnitude. *)
Definition roundToDouble (z : Z) : number Z :=
  let m := roundMagnitude (Z.abs z) in
  if (2 ^ 1024 <=? m)%Z then (if (z <? 0)%Z then NegInfinity else PosInfinity)
  else Finite (Z.sgn z * m).

(** [x + 1]. *)
Definition plusOne (x : number Z) : number Z :=
  match x with
  | Finite n => roundToDouble (n + 1)
  | NaN => NaN
  | PosInfinity => PosInfinity
  | NegInfinity => NegInfinity
  end.

(** [Number(digits)] for a string of decimal digits, read by
    [numberOfDigits]: the nearest double. *)
Definition numberOfString (digits : string) : number Z :=
  roundToDouble (numberOfDigits 0 digits).

(** *** Printing a number

    [String(x)] prints the shortest decimal that reads back as [x]: the
    least number [k] of significant digits, and among the candidates of
    [k] digits the one nearest to [x], the even one on a tie. For an
    integer of magnitude up to 2^53 that is its plain decimal. For the
    other doubles [shortestFrom] tries [k = 1, 2, ...]; [d] is the number
    of decimal digits of [m], and the result is the pair of the digits
    as a number and of the power of ten that scales them. Seventeen
    digits always suffice. *)
Definition roundsTo (v m : Z) : bool :=
  match roundToDouble v with
  | Finite x => (x =? m)%Z
  | _ => false
  end.

Fixpoint shortestFrom (fuel : nat) (k d m : Z) : Z * Z :=
  match fuel with
  | O => (m, 0)
  | S f =>
      let e := d - k in
      if (e <? 0)%Z then (m, 0)
      else
        let p := 10 ^ e in
        let lo := m / p in
        let hi := lo + 1 in
        let okLo := roundsTo (lo * p) m in
        let okHi := roundsTo (hi * p) m in
        if okLo && okHi
        then if (m - lo * p <? hi * p - m)%Z then (lo, e)
             else if (hi * p - m <? m - lo * p)%Z then (hi, e)
             else if Z.even lo then (lo, e) else (hi, e)
        else if okLo then (lo, e)
        else if okHi then (hi, e)
        else shortestFrom f (k + 1) d m
  end.

(** [s] without its final zeros. *)
Fixpoint stripZeros (s : string) : string :=
  match s with
  | EmptyString => EmptyString
  | String c r =>
      match stripZeros r with
      | EmptyString => if Ascii.eqb c "0" then EmptyString else String c EmptyString
      | r' => String c r'
      end
  end.

(** The digits followed by zeros when the number has at most 21
    digits, the exponent notation otherwise. *)
Definition shortestString (n : N) : string :=
  let m := Z.of_N n in
  let '(s, e) := shortestFrom 17 1 (Z.of_nat (String.length (stringOfN n))) m in
  let digits := stringOfN (Z.to_N s) in
  let n10 := Z.of_nat (String.length digits) + e in
  if (n10 <=? 21)%Z then digits ++ repeatChar (Z.to_nat e) "0"
  else
    match stripZeros digits with
    | EmptyString => EmptyString
    | String c EmptyString => String c ("e+" ++ stringOfN (Z.to_N (n10 - 1)))
    | String c rest => String c ("." ++ rest ++ "e+" ++ stringOfN (Z.to_N (n10 - 1)))
    end.

Definition stringOfMagnitude (n : N) : string :=
  if (n <=? 2 ^ 53)%N then stringOfN n else shortestString n.

(** [String(value)] for a finite number that holds an integer, and for
    any number. *)
Definition stringOfNumber (value : Z) : string :=
  match value with
  | Zneg p => String "-" (stringOfMagnitude (Npos p))
  | _ => stringOfMagnitude (Z.to_N value)
  end.

Definition stringOf (value : number Z) : string :=
  match value with
  | Finite z => stringOfNumber z
  | NaN => "NaN"
  | PosInfinity => "Infinity"
  | NegInfinity => "-Infinity"
  end.

Example stringOf_large :
  stringOf (Finite (2 ^ 64)) = "18446744073709552000"
  /\ stringOf (Finite (10 ^ 21)) = "1e+21"
  /\ stringOf (Finite (2 ^ 70)) = "1.1805916207174113e+21"
  /\ roundToDouble (2 ^ 53 + 1) = Finite (2 ^ 53)
  /\ roundToDouble (10 ^ 23) = Finite 99999999999999991611392.
Proof. vm_compute. repeat split; reflexivity. Qed.

(** ** Order numbers (functions/index.js, lines 31 and 74-80) *)

Definition ORDER_NUMBER_PAD : nat := 4.

(** The longest run of digits at the head of [s]. *)
Fixpoint takeDigits (s : string) : string :=
  match s with
  | String c r => if isDigit c then String c (takeDigits r) else EmptyString
  | EmptyString => EmptyString
  end.

(** [s.match(/(\d+)/)]: the leftmost run of digits, taken greedily;
    [None] when [s] holds no digit. *)
Fixpoint matchDigits (s : string) : option string :=
  match s with
  | EmptyString => None
  | String c r => if isDigit c then Some (takeDigits s) else matchDigits r
  end.

Definition parseOrderNumber (value : string) : number Z :=
  if negb (truthy value) then Finite 0
  else match matchDigits value with
       | Some m => numberOfString m
       | None => Finite 0
       end.

Definition formatOrderNumber (value : number Z) : string :=
  String "#" (padStart ORDER_NUMBER_PAD "0" (stringOf value)).

Example formatOrderNumber_7 : formatOrderNumber (Finite 7) = "#0007".
Proof. reflexivity. Qed.

Example formatOrderNumber_12345 : formatOrderNumber (Finite 12345) = "#12345".
Proof. reflexivity. Qed.

Example parseOrderNumber_free_text : parseOrderNumber "Order 0042 (paid 3)" = Finite 42.
Proof. reflexivity. Qed.

(** A string of decimal digits. *)
Fixpoint allDigits (s : string) : bool :=
  match s with
  | EmptyString => true
  | String c r => isDigit c && allDigits r
  end.

(** A number in the shape [formatOrderNumber] gives to a natural of at
    most four digits. *)
Definition padWidth (s : string) : Prop :=
  exists k, 0 <= k <= 9999 /\ s = formatOrderNumber (Finite k).

(** ** Documents and the store *)

(** The fields of an order document read by the functions. A missing
    field is [None]. Line items and money amounts only feed the rendered
    body and are left out: on an order whose line items are objects the
    composition of a message is a pure computation that cannot fail. *)
Record Order := {
  orderNumber : option string;
  orderStatus : option string;
  email : option string;
  sendDate : option string;
  name : option string;
  surname : option string;
  deliveryOption : option string;
  trackingLink : option string;
  dispatchEmailSentAt : bool
}.

Definition emptyOrder : Order :=
  {| orderNumber := None; orderStatus := None; email := None; sendDate := None;
     name := None; surname := None; deliveryOption := None; trackingLink := None;
     dispatchEmailSentAt := false |}.

Definition withOrderNumber (o : Order) (n : option string) : Order :=
  {| orderNumber := n; orderStatus := orderStatus o; email := email o;
     sendDate := sendDate o; name := name o; surname := surname o;
     deliveryOption := deliveryOption o; trackingLink := trackingLink o;
     dispatchEmailSentAt := dispatchEmailSentAt o |}.

Definition withDispatchSent (o : Order) : Order :=
  {| orderNumber := orderNumber o; orderStatus := orderStatus o; email := email o;
     sendDate := sendDate o; name := name o; surname := surname o;
     deliveryOption := deliveryOption o; trackingLink := trackingLink o;
     dispatchEmailSentAt := true |}.

(** A counter document of the collection [orderCounters]. *)
Record Counter := { lastNumber : option (number Z) }.

(** The store: counters by stream name, orders by collection and id. *)
Record Db := {
  orderCounters : gmap string Counter;
  orders : gmap (string * string) Order
}.

(** The [orderNumber] values of the documents of a collection that have
    the field: what [orderBy("orderNumber")] ranges over. *)
Definition orderNumbersOf (collectionName : string) (d : Db) : list string :=
  omap (fun kv : string * string * Order =>
          if decide (kv.1.1 = collectionName) then orderNumber kv.2 else None)
       (map_to_list (orders d)).

(** Strings are ordered by code units, as the store orders them. *)
Definition maxString (l : list string) : option string :=
  foldr (fun s acc =>
           match acc with
           | None => Some s
           | Some t => if String.ltb t s then Some s else Some t
           end) None l.

(** [collection(c).orderBy("orderNumber", "desc").limit(1)], projected on
    the field. *)
Definition latestOrderNumber (collectionName : string) (d : Db) : option string :=
  maxString (orderNumbersOf collectionName d).

(** ** Mail *)

(** The rendered HTML is kept as the template and the values it
    interpolates. *)
Inductive Html :=
| StatusCustomerHtml (order : Order) (statusLabel : string)
| StatusAdminHtml (order : Order) (previousLabel statusLabel : string)
| DispatchHtml (order : Order)
| StockAlertHtml (itemName : string) (afterQty threshold : QArith_base.Q)
| RawHtml (html : string).

Record Email := {
  to : list string;
  subject : string;
  html : Html
}.

(** What the provider call gives back: a response, whose [data.id] may
    be missing, or a rejected promise. *)
Inductive SendResult :=
| Response (id : option string)
| Rejected (message : string).

(** Configuration read at each invocation, and the provider. *)
Record Env := {
  env_RESEND_API_KEY : option string;
  config_resend_api_key : option string;
  env_ADMIN_EMAIL : option string;
  config_admin_email : option string;
  transport : Email -> SendResult
}.

(** ** Effects

    A handler runs against the store and leaves a trace of the store and
    provider operations it performed; it returns or throws. *)
Inductive ErrorCode :=
| permission_denied
| invalid_argument
| not_found
| failed_precondition.

Inductive Error :=
| HttpsError (code : ErrorCode) (message : string)
| TransportError (message : string).

Inductive Op :=
| TxGetCounter (stream : string)
| TxQueryLatest (stream : string)
| TxSetCounter (stream : string) (next : number Z)
| DocGet (collectionName id : string)
| DocSetOrderNumber (collectionName id : string) (formatted : string)
| DocSetDispatchSent (collectionName id : string)
| TransportSend (message : Email).

Record World := {
  db : Db;
  trace : list Op
}.

Inductive Outcome (A : Type) : Type :=
| Ok (a : A)
| Throw (e : Error).
Arguments Ok {A} a.
Arguments Throw {A} e.

Definition M (A : Type) : Type := World -> Outcome A * World.

Definition ret {A} (a : A) : M A := fun w => (Ok a, w).
Definition throw {A} (e : Error) : M A := fun w => (Throw e, w).
Definition bind {A B} (m : M A) (k : A -> M B) : M B :=
  fun w => match m w with
           | (Ok a, w') => k a w'
           | (Throw e, w') => (Throw e, w')
           end.
Definition logOp (o : Op) : M unit :=
  fun w => (Ok tt, {| db := db w; trace := (trace w ++ [o])%list |}).
Definition readDb {A} (f : Db -> A) : M A := fun w => (Ok (f (db w)), w).
Definition writeDb (f : Db -> Db) : M unit :=
  fun w => (Ok tt, {| db := f (db w); trace := trace w |}).

#[global] Instance M_ret : MRet M := @ret.
#[global] Instance M_bind : MBind M := fun A B k m => bind m k.

(** *** Store operations *)

Definition txGetCounter (stream : string) : M (option Counter) :=
  logOp (TxGetCounter stream);; readDb (fun d => orderCounters d !! stream).

Definition txQueryLatest (stream : string) : M (option string) :=
  logOp (TxQueryLatest stream);; readDb (latestOrderNumber stream).

(** [tx.set(counterRef, { lastNumber: next }, { merge: true })]. *)
Definition txSetCounter (stream : string) (next : number Z) : M unit :=
  logOp (TxSetCounter stream next);;
  writeDb (fun d => {| orderCounters :=
                         <[stream := {| lastNumber := Some next |}]> (orderCounters d);
                       orders := orders d |}).

Definition docGet (collectionName id : string) : M (option Order) :=
  logOp (DocGet collectionName id);;
  readDb (fun d => orders d !! (collectionName, id)).

(** [ref.set(fields, { merge: true })]: the document is created when it
    does not exist. *)
Definition mergeOrder (collectionName id : string) (f : Order -> Order) (d : Db) : Db :=
  {| orderCounters := orderCounters d;
     orders := <[(collectionName, id) := f (default emptyOrder (orders d !! (collectionName, id)))]>
                 (orders d) |}.

Definition docSetOrderNumber (collectionName id formatted : string) : M unit :=
  logOp (DocSetOrderNumber collectionName id formatted);;
  writeDb (mergeOrder collectionName id (fun o => withOrderNumber o (Some formatted))).

Definition docSetDispatchSent (collectionName id : string) : M unit :=
  logOp (DocSetDispatchSent collectionName id);;
  writeDb (mergeOrder collectionName id withDispatchSent).

(** ** The sequence allocator (lines 313-342) *)

(** A document reference: collection and id. *)
Definition DocRef : Type := string * string.

(** The function passed to [db.runTransaction]. *)
Definition allocateNext (collectionName : string) : M (number Z) :=
  counterSnap ← txGetCounter collectionName;
  lastNumber ← match counterSnap with
               | Some c => mret (Finite (toNumber 0 (lastNumber c)))
               | None =>
                   latestSnap ← txQueryLatest collectionName;
                   mret (match latestSnap with
                         | Some v => parseOrderNumber v
                         | None => Finite 0
                         end)
               end;
  let next := plusOne lastNumber in
  txSetCounter collectionName next;;
  mret next.

(** A transaction is serializable: its body runs against the store with
    no other operation in between. *)
Definition runTransaction {A} (body : M A) : M A := body.

Definition assignOrderNumber (collectionName : string) (orderRef : DocRef) : M string :=
  nextNumber ← runTransaction (allocateNext collectionName);
  let formatted := formatOrderNumber nextNumber in
  docSetOrderNumber orderRef.1 orderRef.2 formatted;;
  mret formatted.

Definition ensureOrderNumber (collectionName : string) (orderRef : DocRef)
    (orderData : Order) : M string :=
  match orderNumber orderData with
  | Some n => if truthy n then mret n else assignOrderNumber collectionName orderRef
  | None => assignOrderNumber collectionName orderRef
  end.

(** *** Concurrent callers

    Any number of invocations of [assignOrderNumber] run interleaved with
    each other and with the clients of the store. An invocation takes two
    steps, its transaction and, later, the write of the formatted number
    on the order, a document of the stream's collection (the reference of
    the created document in both [onCreate] triggers). Clients create,
    edit and delete orders; they write no counter and no order number. *)
Record Allocation := {
  stream : string;
  target : DocRef;
  issued : number Z
}.

Record System := {
  world : World;
  inFlight : list Allocation;
  committed : list Allocation
}.

Definition numberAt (d : Db) (k : string * string) : option string :=
  orders d !! k ≫= orderNumber.



Definition initial (d : Db) : System :=
  {| world := {| db := d; trace := [] |}; inFlight := []; committed := [] |}.




(** The value a number reads as through [toNumber]: its own when it is
    finite, zero otherwise. *)
Definition valueOf (x : number Z) : Z := toNumber 0 (Some x).


(** What a transaction on the stream would read as [lastNumber] when
    the counter document exists. *)
Definition counterValue (collectionName : string) (d : Db) : option Z :=
  (fun c => toNumber 0 (lastNumber c)) <$> orderCounters d !! collectionName.

(** *** What a transaction reads and writes *)

(** The value of [lastNumber] in the transaction: the counter's, or else
    the number parsed from the latest order of the stream, or else zero. *)
Definition lastRead (collectionName : string) (d : Db) : number Z :=
  match orderCounters d !! collectionName with
  | Some c => Finite (toNumber 0 (lastNumber c))
  | None => match latestOrderNumber collectionName d with
            | Some v => parseOrderNumber v
            | None => Finite 0
            end
  end.

Definition withCounter (collectionName : string) (next : number Z) (d : Db) : Db :=
  {| orderCounters := <[collectionName := {| lastNumber := Some next |}]> (orderCounters d);
     orders := orders d |}.



(** The operations a transaction performs on the store. *)
Definition allocateOps (collectionName : string) (d : Db) : list Op :=
  TxGetCounter collectionName ::
  match orderCounters d !! collectionName with
  | Some _ => []
  | None => [TxQueryLatest collectionName]
  end ++ [TxSetCounter collectionName (plusOne (lastRead collectionName d))].

(** The world after [assignOrderNumber] ran on the order: the counter
    advanced by one and the formatted number written on the order. *)
Definition numberAssigned (collectionName id : string) (w : World) : World :=
  let next := plusOne (lastRead collectionName (db w)) in
  {| db := mergeOrder collectionName id
             (fun o => withOrderNumber o (Some (formatOrderNumber next)))
             (withCounter collectionName next (db w));
     trace := (trace w ++ allocateOps collectionName (db w)
               ++ [DocSetOrderNumber collectionName id (formatOrderNumber next)])%list |}.

(** The number an [orderNumber] shows: the value of its first run of
    digits, zero when it has none. *)
Definition numberShown (value : string) : Z :=
  match matchDigits value with
  | Some m => numberOfDigits 0 m
  | None => 0
  end.

(** The bootstrap value as the specification words it: the highest
    number carried by an order of the stream. *)
Definition highestAssigned (collectionName : string) (d : Db) : Z :=
  foldr Z.max 0 (numberShown <$> orderNumbersOf collectionName d).

(** *** Invariants of the runs *)





(** The two steps of an invocation, as functions of the system. *)
Definition commitOf (collectionName id : string) (s : System) : System :=
  match runTransaction (allocateNext collectionName) (world s) with
  | (Ok next, w') =>
      let a := {| stream := collectionName; target := (collectionName, id); issued := next |} in
      {| world := w'; inFlight := a :: inFlight s; committed := (committed s ++ [a])%list |}
  | (Throw _, _) => s
  end.

Definition stampFirst (s : System) : System :=
  match inFlight s with
  | a :: rest =>
      match docSetOrderNumber (target a).1 (target a).2 (formatOrderNumber (issued a)) (world s) with
      | (Ok _, w') => {| world := w'; inFlight := rest; committed := committed s |}
      | (Throw _, _) => s
      end
  | [] => s
  end.

(** ** The recipient resolver (lines 14-18 and 255-263) *)

Definition ADMIN_EMAIL_EXCLUSIONS : gset string :=
  {[ "bradsgbaker14@gmail.com"; "admin@thecrookedfence.co.za" ]}.

Definition ADMIN_EMAIL_FALLBACKS : list string := ["stolschristopher60@gmail.com"].

(** The character class [[;,\s]]. *)
Definition isSeparator (c : ascii) : bool :=
  (code c =? 59)%N || (code c =? 44)%N || isSpace c.

(** [s.split(/[;,\s]+/)]: the pieces between the maximal runs of
    separators, the empty pieces before a leading run and after a
    trailing run included. [cur] is the piece being read and [inRun]
    tells that the last character was a separator. *)
Fixpoint splitFrom (inRun : bool) (cur : string) (s : string) : list string :=
  match s with
  | EmptyString => [cur]
  | String c r =>
      if isSeparator c
      then if inRun then splitFrom true cur r else cur :: splitFrom true "" r
      else splitFrom false (cur ++ String c "") r
  end.

Definition split (s : string) : list string := splitFrom false "" s.

(** The body of [getAdminRecipients], with the two constants as
    parameters. *)
Definition resolveRecipients (exclusions : gset string) (fallbacks : list string)
    (email : string) : list string :=
  if negb (truthy email) then []
  else
    let recipients :=
      List.filter
        (fun address => truthy address && negb (bool_decide (toLowerCase address ∈ exclusions)))
        (trim <$> split email) in
    if (0 <? length recipients)%nat then recipients else fallbacks.

Definition getAdminRecipients (env : Env) : list string :=
  let email := orElse (env_ADMIN_EMAIL env) (orElse (config_admin_email env) "") in
  resolveRecipients ADMIN_EMAIL_EXCLUSIONS ADMIN_EMAIL_FALLBACKS email.

(** *** The resolver as the specification words it

    The addresses of a configured string are its maximal runs of
    characters other than white space, commas and semicolons; [cur] is
    the run being read. The excluded ones, compared in lower case, are
    removed. *)
Fixpoint tokensFrom (cur : string) (s : string) : list string :=
  match s with
  | EmptyString => if truthy cur then [cur] else []
  | String c r =>
      if isSeparator c
      then if truthy cur then cur :: tokensFrom "" r else tokensFrom "" r
      else tokensFrom (cur ++ String c "") r
  end.

Definition tokens (s : string) : list string := tokensFrom "" s.

Definition keptAddresses (exclusions : gset string) (raw : string) : list string :=
  List.filter (fun address => negb (bool_decide (toLowerCase address ∈ exclusions)))
    (tokens raw).

(** A string without white space, comma or semicolon. *)
Fixpoint noSeparator (s : string) : bool :=
  match s with
  | EmptyString => true
  | String c r => negb (isSeparator c) && noSeparator r
  end.

(** ** The delivery client (lines 242-284) *)

Definition notConfigured : Error :=
  HttpsError failed_precondition "Resend API key is not configured.".

Definition getResendClient (env : Env) : option string :=
  if truthyField (env_RESEND_API_KEY env) then env_RESEND_API_KEY env
  else if truthyField (config_resend_api_key env) then config_resend_api_key env
  else None.

(** [resend.emails.send]. *)
Definition transportSend (env : Env) (message : Email) : M (option string) :=
  logOp (TransportSend message);;
  match transport env message with
  | Response id => mret id
  | Rejected msg => throw (TransportError msg)
  end.

(** The result is [None] for [null] and [Some id] for the provider's
    response, [id] being its [data.id]. *)
Definition sendEmail (env : Env) (message : Email) : M (option (option string)) :=
  match getResendClient env with
  | None => throw notConfigured
  | Some _ =>
      let filtered := List.filter truthy (to message) in
      if (length filtered =? 0)%nat then mret None
      else
        id ← transportSend env {| to := filtered; subject := subject message;
                                  html := html message |};
        mret (Some id)
  end.

(** ** Status-change notifications (lines 20-29, 102, 441-521, 899-931) *)

Definition ORDER_STATUS_LABELS : list (string * string) :=
  [ ("pending", "Pending"); ("waiting_list", "Waiting list"); ("cancelled", "Cancelled");
    ("packed", "Packed"); ("scheduled_dispatch", "Scheduled for Dispatch");
    ("shipped", "Shipped"); ("completed", "Completed"); ("archived", "Archived") ].

Fixpoint lookupLabel (table : list (string * string)) (key : string) : option string :=
  match table with
  | [] => None
  | (k, v) :: rest => if String.eqb k key then Some v else lookupLabel rest key
  end.

(** The members the table inherits from [Object.prototype], each with
    the text it gives when it is put in a message. *)
Definition nativeFunction (name : string) : string :=
  "function " ++ name ++ "() { [native code] }".

Definition inheritedMembers : list (string * string) :=
  [ ("constructor", nativeFunction "Object");
    ("__defineGetter__", nativeFunction "__defineGetter__");
    ("__defineSetter__", nativeFunction "__defineSetter__");
    ("hasOwnProperty", nativeFunction "hasOwnProperty");
    ("__lookupGetter__", nativeFunction "__lookupGetter__");
    ("__lookupSetter__", nativeFunction "__lookupSetter__");
    ("isPrototypeOf", nativeFunction "isPrototypeOf");
    ("propertyIsEnumerable", nativeFunction "propertyIsEnumerable");
    ("toString", nativeFunction "toString");
    ("valueOf", nativeFunction "valueOf");
    ("__proto__", "[object Object]");
    ("toLocaleString", nativeFunction "toLocaleString") ].

(** [ORDER_STATUS_LABELS[status] || status || "-"]: the label of the
    table, else the inherited member of that name, else the status
    itself. *)
Definition getOrderStatusLabel (status : option string) : string :=
  match status with
  | Some s =>
      orElse (lookupLabel ORDER_STATUS_LABELS s)
        (orElse (lookupLabel inheritedMembers s) (orElse (Some s) "-"))
  | None => "-"
  end.

Example getOrderStatusLabel_samples :
  getOrderStatusLabel (Some "packed") = "Packed"
  /\ getOrderStatusLabel (Some "on_hold") = "on_hold"
  /\ getOrderStatusLabel (Some "constructor") = "function Object() { [native code] }"
  /\ getOrderStatusLabel None = "-".
Proof. vm_compute. repeat split; reflexivity. Qed.

Definition suppressed : gset string := {[ "archived"; "cancelled" ]}.

(** [if (cond) { await m; }]. *)
Definition when {A} (cond : bool) (m : M A) : M unit :=
  if cond then m;; mret tt else mret tt.

(** The two messages composed at lines 445-504. *)
Definition orderNumberLabelOf (order : Order) : string :=
  let orderNumber := orElse (orderNumber order) "" in
  if truthy orderNumber then " " ++ orderNumber else "".

Definition statusCustomerEmail (order : Order) (nextStatus : option string) : Email :=
  {| to := [default "" (email order)];
     subject := "Your order" ++ orderNumberLabelOf order ++ " status update";
     html := StatusCustomerHtml order (getOrderStatusLabel nextStatus) |}.

Definition statusAdminEmail (env : Env) (order : Order)
    (previousStatus nextStatus : option string) : Email :=
  {| to := getAdminRecipients env;
     subject := "Order status updated" ++ orderNumberLabelOf order;
     html := StatusAdminHtml order (getOrderStatusLabel previousStatus)
               (getOrderStatusLabel nextStatus) |}.

Definition sendOrderStatusEmails (env : Env) (order : Order)
    (previousStatus nextStatus : option string) (collectionName : string) : M unit :=
  if negb (truthyField nextStatus) || bool_decide (default "" nextStatus ∈ suppressed)
  then mret tt
  else
    let adminRecipients := getAdminRecipients env in
    when (truthyField (email order))
      (sendEmail env (statusCustomerEmail order nextStatus));;
    when (0 <? length adminRecipients)%nat
      (sendEmail env (statusAdminEmail env order previousStatus nextStatus)).

(** The [onUpdate] trigger of a collection; [emailOnStatusChange] and
    [emailOnLivestockStatusChange] are its two instances. *)
Definition onStatusChange (collectionName : string) (env : Env) (before after : Order) : M unit :=
  if bool_decide (orderStatus before = orderStatus after) then mret tt
  else
    let orderNumber :=
      orElse (orderNumber after) (orElse (orderNumber before) "") in
    sendOrderStatusEmails env (withOrderNumber after (Some orderNumber))
      (orderStatus before) (orderStatus after) collectionName.

Definition emailOnStatusChange : Env -> Order -> Order -> M unit :=
  onStatusChange "eggOrders".

Definition emailOnLivestockStatusChange : Env -> Order -> Order -> M unit :=
  onStatusChange "livestockOrders".

(** The world after [messages] were handed to the provider and nothing
    else was done. *)
Definition sentTo (w : World) (messages : list Email) : World :=
  {| db := db w; trace := (trace w ++ (TransportSend <$> messages))%list |}.

(** The messages a status change is expected to produce. *)
Definition statusOrder (before after : Order) : Order :=
  withOrderNumber after (Some (orElse (orderNumber after) (orElse (orderNumber before) ""))).

Definition statusEmails (env : Env) (before after : Order) : list Email :=
  ((if truthyField (email after)
    then [statusCustomerEmail (statusOrder before after) (orderStatus after)] else [])
   ++ (if (0 <? length (getAdminRecipients env))%nat
       then [statusAdminEmail env (statusOrder before after) (orderStatus before)
               (orderStatus after)]
       else []))%list.

(** ** The threshold watcher (lines 933-972) *)

Definition Q : Type := QArith_base.Q.

Definition Qzero : Q := QArith_base.Qmake 0 1.

(** [a <= b] and [a > b] on finite numbers. *)
Definition leq (a b : Q) : bool := QArith_base.Qle_bool a b.
Definition gtr (a b : Q) : bool :=
  (QArith_base.Qnum b * Zpos (QArith_base.Qden a) <? QArith_base.Qnum a * Zpos (QArith_base.Qden b))%Z.

Record StockItem := {
  itemName : option string;
  quantity : option (number Q);
  threshold : option (number Q)
}.

Record Signal := {
  signalName : option string;
  signalQuantity : Q;
  signalThreshold : Q
}.

(** Lines 936-951, up to the test that guards the alert. The result of
    [toNumber] is finite, so [Number.isFinite(threshold)] holds. *)
Definition stockAlertSignal (before after : option StockItem) : option Signal :=
  match after with
  | None => None
  | Some after =>
      let threshold := toNumber Qzero (threshold after) in
      if leq threshold Qzero then None
      else
        let afterQty := toNumber Qzero (quantity after) in
        let beforeQty := (fun b => toNumber Qzero (quantity b)) <$> before in
        if match beforeQty with Some b => leq b threshold | None => false end
        then None
        else if match beforeQty with Some b => gtr b threshold | None => true end
                && leq afterQty threshold
        then Some {| signalName := itemName after; signalQuantity := afterQty;
                     signalThreshold := threshold |}
        else None
  end.

(** Lines 952-969: the alert goes to the admin recipients. *)
Definition stockAlertEmail (env : Env) (sig : Signal) : Email :=
  {| to := getAdminRecipients env;
     subject := "Stock alert: " ++ orElse (signalName sig) "Item" ++ " low";
     html := StockAlertHtml (orElse (signalName sig) "Stock item")
               (signalQuantity sig) (signalThreshold sig) |}.

Definition sendStockAlert (env : Env) (sig : Signal) : M unit :=
  let adminRecipients := getAdminRecipients env in
  if (length adminRecipients =? 0)%nat then mret tt
  else sendEmail env (stockAlertEmail env sig);; mret tt.

Definition stockThresholdAlert (env : Env) (before after : option StockItem) : M unit :=
  match stockAlertSignal before after with
  | Some sig => sendStockAlert env sig
  | None => mret tt
  end.

(** The signals of a history of writes of one item: each write is judged
    against the state the previous one left. *)
Fixpoint signalsOf (before : option StockItem) (writes : list StockItem) : list Signal :=
  match writes with
  | [] => []
  | after :: rest =>
      match stockAlertSignal before (Some after) with
      | Some sig => sig :: signalsOf (Some after) rest
      | None => signalsOf (Some after) rest
      end
  end.

(** ** The dispatch callable (lines 8-12, 220-240, 778-852) *)

Definition BOOTSTRAP_ADMINS : list string :=
  [ "bradsgbaker14@gmail.com"; "admin@thecrookedfence.co.za";
    "stolschristopher60@gmail.com" ].

(** [context.auth?.token]: the caller's email and role claim. *)
Record CallContext := {
  tokenEmail : option string;
  tokenRole : option string
}.

Record DispatchRequest := {
  reqCollectionName : option string;
  reqOrderId : option string
}.

Definition getRoleFromContext (context : CallContext) : option string :=
  let email := match tokenEmail context with Some e => toLowerCase e | None => "" end in
  if truthyField (tokenRole context) then tokenRole context
  else if bool_decide (email ∈ BOOTSTRAP_ADMINS) then Some "admin"
  else None.

Definition requireStaff (context : CallContext) : M unit :=
  let role := getRoleFromContext context in
  if bool_decide (role ≠ Some "admin") && bool_decide (role ≠ Some "super_admin")
     && bool_decide (role ≠ Some "worker")
  then throw (HttpsError permission_denied "Staff access required.")
  else mret tt.

(** The roles [requireStaff] lets through. *)
Definition isStaffRole (role : option string) : Prop :=
  role = Some "admin" \/ role = Some "super_admin" \/ role = Some "worker".

(** [String(data?.collectionName || "").trim()] and
    [String(data?.orderId || "").trim()]. *)
Definition requestedCollection (data : DispatchRequest) : string :=
  trim (orElse (reqCollectionName data) "").

Definition requestedOrderId (data : DispatchRequest) : string :=
  trim (orElse (reqOrderId data) "").

Definition sendDispatchEmail (env : Env) (data : DispatchRequest) (context : CallContext)
    : M (option string) :=
  requireStaff context;;
  let collectionName := requestedCollection data in
  if negb (bool_decide (collectionName ∈ ["eggOrders"; "livestockOrders"]))
  then throw (HttpsError invalid_argument "Invalid collection name.")
  else
    let orderId := requestedOrderId data in
    if negb (truthy orderId)
    then throw (HttpsError invalid_argument "Order id is required.")
    else
      orderSnap ← docGet collectionName orderId;
      match orderSnap with
      | None => throw (HttpsError not_found "Order not found.")
      | Some order =>
          let email := trim (orElse (email order) "") in
          if negb (truthy email)
          then throw (HttpsError failed_precondition "Order email is missing.")
          else
            let orderNumberLabel :=
              if truthyField (orderNumber order)
              then " " ++ default "" (orderNumber order) else "" in
            let subject := "Your order" ++ orderNumberLabel ++ " update from The Crooked Fence" in
            result ← sendEmail env {| to := [email]; subject := subject;
                                      html := DispatchHtml order |};
            docSetDispatchSent collectionName orderId;;
            mret (match result with
                  | Some (Some id) => if truthy id then Some id else None
                  | _ => None
                  end)
      end.

(** The world after the one read of the order document. *)
Definition afterRead (w : World) (collectionName id : string) : World :=
  {| db := db w; trace := (trace w ++ [DocGet collectionName id])%list |}.

(** The dashboard's gate on the dispatch button (the order dialog:
    [canSendDispatch]); [draftSendDate] is the date shown in the form. *)
Definition canSendDispatch (order : Order) (draftSendDate : string) : bool :=
  truthyField (email order) && truthy draftSendDate.

(** ** The allocation poller (the order form, [submitOrder], lines 327-343) *)

Inductive Snapshot :=
| ReadFailed (message : string)
| SnapshotOf (orderNumber : option string).

Inductive PollEvent :=
| GetDoc (attempt : nat)
| Sleep (ms : nat).

(** The loop [for (let i = 0; i < 5; i += 1)], entered at [i] with
    [remaining] iterations to go. [getDoc i] is what the read of
    iteration [i] returns. The result is the value of
    [updatedOrderNumber] at the exit, or the error thrown. *)
Fixpoint pollFrom (getDoc : nat -> Snapshot) (i remaining : nat)
    : (string + option string) * list PollEvent :=
  match remaining with
  | O => (inr None, [])
  | S r =>
      match getDoc i with
      | ReadFailed msg => (inl msg, [GetDoc i])
      | SnapshotOf nextNumber =>
          if truthyField nextNumber then (inr nextNumber, [GetDoc i])
          else
            let '(res, evs) := pollFrom getDoc (S i) r in
            (res, GetDoc i :: Sleep 250 :: evs)
      end
  end.

Definition pollOrderNumber (getDoc : nat -> Snapshot) : (string + option string) * list PollEvent :=
  pollFrom getDoc 0 5.

(** What the form shows after the loop: the success message, or the
    error set by the [catch] block. *)
Inductive Shown :=
| Success (orderNumber : option string) (message : string)
| Failure (cause : string).

Definition showResult (polled : string + option string) : Shown :=
  match polled with
  | inr updatedOrderNumber =>
      Success updatedOrderNumber
        (if truthyField updatedOrderNumber
         then "Order submitted! Your order number is " ++ default "" updatedOrderNumber
              ++ ". Please use it as your payment reference."
         else "Order submitted successfully! Thank you for your support.")
  | inl cause => Failure cause
  end.

Definition reads (evs : list PollEvent) : nat :=
  length (List.filter (fun e => match e with GetDoc _ => true | Sleep _ => false end) evs).

Definition slept (evs : list PollEvent) : nat :=
  list_sum ((fun e => match e with GetDoc _ => O | Sleep ms => ms end) <$> evs).

(** A read that succeeds and shows no number. *)
Definition falsyRead (r : Snapshot) : Prop :=
  exists f, r = SnapshotOf f /\ truthyField f = false.

(** ** Sample data *)

Definition emptyDb : Db := {| orderCounters := ∅; orders := ∅ |}.

(** Three invocations on one stream; the second one writes its number
    on the order before the first does, and the third commits before the
    first has written. *)
Definition demoRun : System :=
  commitOf "eggOrders" "o3"
    (stampFirst (commitOf "eggOrders" "o2" (commitOf "eggOrders" "o1" (initial emptyDb)))).

Definition numbered (n : string) : Order := withOrderNumber emptyOrder (Some n).

(** The store after the first allocation for the order [o1] of an empty
    store. *)
Definition createdOnce : World :=
  numberAssigned "eggOrders" "o1" {| db := emptyDb; trace := [] |}.



(** A stream without counter whose orders carry the numbers 9999 and
    10000, both in the shape [formatOrderNumber] gives them. *)
Definition widerThanPad : Db :=
  {| orderCounters := ∅;
     orders := {[ ("eggOrders", "a") := numbered "#9999";
                  ("eggOrders", "b") := numbered "#10000" ]} |}.

Definition acceptAll (message : Email) : SendResult := Response (Some "msg-1").

(** No provider key; no admin address. *)
Definition bareEnv : Env :=
  {| env_RESEND_API_KEY := None; config_resend_api_key := None;
     env_ADMIN_EMAIL := None; config_admin_email := None;
     transport := acceptAll |}.

(** A provider key and one admin address. *)
Definition liveEnv : Env :=
  {| env_RESEND_API_KEY := Some "re_key"; config_resend_api_key := None;
     env_ADMIN_EMAIL := Some "farm@example.com"; config_admin_email := None;
     transport := acceptAll |}.

Definition emptyWorld : World := {| db := emptyDb; trace := [] |}.

(** A message whose only recipient is the empty string, as
    [sendTestEmail] builds it when the request names none. *)
Definition noRecipient : Email :=
  {| to := [""]; subject := "The Crooked Fence test email";
     html := RawHtml "<p>It works!</p>" |}.

(** Sample orders. *)
Definition pendingOrder : Order :=
  {| orderNumber := Some "#0007"; orderStatus := Some "pending";
     email := Some "customer@example.com"; sendDate := None;
     name := Some "Ann"; surname := None; deliveryOption := None; trackingLink := None;
     dispatchEmailSentAt := false |}.

Definition withStatus (o : Order) (status : option string) : Order :=
  {| orderNumber := orderNumber o; orderStatus := status; email := email o;
     sendDate := sendDate o; name := name o; surname := surname o;
     deliveryOption := deliveryOption o; trackingLink := trackingLink o;
     dispatchEmailSentAt := dispatchEmailSentAt o |}.

Definition staff : CallContext := {| tokenEmail := Some "w@example.com"; tokenRole := Some "worker" |}.

Definition dispatchOf (id : string) : DispatchRequest :=
  {| reqCollectionName := Some "eggOrders"; reqOrderId := Some id |}.

(** A store with one order that has an email address and no send date. *)
Definition oneOrderDb : Db :=
  {| orderCounters := ∅; orders := {[ ("eggOrders", "o1") := pendingOrder ]} |}.

(** A stock item with a quantity and a threshold. *)
Definition stockOf (qty thr : Z) : StockItem :=
  {| itemName := Some "Layer feed";
     quantity := Some (Finite (QArith_base.inject_Z qty));
     threshold := Some (Finite (QArith_base.inject_Z thr)) |}.

(** Reads that never show a number, and reads that show one at the
    third attempt. *)
Definition neverNumbered (attempt : nat) : Snapshot := SnapshotOf None.

Definition numberedAtThird (attempt : nat) : Snapshot :=
  if (attempt <? 2)%nat then SnapshotOf (Some "") else SnapshotOf (Some "#0007").

(** * Further functions *)

(** ** Text helpers (functions/index.js, lines 82-100) *)

(** [s.replace(/c/g, by)] for a one-character pattern and a replacement
    without [$]. *)
Fixpoint replaceAll (c : ascii) (by_ : string) (s : string) : string :=
  match s with
  | EmptyString => EmptyString
  | String a r => (if Ascii.eqb a c then by_ else String a EmptyString) ++ replaceAll c by_ r
  end.

(** The double quote, U+0022. *)
Definition doubleQuote : ascii := ascii_of_N 34.

(** [value] is a string, or is missing. *)
Definition escapeHtml (value : option string) : string :=
  replaceAll "'" "&#39;"
    (replaceAll doubleQuote "&quot;"
       (replaceAll ">" "&gt;"
          (replaceAll "<" "&lt;"
             (replaceAll "&" "&amp;" (orElse value ""))))).

(** What [escapeHtml] does to one character, and to a text character
    by character. *)
Definition escapeChar (a : ascii) : string :=
  if Ascii.eqb a "&" then "&amp;"
  else if Ascii.eqb a "<" then "&lt;"
  else if Ascii.eqb a ">" then "&gt;"
  else if Ascii.eqb a doubleQuote then "&quot;"
  else if Ascii.eqb a "'" then "&#39;"
  else String a EmptyString.

Fixpoint escapeEach (s : string) : string :=
  match s with
  | EmptyString => EmptyString
  | String a r => escapeChar a ++ escapeEach r
  end.

(** [c] occurs in [s]. *)
Fixpoint occurs (c : ascii) (s : string) : bool :=
  match s with
  | EmptyString => false
  | String a r => Ascii.eqb a c || occurs c r
  end.

(** [s] begins with [p]. *)
Fixpoint startsWith (p s : string) : bool :=
  match p with
  | EmptyString => true
  | String a p' =>
      match s with
      | String b s' => Ascii.eqb a b && startsWith p' s'
      | EmptyString => false
      end
  end.

(** [/^https?:\/\//i.test(url)]: below U+0100 only the two cases of an
    ASCII letter match it. *)
Definition hasScheme (url : string) : bool :=
  startsWith "http://" (toLowerCase url) || startsWith "https://" (toLowerCase url).

Definition normalizeUrl (value : option string) : string :=
  let url := trim (orElse value "") in
  if negb (truthy url) then ""
  else if hasScheme url then url
  else "https://" ++ url.

(** [parts.join(sep)]. *)
Fixpoint join (sep : string) (parts : list string) : string :=
  match parts with
  | [] => ""
  | [p] => p
  | p :: rest => p ++ sep ++ join sep rest
  end.

(** [[a, b].filter(Boolean)] on fields that may be missing. *)
Definition presentFields (fields : list (option string)) : list string :=
  omap (fun f => match f with
                 | Some s => if truthy s then Some s else None
                 | None => None
                 end) fields.

Definition getCustomerName (order : Order) : string :=
  let full := trim (join " " (presentFields [name order; surname order])) in
  if truthy full then full else "Customer".

(** A text with no white space at its head. *)
Definition headed (s : string) : Prop :=
  match s with EmptyString => True | String c _ => isSpace c = false end.

(** ** Roles (lines 228-233) *)

Definition requireAdmin (context : CallContext) : M unit :=
  let role := getRoleFromContext context in
  if bool_decide (role ≠ Some "admin") && bool_decide (role ≠ Some "super_admin")
  then throw (HttpsError permission_denied "Admin access required.")
  else mret tt.

(** The roles [requireAdmin] lets through. *)
Definition isAdminRole (role : option string) : Prop :=
  role = Some "admin" \/ role = Some "super_admin".

(** ** The dispatch message (lines 778-852) *)

(** The message [sendDispatchEmail] composes for an order. *)
Definition dispatchEmail (order : Order) : Email :=
  {| to := [trim (orElse (email order) "")];
     subject := "Your order"
                ++ (if truthyField (orderNumber order)
                    then " " ++ default "" (orderNumber order) else "")
                ++ " update from The Crooked Fence";
     html := DispatchHtml order |}.

(** The world after the order was marked as notified. *)
Definition dispatchRecorded (w : World) (collectionName id : string) : World :=
  {| db := mergeOrder collectionName id withDispatchSent (db w);
     trace := (trace w ++ [DocSetDispatchSent collectionName id])%list |}.

(** ** Handlers that only send

    [m] leaves the store as it was and hands at most [n] messages to the
    provider, whether it returns or throws. *)
Definition onlySends {A} (n : nat) (m : M A) : Prop :=
  forall w, exists sent, (length sent <= n)%nat /\ (m w).2 = sentTo w sent.

(** ** Stock documents (lines 523-548)

    A document of [stockItems]: the fields the watcher reads, and its
    category fields. *)
Record StockDoc := {
  stockFields : StockItem;
  stockCategoryId : option string;
  stockCategory : option string;
  stockSubCategory : option string;
  stockNotes : option string
}.

(** The stock collections: items by id, and the [name] field of the
    categories by id ([None] when the field is missing). *)
Record StockStore := {
  stockItems : gmap string StockDoc;
  stockCategories : gmap string (option string)
}.

(** An item as [loadStockData] returns it. *)
Record StockRow := {
  rowId : string;
  rowName : string;
  rowCategory : string;
  rowSubCategory : string;
  rowQuantity : Q;
  rowThreshold : Q;
  rowNotes : string
}.

(** [orderBy("name", "asc")]: the documents that have the field, by
    name and then by id. *)
Definition byName {A} (a b : string * string * A) : bool :=
  match String.compare a.1.1 b.1.1 with
  | Lt => true
  | Gt => false
  | Eq => String.leb a.1.2 b.1.2
  end.

Definition named {A} (nameOf : A -> option string) (docs : gmap string A)
    : list (string * string * A) :=
  merge_sort (fun a b => Is_true (byName a b))
    (omap (fun kv : string * A =>
             match nameOf kv.2 with
             | Some n => Some (n, kv.1, kv.2)
             | None => None
             end) (map_to_list docs)).

(** [categoryLookup]: the name of each category that has one, or
    ["Uncategorized"] when that name is empty. *)
Definition categoryLookup (s : StockStore) (categoryId : option string) : option string :=
  match categoryId with
  | Some c =>
      match stockCategories s !! c with
      | Some (Some n) => Some (orElse (Some n) "Uncategorized")
      | _ => None
      end
  | None => None
  end.

Definition stockRow (s : StockStore) (id : string) (data : StockDoc) : StockRow :=
  {| rowId := id;
     rowName := orElse (itemName (stockFields data)) "Unnamed";
     rowCategory := orElse (categoryLookup s (stockCategoryId data))
                      (orElse (stockCategory data) "");
     rowSubCategory := orElse (stockSubCategory data) "";
     rowQuantity := toNumber Qzero (quantity (stockFields data));
     rowThreshold := toNumber Qzero (threshold (stockFields data));
     rowNotes := orElse (stockNotes data) "" |}.

Definition loadStockData (s : StockStore) : list StockRow :=
  (fun d : string * string * StockDoc => stockRow s d.1.2 d.2)
    <$> named (fun data => itemName (stockFields data)) (stockItems s).

(** [item.threshold > 0 && item.quantity <= item.threshold]. *)
Definition isLow (item : StockRow) : bool :=
  gtr (rowThreshold item) Qzero && leq (rowQuantity item) (rowThreshold item).

Definition lowStock (items : list StockRow) : list StockRow := List.filter isLow items.

(** The items [buildStockSummaryHtml] lists. *)
Definition listed (items : list StockRow) (includeAll : bool) : list StockRow :=
  if includeAll then items else lowStock items.

(** ** Order-created notifications (lines 344-439 and 875-897)

    The bodies of the further messages are rendered from the values
    below by pure templates, which format money amounts; the rendering is
    a parameter of the handlers. *)
Inductive Template :=
| OrderCreatedCustomer (order : Order) (collectionName : string)
| OrderCreatedAdmin (order : Order) (collectionName orderId : string)
| LegacyCorrection (subject message customerName orderNumber : string)
| TestMessage (subject rawHtml : string)
| StockSummary (title : string) (items : list StockRow) (includeAll : bool).

Section Rendered.

Variable render : Template -> string.

Definition orderTypeLabel (collectionName : string) : string :=
  if String.eqb collectionName "livestockOrders" then "livestock" else "egg".

Definition orderCreatedCustomerEmail (order : Order) (collectionName : string) : Email :=
  {| to := [default "" (email order)];
     subject := "Your order" ++ orderNumberLabelOf order ++ " with The Crooked Fence";
     html := RawHtml (render (OrderCreatedCustomer order collectionName)) |}.

Definition orderCreatedAdminEmail (env : Env) (order : Order)
    (collectionName orderId : string) : Email :=
  {| to := getAdminRecipients env;
     subject := "New " ++ orderTypeLabel collectionName ++ " order" ++ orderNumberLabelOf order;
     html := RawHtml (render (OrderCreatedAdmin order collectionName orderId)) |}.

(** [order] is the created document with its number and [orderId] its
    id. *)
Definition sendOrderCreatedEmails (env : Env) (order : Order)
    (orderId collectionName : string) : M unit :=
  let adminRecipients := getAdminRecipients env in
  when (truthyField (email order))
    (sendEmail env (orderCreatedCustomerEmail order collectionName));;
  when (0 <? length adminRecipients)%nat
    (sendEmail env (orderCreatedAdminEmail env order collectionName orderId)).

(** The [onCreate] trigger of a collection; [emailOnOrderCreate] and
    [emailOnLivestockOrderCreate] are its two instances. [order] is the
    snapshot of the created document. *)
Definition onOrderCreate (collectionName : string) (env : Env) (orderId : string)
    (order : Order) : M unit :=
  orderNumber ← ensureOrderNumber collectionName (collectionName, orderId) order;
  sendOrderCreatedEmails env (withOrderNumber order (Some orderNumber)) orderId collectionName.

Definition emailOnOrderCreate : Env -> string -> Order -> M unit :=
  onOrderCreate "eggOrders".

Definition emailOnLivestockOrderCreate : Env -> string -> Order -> M unit :=
  onOrderCreate "livestockOrders".

(** The messages the creation of an order is expected to produce. *)
Definition createdEmails (env : Env) (order : Order) (orderId collectionName : string)
    : list Email :=
  ((if truthyField (email order)
    then [orderCreatedCustomerEmail order collectionName] else [])
   ++ (if (0 <? length (getAdminRecipients env))%nat
       then [orderCreatedAdminEmail env order collectionName orderId] else []))%list.

End Rendered.

(** The provider accepts every message. *)
Definition accepting (env : Env) : Prop :=
  is_Some (getResendClient env) /\ forall message, exists id, transport env message = Response id.

(** ** Handlers that never write

    [m] leaves the store as it was, whether it returns or throws. *)
Definition neverWrites {A} (m : M A) : Prop := forall w, db (m w).2 = db w.

(** ** The correction mailing (lines 1082-1119) *)

(** [data.orderIds] is the list of ids when it is an array and the empty
    list otherwise; the ids are document ids. *)
Record LegacyRequest := {
  legCollectionName : option string;
  legOrderIds : list string;
  legSubject : option string;
  legMessage : option string
}.

Record LegacyResult := {
  resultId : string;
  resultEmail : string;
  resultMessageId : option string
}.

(** [result?.data?.id || null]. *)
Definition messageIdOf (result : option (option string)) : option string :=
  match result with
  | Some (Some id) => if truthy id then Some id else None
  | _ => None
  end.

Section Mailing.

Variable render : Template -> string.

(** The message of one order; the name is composed as in
    [getCustomerName]. *)
Definition legacyCorrectionEmail (subject message : string) (order : Order) : Email :=
  {| to := [default "" (email order)];
     subject := subject;
     html := RawHtml (render (LegacyCorrection subject message (getCustomerName order)
                                (orElse (orderNumber order) ""))) |}.

(** The loop [for (const orderId of orderIds)]; [results] is the array
    filled so far. *)
Fixpoint legacyLoop (env : Env) (collectionName subject message : string)
    (orderIds : list string) (results : list LegacyResult) : M (list LegacyResult) :=
  match orderIds with
  | [] => mret results
  | orderId :: rest =>
      snap ← docGet collectionName orderId;
      match snap with
      | None => legacyLoop env collectionName subject message rest results
      | Some order =>
          if negb (truthyField (email order))
          then legacyLoop env collectionName subject message rest results
          else
            result ← sendEmail env (legacyCorrectionEmail subject message order);
            legacyLoop env collectionName subject message rest
              (results ++ [{| resultId := orderId;
                              resultEmail := default "" (email order);
                              resultMessageId := messageIdOf result |}])
      end
  end.

(** The result is the pair of [sent] and [results]. *)
Definition sendLegacyCorrectionEmails (env : Env) (data : LegacyRequest)
    (context : CallContext) : M (nat * list LegacyResult) :=
  requireAdmin context;;
  let collectionName := orElse (legCollectionName data) "eggOrders" in
  let orderIds := legOrderIds data in
  if (length orderIds =? 0)%nat
  then throw (HttpsError invalid_argument "Order ids are required.")
  else
    let subject := orElse (legSubject data) "Order update from The Crooked Fence" in
    let message := orElse (legMessage data) "Please note an update to your order." in
    results ← legacyLoop env collectionName subject message orderIds [];
    mret (length results, results).

(** *** The mailing, order by order

    The order an id stands for when it is to be mailed: the document
    exists and has an email address. *)
Definition legacyTarget (d : Db) (collectionName orderId : string) : option Order :=
  match orders d !! (collectionName, orderId) with
  | Some order => if truthyField (email order) then Some order else None
  | None => None
  end.

Definition legacyOps (d : Db) (collectionName subject message : string)
    (orderIds : list string) : list Op :=
  flat_map (fun orderId =>
              DocGet collectionName orderId ::
              match legacyTarget d collectionName orderId with
              | Some order => [TransportSend (legacyCorrectionEmail subject message order)]
              | None => []
              end) orderIds.

Definition legacyResults (env : Env) (d : Db) (collectionName subject message : string)
    (orderIds : list string) : list LegacyResult :=
  omap (fun orderId =>
          match legacyTarget d collectionName orderId with
          | Some order =>
              Some {| resultId := orderId;
                      resultEmail := default "" (email order);
                      resultMessageId :=
                        match transport env (legacyCorrectionEmail subject message order) with
                        | Response id => messageIdOf (Some id)
                        | Rejected _ => None
                        end |}
          | None => None
          end) orderIds.

End Mailing.

(** ** Stock summaries (lines 581-599 and 974-1011)

    The stock collections are read and never written here; they are an
    argument of the handlers. *)
Section Summaries.

Variable render : Template -> string.

Definition stockSummaryEmail (env : Env) (s : StockStore) (title : string)
    (includeAll : bool) : Email :=
  {| to := getAdminRecipients env;
     subject := title;
     html := RawHtml (render (StockSummary title (loadStockData s) includeAll)) |}.

Definition sendStockSummaryEmail (env : Env) (s : StockStore) (title : string)
    (includeAll : bool) : M (option (option string)) :=
  let adminRecipients := getAdminRecipients env in
  if (length adminRecipients =? 0)%nat then mret None
  else sendEmail env (stockSummaryEmail env s title includeAll).

Definition stockMorningSummary (env : Env) (s : StockStore) : M (option (option string)) :=
  sendStockSummaryEmail env s "Morning stock summary" false.

Definition stockEveningSummary (env : Env) (s : StockStore) : M (option (option string)) :=
  sendStockSummaryEmail env s "Evening stock summary" false.

Definition stockDailyFullSummary (env : Env) (s : StockStore) : M (option (option string)) :=
  sendStockSummaryEmail env s "Daily stock summary" true.

Definition sendStockTestEmail (env : Env) (s : StockStore) (context : CallContext)
    : M (option string) :=
  requireAdmin context;;
  result ← sendStockSummaryEmail env s "Stock summary test" true;
  mret (messageIdOf result).

End Summaries.

(** ** The test message (lines 854-873) *)

(** [data.to] is an array, or a single value that may be missing. *)
Record TestRequest := {
  testTo : list string + option string;
  testSubject : option string;
  testHtml : option string;
  testUseRawHtml : bool
}.

Section TestMessages.

Variable render : Template -> string.

Definition testEmail (data : TestRequest) : Email :=
  let subject := orElse (testSubject data) "The Crooked Fence test email" in
  let rawHtml := orElse (testHtml data) "<p>It works!</p>" in
  {| to := match testTo data with
           | inl recipients => recipients
           | inr single => [orElse single ""]
           end;
     subject := subject;
     html := if testUseRawHtml data then RawHtml rawHtml
             else RawHtml (render (TestMessage subject rawHtml)) |}.

Definition sendTestEmail (env : Env) (data : TestRequest) (context : CallContext)
    : M (option string) :=
  requireAdmin context;;
  result ← sendEmail env (testEmail data);
  mret (messageIdOf result).

End TestMessages.

(** ** Deleting a category (lines 756-776) *)

(** [where("categoryId", "==", categoryId)]. *)
Definition inCategory (categoryId : string) (data : StockDoc) : bool :=
  bool_decide (stockCategoryId data = Some categoryId).

Definition itemsQuery (categoryId : string) (s : StockStore) : list (string * StockDoc) :=
  List.filter (fun kv : string * StockDoc => inCategory categoryId kv.2)
    (map_to_list (stockItems s)).

(** The batch: one delete per item of the query and one for the
    category, committed together. *)
Definition commitDeletes (categoryId : string) (found : list (string * StockDoc))
    (s : StockStore) : StockStore :=
  {| stockItems := foldr (fun kv items => delete kv.1 items) (stockItems s) found;
     stockCategories := delete categoryId (stockCategories s) |}.

(** [categoryId] is [data.categoryId], [data] being an object; the
    result is [deletedItems]. *)
Definition deleteCategoryWithItems (categoryId : option string) (context : CallContext)
    (s : StockStore) : Outcome nat * StockStore :=
  let role := getRoleFromContext context in
  if bool_decide (role ≠ Some "admin") && bool_decide (role ≠ Some "super_admin")
  then (Throw (HttpsError permission_denied "Admin access required."), s)
  else
    let categoryId := trim (orElse categoryId "") in
    if negb (truthy categoryId)
    then (Throw (HttpsError invalid_argument "Category id is required."), s)
    else
      let found := itemsQuery categoryId s in
      (Ok (length found), commitDeletes categoryId found s).

(** ** Writing in batches (lines 1013-1024) *)

(** The loop [for (let i = 0; i < docs.length; i += size)], entered at
    [i]; it makes at most one iteration per document left. *)
Fixpoint chunksFrom {A} (fuel i size : nat) (docs : list A) : list (list A) :=
  match fuel with
  | O => []
  | S f =>
      if (i <? length docs)%nat
      then take size (drop i docs) :: chunksFrom f (i + size) size docs
      else []
  end.

Definition chunksOf {A} (size : nat) (docs : list A) : list (list A) :=
  chunksFrom (length docs) 0 size docs.

(** The batches, in the order in which they are committed; [handler]
    gives the write of a document (its caller, [syncAuthUsers], writes
    one document per user). *)
Definition chunkedWrite {A B} (docs : list A) (handler : A -> B) : list (list B) :=
  (fun chunk : list A => handler <$> chunk) <$> chunksOf 400 docs.

(** ** The profile of the caller (lines 601-633)

    A document of [users], without its time stamps. *)




(** ** The order form (lines 38-44, 170-173, 220-240 and 294-321 of the
    form) *)

Record CatalogItem := {
  catalogId : string;
  catalogLabel : string
}.

(** The quantities entered are kept by item id.
    [existing[item.id] ?? 0], and the test [... > 0]. The ids are the
    document ids of the catalogue, taken not to name a member that every
    object inherits ([constructor], [toString], ...): for such an id the
    lookup gives that member, which is no quantity. *)
Definition quantityOf (quantities : gmap string (number Q)) (item : CatalogItem) : number Q :=
  default (Finite Qzero) (quantities !! catalogId item).

Definition aboveZero (q : number Q) : bool :=
  match q with
  | Finite x => gtr x Qzero
  | PosInfinity => true
  | NaN | NegInfinity => false
  end.

Definition toQuantityMap (items : list CatalogItem) (existing : gmap string (number Q))
    : gmap string (number Q) :=
  foldl (fun map item => <[catalogId item := quantityOf existing item]> map) ∅ items.

Definition selectedItems (items : list CatalogItem) (quantities : gmap string (number Q))
    : list CatalogItem :=
  List.filter (fun item => aboveZero (quantityOf quantities item)) items.

Record FormState := {
  formName : string;
  formSurname : string;
  formEmail : string;
  formCountryCode : string;
  formCellphone : string;
  formAddress : string;
  formDeliveryOption : string;
  formOtherDelivery : string;
  formSendDate : string;
  formNotes : string
}.

(** The message shown, or the empty string when the form may be
    submitted. *)
Definition validate (itemLabel : string) (form : FormState) (selected : list CatalogItem)
    : string :=
  if negb (truthy (trim (formName form)))
     || negb (truthy (trim (formSurname form)))
     || negb (truthy (trim (formEmail form)))
     || negb (truthy (trim (formCountryCode form)))
     || negb (truthy (trim (formCellphone form)))
     || negb (truthy (trim (formAddress form)))
     || negb (truthy (formDeliveryOption form))
     || negb (truthy (formSendDate form))
  then "Please fill in all required fields."
  else if String.eqb (formDeliveryOption form) "other"
          && negb (truthy (trim (formOtherDelivery form)))
  then "Please specify your other delivery option."
  else if (length selected =? 0)%nat
  then "Please order at least one " ++ itemLabel ++ " (quantities above 0)."
  else "".

(** The fields of the payload of [submitOrder] that the functions read;
    [deliveryOptions] gives the label of each option id. *)
Definition payloadOrder (form : FormState) (deliveryOptions : list (string * string)) : Order :=
  {| orderNumber := None;
     orderStatus := Some "pending";
     email := Some (trim (formEmail form));
     sendDate := Some (formSendDate form);
     name := Some (trim (formName form));
     surname := Some (trim (formSurname form));
     deliveryOption :=
       Some (if String.eqb (formDeliveryOption form) "other"
             then "Other: " ++ trim (formOtherDelivery form)
             else default "" (lookupLabel deliveryOptions (formDeliveryOption form)));
     trackingLink := Some "";
     dispatchEmailSentAt := false |}.

(** *** Further sample data *)

Definition plainRender (t : Template) : string := "<html></html>".

(** An order as the form creates it: an email address, no number. *)
Definition newOrder : Order := withOrderNumber pendingOrder None.

(** A caller without role claim whose email is a bootstrap admin. *)
Definition admin : CallContext :=
  {| tokenEmail := Some "Admin@TheCrookedFence.co.za"; tokenRole := None |}.

(** A mailing that names an order twice and an order that is gone. *)
Definition correctionOf (ids : list string) : LegacyRequest :=
  {| legCollectionName := None; legOrderIds := ids; legSubject := None;
     legMessage := Some "Your parcel leaves on Monday." |}.

(** A stream whose two orders carry numbers of the pad width, and no
    counter. *)
Definition legacyStream : Db :=
  {| orderCounters := ∅;
     orders := {[ ("eggOrders", "a") := numbered "#0041";
                  ("eggOrders", "b") := numbered "#0007" ]} |}.

(** Three stock items, two of them filed under the category [feed]. *)
Definition stockDocOf (itemName : string) (qty thr : Z) (categoryId : option string) : StockDoc :=
  {| stockFields := {| itemName := Some itemName;
                       quantity := Some (Finite (QArith_base.inject_Z qty));
                       threshold := Some (Finite (QArith_base.inject_Z thr)) |};
     stockCategoryId := categoryId; stockCategory := None; stockSubCategory := None;
     stockNotes := None |}.

Definition sampleStock : StockStore :=
  {| stockItems := {[ "i1" := stockDocOf "Layer feed" 3 5 (Some "feed");
                      "i2" := stockDocOf "Egg trays" 40 10 (Some "packaging");
                      "i3" := stockDocOf "Chick crumbs" 9 2 (Some "feed") ]};
     stockCategories := {[ "feed" := Some "Feed"; "packaging" := Some "Packaging" ]} |}.

(** A stock item without [name] field, low on first sight. *)
Definition namelessDoc : StockDoc :=
  {| stockFields := {| itemName := None;
                       quantity := Some (Finite (QArith_base.inject_Z 1));
                       threshold := Some (Finite (QArith_base.inject_Z 5)) |};
     stockCategoryId := None; stockCategory := None; stockSubCategory := None;
     stockNotes := None |}.

Definition namelessStock : StockStore :=
  {| stockItems := {[ "i9" := namelessDoc ]}; stockCategories := ∅ |}.

(** A form filled in, with padding around the email address. *)
Definition filledForm : FormState :=
  {| formName := "Ann"; formSurname := "Lee"; formEmail := " ann@example.com ";
     formCountryCode := "+27"; formCellphone := "82 555 0100"; formAddress := "1 Farm Rd";
     formDeliveryOption := "courier"; formOtherDelivery := ""; formSendDate := "2026-03-02";
     formNotes := "" |}.

(** A provider whose call throws for the messages to one address and
    answers for the others. *)
Definition faulty (message : Email) : SendResult :=
  if bool_decide (to message = ["customer@example.com"])
  then Rejected "socket hang up"
  else Response (Some "msg-2").

Definition faultyEnv : Env :=
  {| env_RESEND_API_KEY := Some "re_key"; config_resend_api_key := None;
     env_ADMIN_EMAIL := Some "farm@example.com"; config_admin_email := None;
     transport := faulty |}.

(** A provider that answers every call with an error in its response:
    nothing is thrown, and the answer carries no message id. *)
Definition declining (message : Email) : SendResult := Response None.

Definition decliningEnv : Env :=
  {| env_RESEND_API_KEY := Some "re_key"; config_resend_api_key := None;
     env_ADMIN_EMAIL := Some "farm@example.com"; config_admin_email := None;
     transport := declining |}.

(** * Properties *)

(** ** Truthiness *)

Lemma truthy_nonempty (s : string) : s <> "" -> truthy s = true.
Proof. destruct s; [congruence | reflexivity]. Qed.

Lemma truthy_true (s : string) : truthy s = true -> s <> "".
Proof. destruct s; [discriminate | discriminate]. Qed.

(** ** Formatting and parsing order numbers *)

Section Digits.

Lemma digitChar_isDigit (d : N) : (d < 10)%N -> isDigit (digitChar d) = true.
Proof.
  intros H.
  assert (Hd : In d [0; 1; 2; 3; 4; 5; 6; 7; 8; 9]%N).
  { destruct d as [|p]; [now left|].
    do 10 (destruct p as [p|p|]; try lia; simpl; auto 11). }
  simpl in Hd. intuition (subst; reflexivity).
Qed.

Lemma digitValue_digitChar (d : N) : (d < 10)%N -> digitValue (digitChar d) = Z.of_N d.
Proof.
  intros H. unfold digitValue, digitChar, code.
  rewrite N_ascii_embedding by lia. lia.
Qed.

Lemma toDigits_allDigits fuel : forall n acc,
  allDigits acc = true -> allDigits (toDigits fuel n acc) = true.
Proof.
  induction fuel as [|f IH]; intros n acc Hacc; simpl.
  - rewrite digitChar_isDigit by (apply N.mod_lt; lia). exact Hacc.
  - destruct (n / 10 =? 0)%N.
    + simpl. rewrite digitChar_isDigit by (apply N.mod_lt; lia). exact Hacc.
    + apply IH. simpl. rewrite digitChar_isDigit by (apply N.mod_lt; lia). exact Hacc.
Qed.

Lemma toDigits_nonempty fuel : forall n acc, toDigits fuel n acc <> "".
Proof.
  induction fuel as [|f IH]; intros n acc; simpl; [discriminate|].
  destruct (n / 10 =? 0)%N; [discriminate | apply IH].
Qed.

Lemma numberOfDigits_units (a : Z) (n : N) (acc : string) :
  numberOfDigits a (String (digitChar (n mod 10)) acc)
  = numberOfDigits (10 * a + Z.of_N (n mod 10)) acc.
Proof.
  simpl. rewrite digitValue_digitChar by (apply N.mod_lt; lia). reflexivity.
Qed.

(** Reading back the digits of [n] in front of [acc] is reading [acc]
    from [n], as soon as the fuel covers the digits of [n]. *)
Lemma numberOfDigits_toDigits fuel : forall n acc,
  (n < 10 ^ N.of_nat (S fuel))%N ->
  numberOfDigits 0 (toDigits fuel n acc) = numberOfDigits (Z.of_N n) acc.
Proof.
  induction fuel as [|f IH]; intros n acc Hn.
  - cbn [toDigits]. rewrite numberOfDigits_units.
    change (10 ^ N.of_nat 1)%N with 10%N in Hn.
    rewrite N.mod_small by lia. f_equal.
  - cbn [toDigits]. destruct (n / 10 =? 0)%N eqn:Hq.
    + apply N.eqb_eq in Hq. rewrite numberOfDigits_units.
      assert (n < 10)%N by (apply N.div_small_iff in Hq; lia).
      rewrite N.mod_small by lia. f_equal.
    + rewrite IH.
      * rewrite numberOfDigits_units. f_equal.
        rewrite <- N2Z.inj_mul with (n := 10%N), <- N2Z.inj_add.
        f_equal. symmetry. apply N.div_mod. lia.
      * apply N.Div0.div_lt_upper_bound.
        rewrite Nat2N.inj_succ, N.pow_succ_r' in Hn. exact Hn.
Qed.

Lemma fuel_covers (n : N) : (n < 10 ^ N.of_nat (S (N.to_nat (N.log2 n))))%N.
Proof.
  rewrite Nat2N.inj_succ, N2Nat.id.
  destruct n as [|p]; [reflexivity|].
  apply N.lt_le_trans with (2 ^ N.succ (N.log2 (N.pos p)))%N.
  - apply N.log2_spec. lia.
  - apply N.pow_le_mono_l. lia.
Qed.

Lemma numberOfDigits_stringOfN (n : N) : numberOfDigits 0 (stringOfN n) = Z.of_N n.
Proof. unfold stringOfN. rewrite numberOfDigits_toDigits by apply fuel_covers. reflexivity. Qed.

Lemma allDigits_stringOfN (n : N) : allDigits (stringOfN n) = true.
Proof. apply toDigits_allDigits. reflexivity. Qed.

Lemma allDigits_app (s t : string) :
  allDigits (s ++ t) = allDigits s && allDigits t.
Proof. induction s as [|c s IH]; simpl; [reflexivity|]. rewrite IH, andb_assoc. reflexivity. Qed.

Lemma allDigits_zeros (k : nat) : allDigits (repeatChar k "0") = true.
Proof. induction k; simpl; auto. Qed.

Lemma numberOfDigits_zeros (k : nat) (s : string) :
  numberOfDigits 0 (repeatChar k "0" ++ s) = numberOfDigits 0 s.
Proof. induction k; simpl; auto. Qed.

Lemma takeDigits_all (s : string) : allDigits s = true -> takeDigits s = s.
Proof.
  induction s as [|c s IH]; simpl; [reflexivity|].
  intros [Hc Hs]%andb_prop. rewrite Hc, IH by assumption. reflexivity.
Qed.

Lemma matchDigits_all (s : string) :
  allDigits s = true -> s <> "" -> matchDigits s = Some s.
Proof.
  destruct s as [|c s]; [congruence|]. intros Hs _.
  pose proof (takeDigits_all _ Hs) as Ht.
  cbn [allDigits] in Hs. apply andb_prop in Hs as [Hc _].
  cbn [matchDigits]. rewrite Hc, Ht. reflexivity.
Qed.

End Digits.

Lemma padded_nonempty (k : nat) (s : string) : s <> "" -> repeatChar k "0" ++ s <> "".
Proof. intros Hs. destruct k; [exact Hs | discriminate]. Qed.

(** *** Doubles up to 2^53 *)

Lemma safe_bounds : 0 < 2 ^ 53 /\ 2 ^ 53 < 2 ^ 1024.
Proof. split; reflexivity. Qed.

Lemma roundMagnitude_exact (m : Z) : m <= 2 ^ 53 -> roundMagnitude m = m.
Proof.
  intros H. unfold roundMagnitude.
  destruct (Z.leb_spec m (2 ^ 53)); [reflexivity | lia].
Qed.

(** Beyond 2^53 the nearest double is 2^53 at least. *)
Lemma roundMagnitude_large (m : Z) : 2 ^ 53 < m -> 2 ^ 53 <= roundMagnitude m.
Proof.
  intros H. unfold roundMagnitude.
  destruct (Z.leb_spec m (2 ^ 53)) as [Hle|_]; [lia|].
  assert (Hpos : 0 < m) by (pose proof safe_bounds; lia).
  destruct (Z.log2_spec m Hpos) as [Hlo Hhi].
  assert (Hk : 53 <= Z.log2 m).
  { apply Z.log2_le_pow2; [exact Hpos | lia]. }
  set (k := Z.log2 m) in *.
  set (u := 2 ^ (k - 52)).
  assert (Hu : 2 <= u).
  { subst u. change 2 with (2 ^ 1) at 1. apply Z.pow_le_mono_r; lia. }
  assert (Hsplit : 2 ^ k = 2 ^ 52 * u).
  { subst u. rewrite <- Z.pow_add_r by lia. f_equal. lia. }
  assert (Hq : 2 ^ 52 <= m / u).
  { apply Z.div_le_lower_bound; [lia|]. rewrite Z.mul_comm, <- Hsplit. exact Hlo. }
  assert (H53 : 2 ^ 53 = 2 ^ 52 * 2) by reflexivity.
  assert (Hbase : 2 ^ 53 <= m / u * u).
  { rewrite H53. apply Z.mul_le_mono_nonneg; lia. }
  assert (Hnext : m / u * u <= (m / u + 1) * u) by lia.
  destruct (2 * (m mod u) <? u)%Z; [exact Hbase|].
  destruct (u <? 2 * (m mod u))%Z; [lia|].
  destruct (Z.even (m / u)); lia.
Qed.

Lemma roundToDouble_exact (z : Z) :
  - 2 ^ 53 <= z <= 2 ^ 53 -> roundToDouble z = Finite z.
Proof.
  intros H. pose proof safe_bounds as [_ Hmax]. unfold roundToDouble.
  rewrite roundMagnitude_exact by lia.
  destruct (Z.leb_spec (2 ^ 1024) (Z.abs z)); [lia|].
  f_equal. destruct z; cbn; lia.
Qed.

(** A finite result strictly inside the range was not rounded. *)
Lemma roundToDouble_safe (z n : Z) :
  roundToDouble z = Finite n -> - 2 ^ 53 < n < 2 ^ 53 -> z = n.
Proof.
  intros Hr Hn.
  destruct (Z_le_gt_dec (Z.abs z) (2 ^ 53)) as [Hle | Hgt].
  - rewrite roundToDouble_exact in Hr by lia. congruence.
  - exfalso. unfold roundToDouble in Hr.
    pose proof (roundMagnitude_large (Z.abs z) ltac:(lia)) as Hm.
    destruct (2 ^ 1024 <=? roundMagnitude (Z.abs z))%Z.
    + destruct (z <? 0)%Z; discriminate.
    + injection Hr as Hr. destruct z; cbn in Hr; lia.
Qed.

Lemma plusOne_exact (n : Z) :
  - 2 ^ 53 <= n < 2 ^ 53 -> plusOne (Finite n) = Finite (n + 1).
Proof. intros H. apply roundToDouble_exact. lia. Qed.


Lemma stringOfNumber_of_N (n : N) :
  (n <= 2 ^ 53)%N -> stringOfNumber (Z.of_N n) = stringOfN n.
Proof.
  intros Hn.
  assert (H : stringOfMagnitude n = stringOfN n).
  { unfold stringOfMagnitude. destruct (N.leb_spec n (2 ^ 53)); [reflexivity | lia]. }
  destruct n; [reflexivity | exact H].
Qed.

Lemma parse_format (n : N) :
  (n <= 2 ^ 53)%N ->
  parseOrderNumber (formatOrderNumber (Finite (Z.of_N n))) = Finite (Z.of_N n).
Proof.
  intros Hn. unfold parseOrderNumber, formatOrderNumber, padStart, stringOf.
  rewrite stringOfNumber_of_N by exact Hn. cbn [truthy negb matchDigits].
  change (isDigit "#") with false. cbv iota.
  rewrite matchDigits_all.
  - unfold numberOfString. rewrite numberOfDigits_zeros, numberOfDigits_stringOfN.
    apply roundToDouble_exact.
    pose proof safe_bounds. change (2 ^ 53)%N with (Z.to_N (2 ^ 53)) in Hn. lia.
  - rewrite allDigits_app, allDigits_zeros, allDigits_stringOfN. reflexivity.
  - apply padded_nonempty, toDigits_nonempty.
Qed.

(** *** Doubles below 10^21 *)

Lemma numberOfDigits_app (acc : Z) (s t : string) :
  numberOfDigits acc (s ++ t) = numberOfDigits (numberOfDigits acc s) t.
Proof. revert acc. induction s as [|c s IH]; intros acc; simpl; [reflexivity | apply IH]. Qed.

Lemma numberOfDigits_trailing_zeros (k : nat) (acc : Z) :
  numberOfDigits acc (repeatChar k "0") = acc * 10 ^ Z.of_nat k.
Proof.
  revert acc. induction k as [|k IH]; intros acc.
  - cbn [repeatChar numberOfDigits]. change (10 ^ Z.of_nat 0) with 1. lia.
  - cbn [repeatChar numberOfDigits]. rewrite IH.
    change (digitValue "0") with 0. rewrite Nat2Z.inj_succ, Z.pow_succ_r by lia. lia.
Qed.

Lemma toDigits_length fuel : forall (n : N) (acc : string) (width : nat),
  (1 <= width)%nat -> (n < 10 ^ N.of_nat width)%N ->
  (String.length (toDigits fuel n acc) <= String.length acc + width)%nat.
Proof.
  induction fuel as [|f IH]; intros n acc width Hw Hn; cbn [toDigits].
  - cbn [String.length]. lia.
  - destruct (n / 10 =? 0)%N eqn:Hq; [cbn [String.length]; lia|].
    apply N.eqb_neq in Hq.
    assert (Hten : (10 <= n)%N).
    { destruct (N.lt_ge_cases n 10) as [Hlt|Hge]; [|exact Hge].
      apply N.div_small in Hlt. congruence. }
    destruct width as [|[|width]]; [lia | change (10 ^ N.of_nat 1)%N with 10%N in Hn; lia |].
    etransitivity.
    + apply (IH (n / 10)%N _ (S width)); [lia|].
      apply N.Div0.div_lt_upper_bound.
      rewrite (Nat2N.inj_succ (S width)), N.pow_succ_r' in Hn. exact Hn.
    + cbn [String.length]. lia.
Qed.

Lemma stringOfN_length (n : N) (width : nat) :
  (1 <= width)%nat -> (n < 10 ^ N.of_nat width)%N ->
  (String.length (stringOfN n) <= width)%nat.
Proof. intros Hw Hn. apply (toDigits_length _ n "" width Hw Hn). Qed.

(** From 10^21 on the nearest double is 10^21 at least: 10^21 is a
    double. *)
Lemma roundMagnitude_wide (m : Z) : 10 ^ 21 <= m -> 10 ^ 21 <= roundMagnitude m.
Proof.
  intros H. unfold roundMagnitude.
  assert (H21 : 2 ^ 69 < 10 ^ 21 /\ 10 ^ 21 < 2 ^ 70 /\ 2 ^ 53 < 10 ^ 21) by (repeat split).
  destruct (Z.leb_spec m (2 ^ 53)) as [Hle|_]; [lia|].
  assert (Hpos : 0 < m) by lia.
  destruct (Z.log2_spec m Hpos) as [Hlo Hhi].
  assert (Hk : 69 <= Z.log2 m).
  { apply Z.log2_le_pow2; [exact Hpos | lia]. }
  set (k := Z.log2 m) in *.
  set (u := 2 ^ (k - 52)).
  assert (Hu : 0 < u) by (subst u; apply Z.pow_pos_nonneg; lia).
  assert (Hbase : 10 ^ 21 <= m / u * u).
  { destruct (Z.eq_dec k 69) as [Hk69|Hne].
    - assert (Hu17 : u = 2 ^ 17) by (subst u; rewrite Hk69; reflexivity).
      assert (Hc : 10 ^ 21 = 7629394531250000 * 2 ^ 17) by reflexivity.
      rewrite Hu17 in *. rewrite Hc.
      apply Z.mul_le_mono_nonneg_r; [lia|].
      apply Z.div_le_lower_bound; [lia|]. lia.
    - assert (Hsplit : 2 ^ k = 2 ^ 52 * u).
      { subst u. rewrite <- Z.pow_add_r by lia. f_equal. lia. }
      assert (Hq : 2 ^ 52 <= m / u).
      { apply Z.div_le_lower_bound; [lia|]. rewrite Z.mul_comm, <- Hsplit. exact Hlo. }
      assert (H70 : 2 ^ 70 <= 2 ^ k) by (apply Z.pow_le_mono_r; lia).
      assert (Hprod : 2 ^ 52 * u <= m / u * u) by (apply Z.mul_le_mono_nonneg_r; lia).
      lia. }
  assert (Hnext : m / u * u <= (m / u + 1) * u) by lia.
  destruct (2 * (m mod u) <? u)%Z; [exact Hbase|].
  destruct (u <? 2 * (m mod u))%Z; [lia|].
  destruct (Z.even (m / u)); lia.
Qed.

Lemma roundsTo_spec (v m : Z) : roundsTo v m = true <-> roundToDouble v = Finite m.
Proof.
  unfold roundsTo. destruct (roundToDouble v) as [x| | |].
  - rewrite Z.eqb_eq. split; congruence.
  - split; discriminate.
  - split; discriminate.
  - split; discriminate.
Qed.

Lemma roundToDouble_below (v m : Z) :
  roundToDouble v = Finite m -> m < 10 ^ 21 -> v < 10 ^ 21.
Proof.
  intros Hr Hm. destruct (Z.lt_ge_cases v (10 ^ 21)) as [Hlt|Hge]; [exact Hlt|].
  exfalso. pose proof (roundMagnitude_wide v Hge) as Hw.
  assert (Hpos : 0 < 10 ^ 21) by reflexivity.
  unfold roundToDouble in Hr. rewrite Z.abs_eq in Hr by lia.
  destruct (2 ^ 1024 <=? roundMagnitude v)%Z.
  - destruct (v <? 0)%Z; discriminate.
  - rewrite Z.sgn_pos in Hr by lia. injection Hr as Hr. lia.
Qed.

(** Whatever digits [shortestFrom] settles on, they read back as the
    number they were made from. *)
Lemma shortestFrom_reads_back (fuel : nat) : forall k d m s e,
  0 <= m -> roundToDouble m = Finite m ->
  shortestFrom fuel k d m = (s, e) ->
  roundToDouble (s * 10 ^ e) = Finite m /\ 0 <= e /\ 0 <= s.
Proof.
  assert (Hself : forall m s e, 0 <= m -> roundToDouble m = Finite m -> (m, 0) = (s, e) ->
                    roundToDouble (s * 10 ^ e) = Finite m /\ 0 <= e /\ 0 <= s).
  { intros m s e Hm Hd [= <- <-]. rewrite Z.pow_0_r, Z.mul_1_r. auto with zarith. }
  induction fuel as [|f IH]; intros k d m s e Hm Hd; cbn [shortestFrom]; [apply Hself; assumption|].
  destruct (Z.ltb_spec (d - k) 0) as [Hneg|He]; [apply Hself; assumption|].
  assert (Hp : 0 < 10 ^ (d - k)) by (apply Z.pow_pos_nonneg; lia).
  assert (Hlo : 0 <= m / 10 ^ (d - k)) by (apply Z.div_pos; lia).
  destruct (roundsTo (m / 10 ^ (d - k) * 10 ^ (d - k)) m) eqn:Elo;
    destruct (roundsTo ((m / 10 ^ (d - k) + 1) * 10 ^ (d - k)) m) eqn:Ehi;
    cbn [andb].
  - apply roundsTo_spec in Elo, Ehi.
    destruct (_ <? _)%Z; [intros [= <- <-]; auto with zarith|].
    destruct (_ <? _)%Z; [intros [= <- <-]; split; [exact Ehi | lia]|].
    destruct (Z.even _); intros [= <- <-]; split; try assumption; lia.
  - apply roundsTo_spec in Elo. intros [= <- <-]. auto with zarith.
  - apply roundsTo_spec in Ehi. intros [= <- <-]. split; [exact Ehi | lia].
  - apply IH; assumption.
Qed.

Lemma shortestString_plain (n : N) :
  roundToDouble (Z.of_N n) = Finite (Z.of_N n) -> (0 < n < 10 ^ 21)%N ->
  exists s e,
    shortestString n = stringOfN (Z.to_N s) ++ repeatChar (Z.to_nat e) "0"
    /\ 0 <= s /\ 0 <= e
    /\ roundToDouble (s * 10 ^ e) = Finite (Z.of_N n).
Proof.
  intros Hd [Hpos Hn]. unfold shortestString.
  destruct (shortestFrom 17 1 _ (Z.of_N n)) as [s e] eqn:Hs.
  apply shortestFrom_reads_back in Hs as (Hback & He & Hs0); [| lia | exact Hd].
  exists s, e.
  assert (Hwide : (Z.of_N n < 10 ^ 21)%Z).
  { change (10 ^ 21)%Z with (Z.of_N (10 ^ 21)). lia. }
  pose proof (roundToDouble_below _ _ Hback Hwide) as Hv.
  assert (Hs1 : 1 <= s).
  { destruct (Z.eq_dec s 0) as [->|]; [|lia].
    rewrite Z.mul_0_l in Hback. change (roundToDouble 0) with (Finite (A := Z) 0) in Hback.
    injection Hback as Hback. lia. }
  assert (He20 : e <= 20).
  { destruct (Z.le_gt_cases e 20) as [|Hgt]; [assumption|]. exfalso.
    assert (10 ^ 21 <= 10 ^ e) by (apply Z.pow_le_mono_r; lia). nia. }
  assert (Hsplit : 10 ^ 21 = 10 ^ (21 - e) * 10 ^ e).
  { rewrite <- Z.pow_add_r by lia. f_equal. lia. }
  assert (Hpe : 0 < 10 ^ e) by (apply Z.pow_pos_nonneg; lia).
  assert (Hsw : s < 10 ^ (21 - e)) by nia.
  assert (Hlen : (String.length (stringOfN (Z.to_N s)) <= Z.to_nat (21 - e))%nat).
  { apply stringOfN_length; [lia|].
    rewrite <- (Z2N.id (21 - e)), <- (N2Z.id (Z.to_N (21 - e))) in Hsw by lia.
    rewrite Z_nat_N. apply N2Z.inj_lt. rewrite N2Z.inj_pow, Z2N.id by lia.
    change (Z.of_N 10) with 10. rewrite N2Z.id in Hsw. exact Hsw. }
  destruct (Z.leb_spec (Z.of_nat (String.length (stringOfN (Z.to_N s))) + e) 21) as [_|Hbad];
    [auto | lia].
Qed.

(** The round trip for every natural below 10^21 that a number holds. *)
Lemma parse_format_wide (n : N) :
  roundToDouble (Z.of_N n) = Finite (Z.of_N n) -> (n < 10 ^ 21)%N ->
  parseOrderNumber (formatOrderNumber (Finite (Z.of_N n))) = Finite (Z.of_N n).
Proof.
  intros Hd Hn. destruct (N.le_gt_cases n (2 ^ 53)) as [Hsafe|Hbig]; [apply parse_format, Hsafe|].
  assert (Hpos : (0 < n)%N) by (change (2 ^ 53)%N with 9007199254740992%N in Hbig; lia).
  destruct (shortestString_plain n Hd (conj Hpos Hn)) as (s & e & Hstr & Hs & He & Hback).
  assert (Hshown : stringOfNumber (Z.of_N n)
                   = stringOfN (Z.to_N s) ++ repeatChar (Z.to_nat e) "0").
  { rewrite <- Hstr. destruct n as [|p]; [lia|].
    cbn [Z.of_N stringOfNumber]. unfold stringOfMagnitude.
    change (Z.to_N (Z.pos p)) with (N.pos p).
    destruct (N.leb_spec (N.pos p) (2 ^ 53)); [lia | reflexivity]. }
  unfold parseOrderNumber, formatOrderNumber, padStart, stringOf.
  rewrite Hshown. cbn [truthy negb matchDigits].
  change (isDigit "#") with false. cbv iota.
  rewrite matchDigits_all.
  - unfold numberOfString.
    rewrite numberOfDigits_zeros, numberOfDigits_app, numberOfDigits_stringOfN.
    rewrite numberOfDigits_trailing_zeros, !Z2N.id, Z2Nat.id by lia. exact Hback.
  - rewrite !allDigits_app, !allDigits_zeros, allDigits_stringOfN. reflexivity.
  - apply padded_nonempty. intros Hempty.
    apply (f_equal String.length) in Hempty.
    pose proof (toDigits_nonempty (N.to_nat (N.log2 (Z.to_N s))) (Z.to_N s) "") as Hne.
    fold (stringOfN (Z.to_N s)) in Hne.
    destruct (stringOfN (Z.to_N s)); [congruence | discriminate].
Qed.

(** C10 fails on the code as stated: 10^21 is a number, [String] prints
    it in exponent notation, and the scan reads back 1. *)
Lemma parseOrderNumber_formatOrderNumber_wide :
  roundToDouble (10 ^ 21) = Finite (10 ^ 21)
  /\ formatOrderNumber (Finite (10 ^ 21)) = "#1e+21"
  /\ parseOrderNumber (formatOrderNumber (Finite (10 ^ 21))) = Finite 1.
Proof. vm_compute. repeat split; reflexivity. Qed.

(** C10, amended. For every natural number [n] below 10^21 that a
    number holds, as every natural up to 2^53 is, and whatever its
    width, parsing the formatted number gives [n] back:
    [parseOrderNumber (formatOrderNumber n) = n]; hence two such
    naturals with the same formatted number are equal. *)
Theorem parseOrderNumber_formatOrderNumber (n : N) :
  roundToDouble (Z.of_N n) = Finite (Z.of_N n) -> (n < 10 ^ 21)%N ->
  parseOrderNumber (formatOrderNumber (Finite (Z.of_N n))) = Finite (Z.of_N n)
  /\ (forall m : N,
        roundToDouble (Z.of_N m) = Finite (Z.of_N m) -> (m < 10 ^ 21)%N ->
        formatOrderNumber (Finite (Z.of_N n)) = formatOrderNumber (Finite (Z.of_N m)) ->
        n = m)
  /\ (forall m : N, (m <= 2 ^ 53)%N ->
        roundToDouble (Z.of_N m) = Finite (Z.of_N m) /\ (m < 10 ^ 21)%N).
Proof.
  intros Hd Hn. split; [exact (parse_format_wide n Hd Hn)|]. split.
  - intros m Hdm Hm H. apply N2Z.inj.
    assert (Heq : Finite (Z.of_N n) = Finite (Z.of_N m)).
    { rewrite <- (parse_format_wide n Hd Hn), <- (parse_format_wide m Hdm Hm), H.
      reflexivity. }
    congruence.
  - intros m Hm. change (2 ^ 53)%N with 9007199254740992%N in Hm. split.
    + apply roundToDouble_exact. change (2 ^ 53) with 9007199254740992. lia.
    + change (10 ^ 21)%N with 1000000000000000000000%N. lia.
Qed.

Lemma parseOrderNumber_formatOrderNumber_witness :
  parseOrderNumber (formatOrderNumber (Finite 123456)) = Finite 123456
  /\ formatOrderNumber (Finite (2 ^ 64)) = "#18446744073709552000"
  /\ parseOrderNumber (formatOrderNumber (Finite (2 ^ 64))) = Finite (2 ^ 64).
Proof.
  split.
  - apply (proj1 (parseOrderNumber_formatOrderNumber 123456%N eq_refl eq_refl)).
  - split; [vm_compute; reflexivity|].
    apply (proj1 (parseOrderNumber_formatOrderNumber (2 ^ 64)%N
                    ltac:(vm_compute; reflexivity) eq_refl)).
Defined.

(** ** The sequence allocator *)

Ltac run :=
  unfold runTransaction, allocateNext, txGetCounter, txQueryLatest, txSetCounter, docGet,
    docSetOrderNumber, docSetDispatchSent, transportSend, when,
    mbind, M_bind, bind, mret, M_ret, ret, throw, logOp, readDb, writeDb;
  cbn [db trace orders orderCounters fst snd].

Lemma allocateNext_run collectionName w :
  allocateNext collectionName w
  = (Ok (plusOne (lastRead collectionName (db w))),
     {| db := withCounter collectionName (plusOne (lastRead collectionName (db w))) (db w);
        trace := trace w ++ allocateOps collectionName (db w) |}).
Proof.
  unfold allocateOps, withCounter, lastRead. run.
  destruct (orderCounters (db w) !! collectionName) as [c|];
    cbn [db trace orders orderCounters]; rewrite <- ?app_assoc; reflexivity.
Qed.



Lemma lastRead_counterValue collectionName d v :
  counterValue collectionName d = Some v -> lastRead collectionName d = Finite v.
Proof.
  unfold counterValue, lastRead.
  destruct (orderCounters d !! collectionName); cbn; congruence.
Qed.




(** *** The safe range *)




(** *** Tools *)









Lemma numberAt_mergeOrder_eq c i n d :
  numberAt (mergeOrder c i (fun o => withOrderNumber o (Some n)) d) (c, i) = Some n.
Proof. unfold numberAt, mergeOrder. cbn. rewrite lookup_insert_eq. reflexivity. Qed.




Lemma formatOrderNumber_inj (n m : Z) :
  0 <= n <= 2 ^ 53 -> 0 <= m <= 2 ^ 53 ->
  formatOrderNumber (Finite n) = formatOrderNumber (Finite m) -> n = m.
Proof.
  intros Hn Hm H.
  assert (Hbound : forall k, 0 <= k <= 2 ^ 53 -> (Z.to_N k <= 2 ^ 53)%N).
  { intros k Hk. change (2 ^ 53)%N with (Z.to_N (2 ^ 53)). lia. }
  pose proof (parse_format (Z.to_N n) (Hbound n Hn)) as Pn.
  pose proof (parse_format (Z.to_N m) (Hbound m Hm)) as Pm.
  rewrite Z2N.id in Pn, Pm by lia. rewrite H, Pm in Pn. congruence.
Qed.



(** The invariants of one stream, along the runs whose numbers are in
    the safe range. *)
Section Stream.

Variable collectionName : string.



(** *** Every step keeps the counter ahead of the numbers issued *)





(** *** A stream that starts empty *)








(** *** The numbers carried by the orders *)





End Stream.

(** *** Runs built from the two steps *)




Example demoRun_stamped :
  numberAt (db (world demoRun)) ("eggOrders", "o2") = Some "#0002"
  ∧ numberAt (db (world demoRun)) ("eggOrders", "o1") = None.
Proof. vm_compute. split; reflexivity. Qed.








(** The allocation of a number for an order, in one step. *)
Lemma assignOrderNumber_run (collectionName id : string) (w : World) :
  assignOrderNumber collectionName (collectionName, id) w
  = (Ok (formatOrderNumber (plusOne (lastRead collectionName (db w)))),
     numberAssigned collectionName id w).
Proof.
  unfold assignOrderNumber, runTransaction.
  unfold mbind at 1, M_bind at 1, bind at 1. rewrite allocateNext_run.
  unfold numberAssigned. run. rewrite <- app_assoc. reflexivity.
Qed.

Lemma ensureOrderNumber_unnumbered (collectionName id : string) (order : Order) (w : World) :
  truthyField (orderNumber order) = false ->
  ensureOrderNumber collectionName (collectionName, id) order w
  = (Ok (formatOrderNumber (plusOne (lastRead collectionName (db w)))),
     numberAssigned collectionName id w).
Proof.
  intros H. unfold ensureOrderNumber.
  destruct (orderNumber order) as [n|]; [cbn in H; rewrite H|]; apply assignOrderNumber_run.
Qed.

Lemma counterValue_numberAssigned (collectionName id : string) (w : World) :
  counterValue collectionName (db (numberAssigned collectionName id w))
  = Some (valueOf (plusOne (lastRead collectionName (db w)))).
Proof.
  unfold numberAssigned, counterValue, mergeOrder, withCounter.
  cbn [db orderCounters]. rewrite lookup_insert_eq. reflexivity.
Qed.

Lemma lastRead_numberAssigned (collectionName id : string) (w : World) :
  lastRead collectionName (db (numberAssigned collectionName id w))
  = Finite (valueOf (plusOne (lastRead collectionName (db w)))).
Proof. apply lastRead_counterValue, counterValue_numberAssigned. Qed.

Lemma numberAt_numberAssigned (collectionName id : string) (w : World) :
  numberAt (db (numberAssigned collectionName id w)) (collectionName, id)
  = Some (formatOrderNumber (plusOne (lastRead collectionName (db w)))).
Proof. unfold numberAssigned. cbn [db]. apply numberAt_mergeOrder_eq. Qed.

Lemma allocateOps_counter (collectionName : string) (d : Db) (k : Z) :
  counterValue collectionName d = Some k ->
  allocateOps collectionName d
  = [TxGetCounter collectionName;
     TxSetCounter collectionName (plusOne (lastRead collectionName d))].
Proof.
  unfold counterValue, allocateOps.
  destruct (orderCounters d !! collectionName); [reflexivity | discriminate].
Qed.

(** C2 fails on the code. [ensureOrderNumber] looks for the number in
    the order data it is handed, not in the stored order. Handed data
    that carry a non-empty number it returns that number and leaves the
    store and the trace as they were. Handed the data the order was
    created with, which is what its callers hand it, it allocates again
    although the stored order already carries a number: with the counter
    at [k] below 2^53 and the stored order carrying the number of [k],
    the second call reads and advances the counter, returns the number
    of [k + 1], which is another number, and overwrites the stored
    one. *)
Theorem ensureOrderNumber_reads_snapshot (collectionName id : string) (orderData : Order)
    (w : World) (k : Z) :
  truthyField (orderNumber orderData) = false ->
  counterValue collectionName (db w) = Some k -> 0 <= k < 2 ^ 53 ->
  numberAt (db w) (collectionName, id) = Some (formatOrderNumber (Finite k)) ->
  (forall n w0, n <> "" ->
     ensureOrderNumber collectionName (collectionName, id)
       (withOrderNumber orderData (Some n)) w0 = (Ok n, w0))
  /\ exists w',
       ensureOrderNumber collectionName (collectionName, id) orderData w
       = (Ok (formatOrderNumber (Finite (k + 1))), w')
       /\ formatOrderNumber (Finite (k + 1)) <> formatOrderNumber (Finite k)
       /\ trace w'
          = (trace w
             ++ [TxGetCounter collectionName;
                 TxSetCounter collectionName (Finite (k + 1));
                 DocSetOrderNumber collectionName id (formatOrderNumber (Finite (k + 1)))])%list
       /\ counterValue collectionName (db w') = Some (k + 1)
       /\ numberAt (db w') (collectionName, id) = Some (formatOrderNumber (Finite (k + 1))).
Proof.
  intros Hdata Hk Hrange Hstored. split.
  - intros n w0 Hn. unfold ensureOrderNumber. cbn [orderNumber withOrderNumber].
    rewrite (truthy_nonempty _ Hn). reflexivity.
  - assert (Hnext : plusOne (lastRead collectionName (db w)) = Finite (k + 1)).
    { rewrite (lastRead_counterValue _ _ _ Hk). apply plusOne_exact. lia. }
    exists (numberAssigned collectionName id w).
    rewrite (ensureOrderNumber_unnumbered _ _ _ _ Hdata), Hnext.
    split; [reflexivity|]. split.
    { intros Heq. apply formatOrderNumber_inj in Heq; lia. }
    split.
    { unfold numberAssigned. cbn [trace].
      rewrite (allocateOps_counter _ _ _ Hk), Hnext. reflexivity. }
    split.
    { rewrite counterValue_numberAssigned, Hnext. reflexivity. }
    rewrite numberAt_numberAssigned, Hnext. reflexivity.
Qed.

Lemma ensureOrderNumber_reads_snapshot_witness :
  (ensureOrderNumber "eggOrders" ("eggOrders", "o1") emptyOrder
     {| db := emptyDb; trace := [] |}).1 = Ok "#0001"
  /\ numberAt (db createdOnce) ("eggOrders", "o1") = Some "#0001"
  /\ (ensureOrderNumber "eggOrders" ("eggOrders", "o1") emptyOrder createdOnce).1 = Ok "#0002"
  /\ numberAt
       (db (ensureOrderNumber "eggOrders" ("eggOrders", "o1") emptyOrder createdOnce).2)
       ("eggOrders", "o1") = Some "#0002"
  /\ ensureOrderNumber "eggOrders" ("eggOrders", "o1") (numbered "#0001") createdOnce
     = (Ok "#0001", createdOnce).
Proof.
  destruct (ensureOrderNumber_reads_snapshot "eggOrders" "o1" emptyOrder createdOnce 1)
    as (Hshort & w' & Hrun & _ & _ & _ & Hnum).
  - reflexivity.
  - reflexivity.
  - split; [lia | reflexivity].
  - reflexivity.
  - split; [reflexivity|]. split; [reflexivity|].
    rewrite Hrun. split; [reflexivity|]. split; [exact Hnum|].
    apply (Hshort "#0001"). discriminate.
Defined.

(** An order without number goes through the counter. *)
Example ensureOrderNumber_allocates :
  trace (ensureOrderNumber "eggOrders" ("eggOrders", "o1") emptyOrder
           {| db := emptyDb; trace := [] |}).2
  = [TxGetCounter "eggOrders"; TxQueryLatest "eggOrders"; TxSetCounter "eggOrders" (Finite 1);
     DocSetOrderNumber "eggOrders" "o1" "#0001"].
Proof. vm_compute. reflexivity. Qed.

(** *** The bootstrap scan *)

Lemma maxString_cons (s : string) (l : list string) :
  maxString (s :: l)
  = match maxString l with
    | None => Some s
    | Some t => if String.ltb t s then Some s else Some t
    end.
Proof. reflexivity. Qed.

Lemma maxString_elem (l : list string) (m : string) : maxString l = Some m -> m ∈ l.
Proof.
  revert m. induction l as [|s l IH]; intros m; [discriminate|].
  rewrite maxString_cons. destruct (maxString l) as [t|].
  - destruct (String.ltb t s); intros H; injection H as H; subst m.
    + apply list_elem_of_here.
    + apply list_elem_of_further, IH. reflexivity.
  - intros H; injection H as H; subst m. apply list_elem_of_here.
Qed.

Lemma foldr_max_ge (l : list Z) (x : Z) : x ∈ l -> x <= foldr Z.max 0 l.
Proof.
  induction l as [|y l IH]; intros Hx; [inversion Hx|].
  cbn. apply elem_of_cons in Hx as [->|Hx]; [lia|]. specialize (IH Hx). lia.
Qed.

Lemma foldr_max_nonneg (l : list Z) : 0 <= foldr Z.max 0 l.
Proof. induction l; cbn; lia. Qed.

(** The number the scan reads is the number shown by the string it
    picked, rounded. *)
Lemma parseOrderNumber_numberShown (value : string) :
  parseOrderNumber value = roundToDouble (numberShown value).
Proof.
  unfold parseOrderNumber, numberShown, numberOfString.
  destruct value as [|c value]; [reflexivity|]. cbn [truthy negb].
  destruct (matchDigits (String c value)); reflexivity.
Qed.

(** *** Where the scan is right: numbers of the pad width

    As long as every number of the stream has the shape
    [formatOrderNumber] gives to a natural below 10000, the order of the
    strings is the order of the numbers, and the scan reads the highest
    number assigned. *)

Lemma compare_Lt_trans (a b c : string) :
  String.compare a b = Lt -> String.compare b c = Lt -> String.compare a c = Lt.
Proof.
  revert b c. induction a as [|x a IH]; intros [|y b] [|z c]; simpl; try congruence.
  unfold Ascii.compare.
  destruct (N.compare_spec (N_of_ascii x) (N_of_ascii y)) as [Hxy|Hxy|Hxy];
    destruct (N.compare_spec (N_of_ascii y) (N_of_ascii z)) as [Hyz|Hyz|Hyz];
    try congruence; intros H1 H2.
  - rewrite Hxy, Hyz, N.compare_refl. exact (IH b c H1 H2).
  - rewrite Hxy. apply N.compare_lt_iff in Hyz. rewrite Hyz. reflexivity.
  - rewrite <- Hyz. apply N.compare_lt_iff in Hxy. rewrite Hxy. reflexivity.
  - assert (Hxz : (N_of_ascii x < N_of_ascii z)%N) by lia.
    apply N.compare_lt_iff in Hxz. rewrite Hxz. reflexivity.
Qed.

Lemma compare_refl (a : string) : String.compare a a = Eq.
Proof.
  induction a as [|x a IH]; simpl; [reflexivity|].
  unfold Ascii.compare. rewrite N.compare_refl. exact IH.
Qed.

Lemma format_step (k : Z) :
  0 <= k < 9999 ->
  String.compare (formatOrderNumber (Finite k)) (formatOrderNumber (Finite (k + 1))) = Lt.
Proof.
  assert (Hall : forallb (fun i => match String.compare
                                           (formatOrderNumber (Finite (Z.of_nat i)))
                                           (formatOrderNumber (Finite (Z.of_nat i + 1))) with
                                   | Lt => true
                                   | _ => false
                                   end) (seq 0 (Z.to_nat 9999)) = true)
    by (vm_compute; reflexivity).
  intros Hk. rewrite forallb_forall in Hall.
  specialize (Hall (Z.to_nat k)). rewrite in_seq, Z2Nat.id in Hall by lia.
  specialize (Hall ltac:(lia)).
  destruct (String.compare (formatOrderNumber (Finite k)) (formatOrderNumber (Finite (k + 1))));
    congruence.
Qed.

Lemma format_increasing (a b : Z) :
  0 <= a < b -> b <= 9999 ->
  String.compare (formatOrderNumber (Finite a)) (formatOrderNumber (Finite b)) = Lt.
Proof.
  intros Hab Hb. replace b with (a + 1 + Z.of_nat (Z.to_nat (b - a - 1))) in * by lia.
  induction (Z.to_nat (b - a - 1)) as [|n IH].
  - rewrite Z.add_0_r. apply format_step. lia.
  - apply (compare_Lt_trans _ (formatOrderNumber (Finite (a + 1 + Z.of_nat n))));
      [apply IH; lia|].
    replace (a + 1 + Z.of_nat (S n)) with (a + 1 + Z.of_nat n + 1) by lia.
    apply format_step. lia.
Qed.

Lemma ltb_format (a b : Z) :
  0 <= a <= 9999 -> 0 <= b <= 9999 ->
  String.ltb (formatOrderNumber (Finite a)) (formatOrderNumber (Finite b)) = (a <? b)%Z.
Proof.
  intros Ha Hb. unfold String.ltb.
  destruct (Z.lt_trichotomy a b) as [Hlt | [-> | Hgt]].
  - rewrite format_increasing by lia. symmetry. apply Z.ltb_lt, Hlt.
  - rewrite compare_refl. symmetry. apply Z.ltb_irrefl.
  - rewrite String.compare_antisym, format_increasing by lia. cbn.
    symmetry. apply Z.ltb_ge. lia.
Qed.

Lemma numberShown_format (k : Z) :
  0 <= k <= 9999 -> numberShown (formatOrderNumber (Finite k)) = k.
Proof.
  intros Hk.
  assert (Hn : (Z.to_N k <= 2 ^ 53)%N).
  { change (2 ^ 53)%N with (Z.to_N (2 ^ 53)). pose proof safe_bounds. lia. }
  pose proof (parse_format (Z.to_N k) Hn) as H.
  rewrite Z2N.id, parseOrderNumber_numberShown in H by lia.
  apply roundToDouble_safe in H; [exact H|]. pose proof safe_bounds. lia.
Qed.

Lemma maxString_padWidth (l : list string) :
  Forall padWidth l ->
  match maxString l with
  | Some m => padWidth m /\ numberShown m = foldr Z.max 0 (numberShown <$> l)
  | None => l = []
  end.
Proof.
  induction 1 as [|s l (ks & Hks & ->) _ IH]; [reflexivity|].
  rewrite maxString_cons, fmap_cons. cbn [foldr].
  rewrite numberShown_format by lia.
  destruct (maxString l) as [t|].
  - destruct IH as [(kt & Hkt & ->) IH]. rewrite <- IH, numberShown_format by lia.
    rewrite ltb_format by assumption.
    destruct (kt <? ks)%Z eqn:Hlt.
    + apply Z.ltb_lt in Hlt. split; [exists ks; auto|].
      rewrite numberShown_format by lia. lia.
    + apply Z.ltb_ge in Hlt. split; [exists kt; auto|].
      rewrite numberShown_format by lia. lia.
  - subst l. split; [exists ks; auto|]. rewrite numberShown_format by lia. cbn. lia.
Qed.

Lemma highestAssigned_padWidth collectionName d :
  Forall padWidth (orderNumbersOf collectionName d) ->
  0 <= highestAssigned collectionName d <= 9999.
Proof.
  intros Hall. unfold highestAssigned.
  induction Hall as [|s l (ks & Hks & ->) _ IH]; [cbn; lia|].
  rewrite fmap_cons. cbn [foldr]. rewrite numberShown_format by lia. lia.
Qed.

Lemma lastRead_padWidth collectionName d :
  orderCounters d !! collectionName = None ->
  Forall padWidth (orderNumbersOf collectionName d) ->
  lastRead collectionName d = Finite (highestAssigned collectionName d).
Proof.
  intros Hnone Hall. pose proof (highestAssigned_padWidth _ _ Hall) as Hrange.
  unfold lastRead, highestAssigned, latestOrderNumber in *. rewrite Hnone.
  pose proof (maxString_padWidth _ Hall) as H.
  destruct (maxString (orderNumbersOf collectionName d)) as [m|].
  - rewrite parseOrderNumber_numberShown, (proj2 H). apply roundToDouble_exact.
    pose proof safe_bounds. lia.
  - rewrite H. reflexivity.
Qed.

(** C7 fails on the code. On the stream of [widerThanPad], without
    counter, the highest number assigned is 10000, but the scan orders
    the numbers as strings, reads 9999 from ["#9999"], and the next
    allocation issues 10000, the number the order [b] already carries. *)
Theorem bootstrap_reads_string_maximum :
  orderCounters widerThanPad !! "eggOrders" = None
  /\ highestAssigned "eggOrders" widerThanPad = 10000
  /\ latestOrderNumber "eggOrders" widerThanPad = Some "#9999"
  /\ lastRead "eggOrders" widerThanPad = Finite 9999
  /\ (allocateNext "eggOrders" {| db := widerThanPad; trace := [] |}).1 = Ok (Finite 10000)
  /\ numberAt widerThanPad ("eggOrders", "b") = Some (formatOrderNumber (Finite 10000)).
Proof. vm_compute. repeat split; reflexivity. Qed.

(** ** The recipient resolver *)

Section Resolver.

Lemma noSeparator_snoc (s : string) (c : ascii) :
  noSeparator s = true -> isSeparator c = false -> noSeparator (s ++ String c "") = true.
Proof.
  induction s as [|a s IH]; simpl; intros Hs Hc.
  - rewrite Hc. reflexivity.
  - apply andb_prop in Hs as [Ha Hs]. rewrite Ha, IH by assumption. reflexivity.
Qed.

Lemma isSpace_isSeparator (c : ascii) : isSpace c = true -> isSeparator c = true.
Proof. unfold isSeparator. intros ->. apply orb_true_r. Qed.

Lemma trimStart_noSeparator (s : string) : noSeparator s = true -> trimStart s = s.
Proof.
  destruct s as [|c s]; simpl; [reflexivity|].
  intros [Hc _]%andb_prop. destruct (isSpace c) eqn:Hsp; [|reflexivity].
  rewrite (isSpace_isSeparator _ Hsp) in Hc. discriminate.
Qed.

Lemma trimEnd_noSeparator (s : string) : noSeparator s = true -> trimEnd s = s.
Proof.
  induction s as [|c s IH]; simpl; [reflexivity|].
  intros [Hc Hs]%andb_prop. rewrite IH by assumption.
  destruct s; [|reflexivity].
  destruct (isSpace c) eqn:Hsp; [|reflexivity].
  rewrite (isSpace_isSeparator _ Hsp) in Hc. discriminate.
Qed.

Lemma trim_noSeparator (s : string) : noSeparator s = true -> trim s = s.
Proof.
  intros Hs. unfold trim. rewrite trimStart_noSeparator by assumption.
  apply trimEnd_noSeparator, Hs.
Qed.

(** The pieces of [split] hold no separator, so [trim] leaves them as
    they are. *)
Lemma splitFrom_noSeparator (s : string) : forall inRun cur,
  noSeparator cur = true -> Forall (fun p => noSeparator p = true) (splitFrom inRun cur s).
Proof.
  induction s as [|c s IH]; intros inRun cur Hcur; simpl.
  - constructor; [exact Hcur | constructor].
  - destruct (isSeparator c) eqn:Hc.
    + destruct inRun; [apply IH, Hcur|].
      constructor; [exact Hcur | apply IH; reflexivity].
    + apply IH, noSeparator_snoc; assumption.
Qed.

Lemma trim_split (s : string) : trim <$> split s = split s.
Proof.
  unfold split.
  pose proof (splitFrom_noSeparator s false "" eq_refl) as H.
  induction H as [|p l Hp _ IH]; [reflexivity|].
  rewrite fmap_cons, trim_noSeparator, IH by assumption. reflexivity.
Qed.

(** Dropping the empty pieces of [split] leaves the runs of characters
    between separators. *)
Lemma splitFrom_tokensFrom (s : string) : forall inRun cur,
  (inRun = true -> cur = "") ->
  List.filter truthy (splitFrom inRun cur s) = tokensFrom cur s.
Proof.
  induction s as [|c s IH]; intros inRun cur Hrun; simpl.
  - destruct (truthy cur); reflexivity.
  - destruct (isSeparator c).
    + destruct inRun.
      * rewrite (Hrun eq_refl). simpl. apply IH. reflexivity.
      * simpl. rewrite IH by reflexivity. destruct (truthy cur); reflexivity.
    + apply IH. discriminate.
Qed.

Lemma filter_both {A} (p q : A -> bool) (l : list A) :
  List.filter (fun x => p x && q x) l = List.filter q (List.filter p l).
Proof.
  induction l as [|x l IH]; simpl; [reflexivity|].
  destruct (p x); simpl; [destruct (q x)|]; rewrite IH; reflexivity.
Qed.

Lemma resolveRecipients_kept (exclusions : gset string) (raw : string) :
  List.filter
    (fun address => truthy address && negb (bool_decide (toLowerCase address ∈ exclusions)))
    (trim <$> split raw)
  = keptAddresses exclusions raw.
Proof.
  rewrite trim_split, filter_both. unfold keptAddresses, tokens, split.
  rewrite splitFrom_tokensFrom by discriminate. reflexivity.
Qed.

(** Every address the resolver keeps is a non-empty run without
    separator. *)
Lemma tokensFrom_spec (s : string) : forall cur,
  noSeparator cur = true ->
  Forall (fun a => a <> "" /\ noSeparator a = true) (tokensFrom cur s).
Proof.
  induction s as [|c s IH]; intros cur Hcur; simpl.
  - destruct cur; simpl; repeat constructor; [discriminate | exact Hcur].
  - destruct (isSeparator c) eqn:Hc.
    + destruct cur; simpl; [apply IH; reflexivity|].
      constructor; [split; [discriminate | exact Hcur] | apply IH; reflexivity].
    + apply IH, noSeparator_snoc; assumption.
Qed.

End Resolver.

Example resolve_excluded :
  resolveRecipients {[ "b@x.com" ]} ["fallback@x.com"] "a@x.com, B@X.com" = ["a@x.com"].
Proof. vm_compute. reflexivity. Qed.

Example resolve_all_excluded :
  resolveRecipients {[ "b@x.com" ]} ["fallback@x.com"] " ;B@x.com, " = ["fallback@x.com"].
Proof. vm_compute. reflexivity. Qed.

(** C4 fails on the code as stated: with no admin address configured
    the resolver returns no recipient at all, not the fallback list. *)
Lemma getAdminRecipients_empty_config :
  getAdminRecipients bareEnv = []
  /\ resolveRecipients ADMIN_EMAIL_EXCLUSIONS ADMIN_EMAIL_FALLBACKS "" = []
  /\ ADMIN_EMAIL_FALLBACKS = ["stolschristopher60@gmail.com"].
Proof. vm_compute. repeat split; reflexivity. Qed.

(** C4, amended. For every configured string, exclusion set and
    fallback list: the empty string resolves to the empty list; any other
    string resolves to its addresses (the runs between white space,
    commas and semicolons) that are not excluded, compared in lower case,
    and to the fallback list, as it is, when none is left. *)
Theorem resolveRecipients_fallback (exclusions : gset string) (fallbacks : list string)
    (raw : string) :
  resolveRecipients exclusions fallbacks raw
  = match raw with
    | EmptyString => []
    | String _ _ =>
        match keptAddresses exclusions raw with
        | [] => fallbacks
        | kept => kept
        end
    end.
Proof.
  unfold resolveRecipients. destruct raw as [|c raw]; [reflexivity|].
  cbn [truthy negb]. rewrite resolveRecipients_kept.
  destruct (keptAddresses exclusions (String c raw)); reflexivity.
Qed.

(** ** The delivery client *)

Lemma sendEmail_not_configured (env : Env) (message : Email) (w : World) :
  getResendClient env = None -> sendEmail env message w = (Throw notConfigured, w).
Proof. intros H. unfold sendEmail. rewrite H. reflexivity. Qed.

Lemma filter_all_true {A} (p : A -> bool) (l : list A) :
  Forall (fun x => p x = true) l -> List.filter p l = l.
Proof.
  induction 1 as [|x l Hx _ IH]; simpl; [reflexivity|]. rewrite Hx, IH. reflexivity.
Qed.

(** A configured client hands a message whose recipients are all
    non-empty to the provider, once. *)
Lemma sendEmail_delivers (env : Env) (message : Email) (w : World) (id : option string) :
  is_Some (getResendClient env) ->
  to message <> [] ->
  Forall (fun a => truthy a = true) (to message) ->
  transport env message = Response id ->
  sendEmail env message w = (Ok (Some id), sentTo w [message]).
Proof.
  intros [k Hk] Hto Hall Hsend. unfold sendEmail. rewrite Hk.
  rewrite (filter_all_true _ _ Hall).
  destruct message as [recipients subj body]. simpl in *.
  destruct recipients as [|a recipients]; [congruence|]. simpl.
  run. rewrite Hsend. reflexivity.
Qed.

(** C8 fails on the code as stated: the recipient list is empty once
    the falsy entries are dropped, and yet the call is an error, because
    the missing provider key is checked first. *)
Lemma sendEmail_no_recipient_not_configured :
  List.filter truthy (to noRecipient) = []
  /\ sendEmail bareEnv noRecipient emptyWorld = (Throw notConfigured, emptyWorld).
Proof. split; reflexivity. Qed.

(** C8, amended. With a provider key configured, a call whose
    recipient list is empty once the falsy entries are dropped returns
    [null] and does nothing: the provider is not contacted. Without a
    key every call throws the configuration error, whatever the
    recipients. *)
Theorem sendEmail_no_recipient (env : Env) (message : Email) (w : World) :
  (is_Some (getResendClient env) ->
   List.filter truthy (to message) = [] ->
   sendEmail env message w = (Ok None, w))
  /\ (getResendClient env = None ->
      sendEmail env message w = (Throw notConfigured, w)).
Proof.
  split.
  - intros [k Hk] Hnone. unfold sendEmail. rewrite Hk, Hnone. reflexivity.
  - apply sendEmail_not_configured.
Qed.

Lemma sendEmail_no_recipient_witness :
  sendEmail liveEnv noRecipient emptyWorld = (Ok None, emptyWorld).
Proof.
  apply (proj1 (sendEmail_no_recipient liveEnv noRecipient emptyWorld)).
  - exists "re_key". reflexivity.
  - reflexivity.
Defined.

(** ** Status-change notifications *)

Lemma getAdminRecipients_truthy (env : Env) :
  Forall (fun a => truthy a = true) (getAdminRecipients env).
Proof.
  unfold getAdminRecipients, resolveRecipients.
  destruct (orElse _ _) as [|c raw]; [constructor|].
  cbn [truthy negb]. rewrite resolveRecipients_kept.
  assert (Hkept : Forall (fun a => truthy a = true)
                    (keptAddresses ADMIN_EMAIL_EXCLUSIONS (String c raw))).
  { unfold keptAddresses. apply Forall_forall. intros a Ha.
    apply list_elem_of_In, filter_In in Ha as [Ha _]. apply list_elem_of_In in Ha.
    pose proof (tokensFrom_spec (String c raw) "" eq_refl) as Hspec.
    rewrite Forall_forall in Hspec. destruct (Hspec a Ha) as [Hne _].
    apply truthy_nonempty, Hne. }
  destruct (keptAddresses _ _); [repeat constructor | exact Hkept].
Qed.

Lemma sentTo_nil (w : World) : sentTo w [] = w.
Proof. unfold sentTo. simpl. rewrite app_nil_r. destruct w; reflexivity. Qed.

Lemma sentTo_app (w : World) (l1 l2 : list Email) :
  sentTo (sentTo w l1) l2 = sentTo w (l1 ++ l2).
Proof. unfold sentTo. simpl. rewrite fmap_app, app_assoc. reflexivity. Qed.

Lemma sendOrderStatusEmails_silent (env : Env) (order : Order)
    (previousStatus nextStatus : option string) (collectionName : string) (w : World) :
  truthyField nextStatus = false
  \/ nextStatus = Some "cancelled" \/ nextStatus = Some "archived" ->
  sendOrderStatusEmails env order previousStatus nextStatus collectionName w = (Ok tt, w).
Proof.
  intros [H | [-> | ->]]; unfold sendOrderStatusEmails.
  - rewrite H. reflexivity.
  - reflexivity.
  - reflexivity.
Qed.

Lemma not_suppressed (s : string) :
  s <> "cancelled" -> s <> "archived" -> bool_decide (s ∈ suppressed) = false.
Proof.
  intros H1 H2. apply bool_decide_eq_false_2. unfold suppressed.
  rewrite elem_of_union, !elem_of_singleton. tauto.
Qed.

(** C6 fails on the code as stated: the status changes, the new status
    is neither cancelled nor archived, the order has an email address and
    there is an admin recipient, and yet nothing is sent, because the new
    status is empty. *)
Lemma status_cleared_sends_nothing :
  orderStatus pendingOrder <> orderStatus (withStatus pendingOrder (Some ""))
  /\ truthyField (email (withStatus pendingOrder (Some ""))) = true
  /\ getAdminRecipients liveEnv = ["farm@example.com"]
  /\ emailOnStatusChange liveEnv pendingOrder (withStatus pendingOrder (Some "")) emptyWorld
     = (Ok tt, emptyWorld).
Proof. split; [discriminate|]. vm_compute. repeat split; reflexivity. Qed.

(** C6, amended. An update that leaves the status as it was sends
    nothing; a change into cancelled or archived, or into a missing or
    empty status, sends nothing; every other change, with the client
    configured and the provider accepting the messages, sends the
    customer message when the order has an email address, then the admin
    message when there is an admin recipient, and nothing else. *)
Theorem status_change_notifications (collectionName : string) (env : Env)
    (before after : Order) (w : World) :
  (orderStatus before = orderStatus after ->
     onStatusChange collectionName env before after w = (Ok tt, w))
  /\ (orderStatus after = Some "cancelled" \/ orderStatus after = Some "archived"
      \/ truthyField (orderStatus after) = false ->
     onStatusChange collectionName env before after w = (Ok tt, w))
  /\ (forall status,
        orderStatus before <> orderStatus after ->
        orderStatus after = Some status ->
        status <> "" -> status <> "cancelled" -> status <> "archived" ->
        is_Some (getResendClient env) ->
        (forall m, exists id, transport env m = Response id) ->
        onStatusChange collectionName env before after w
        = (Ok tt, sentTo w (statusEmails env before after))).
Proof.
  refine (conj _ (conj _ _)).
  - intros Heq. unfold onStatusChange. rewrite bool_decide_eq_true_2 by exact Heq. reflexivity.
  - intros H. unfold onStatusChange. destruct (bool_decide _); [reflexivity|].
    apply sendOrderStatusEmails_silent. tauto.
  - intros status Hne Hstatus Hnonempty Hc Ha Hclient Haccept.
    unfold onStatusChange. rewrite bool_decide_eq_false_2 by exact Hne.
    fold (statusOrder before after). unfold sendOrderStatusEmails, statusEmails.
    rewrite Hstatus. cbn [truthyField default].
    rewrite (truthy_nonempty _ Hnonempty).
    rewrite not_suppressed by assumption. cbn [negb orb].
    change (email (statusOrder before after)) with (email after).
    unfold mbind, M_bind, bind.
    assert (Hcustomer : forall w0,
      when (truthyField (email after))
        (sendEmail env (statusCustomerEmail (statusOrder before after) (Some status))) w0
      = (Ok tt, sentTo w0 (if truthyField (email after)
                           then [statusCustomerEmail (statusOrder before after) (Some status)]
                           else []))).
    { intros w0. destruct (email after) as [e|] eqn:He; cbn [truthyField].
      - destruct (truthy e) eqn:Ht; [| rewrite sentTo_nil; reflexivity].
        destruct (Haccept (statusCustomerEmail (statusOrder before after) (Some status)))
          as [id Hid].
        unfold when, mbind, M_bind, bind.
        rewrite (sendEmail_delivers _ _ _ id Hclient); [reflexivity | discriminate | | exact Hid].
        unfold statusCustomerEmail. cbn [to]. change (email (statusOrder before after)) with (email after).
        rewrite He. repeat constructor. exact Ht.
      - rewrite sentTo_nil. reflexivity. }
    rewrite Hcustomer.
    destruct (0 <? length (getAdminRecipients env))%nat eqn:Hadmin.
    + destruct (Haccept (statusAdminEmail env (statusOrder before after) (orderStatus before)
                           (Some status))) as [id Hid].
      unfold when, mbind, M_bind, bind.
      rewrite (sendEmail_delivers _ _ _ id Hclient).
      * cbn [mret M_ret ret]. rewrite sentTo_app. reflexivity.
      * cbn [statusAdminEmail to]. intros Hnil. rewrite Hnil in Hadmin. discriminate.
      * apply getAdminRecipients_truthy.
      * exact Hid.
    + cbn [when mret M_ret ret]. rewrite app_nil_r. reflexivity.
Qed.

Lemma status_change_notifications_witness :
  emailOnStatusChange liveEnv pendingOrder (withStatus pendingOrder (Some "packed")) emptyWorld
  = (Ok tt, sentTo emptyWorld
              (statusEmails liveEnv pendingOrder (withStatus pendingOrder (Some "packed")))).
Proof.
  apply (proj2 (proj2 (status_change_notifications "eggOrders" liveEnv pendingOrder
                         (withStatus pendingOrder (Some "packed")) emptyWorld)) "packed").
  - discriminate.
  - reflexivity.
  - discriminate.
  - discriminate.
  - discriminate.
  - exists "re_key". reflexivity.
  - intros m. exists (Some "msg-1"). reflexivity.
Defined.

(** The two suppression cases of the specification. *)
Example status_pending_to_archived :
  emailOnStatusChange liveEnv pendingOrder (withStatus pendingOrder (Some "archived")) emptyWorld
  = (Ok tt, emptyWorld).
Proof. vm_compute. reflexivity. Qed.

Example status_pending_to_packed :
  length (trace (emailOnStatusChange liveEnv pendingOrder
                   (withStatus pendingOrder (Some "packed")) emptyWorld).2) = 2%nat.
Proof. vm_compute. reflexivity. Qed.

(** ** The dispatch callable *)

Lemma requireStaff_passes (context : CallContext) (w : World) :
  isStaffRole (getRoleFromContext context) -> requireStaff context w = (Ok tt, w).
Proof.
  intros H. unfold requireStaff.
  destruct H as [-> | [-> | ->]]; reflexivity.
Qed.

(** A well-formed request of a staff member gets as far as the read of
    the order. *)
Ltac enter_dispatch Hstaff Hcoll Hid :=
  unfold sendDispatchEmail;
  unfold mbind at 1, M_bind at 1, bind at 1;
  rewrite requireStaff_passes by exact Hstaff;
  rewrite bool_decide_eq_true_2 by exact Hcoll; cbn [negb];
  rewrite (truthy_nonempty _ Hid); cbn [negb];
  unfold mbind at 1, M_bind at 1, bind at 1; unfold docGet at 1; run.

Lemma dispatch_not_found (env : Env) (data : DispatchRequest) (context : CallContext)
    (w : World) :
  isStaffRole (getRoleFromContext context) ->
  requestedCollection data ∈ ["eggOrders"; "livestockOrders"] ->
  requestedOrderId data <> "" ->
  orders (db w) !! (requestedCollection data, requestedOrderId data) = None ->
  sendDispatchEmail env data context w
  = (Throw (HttpsError not_found "Order not found."),
     afterRead w (requestedCollection data) (requestedOrderId data)).
Proof.
  intros Hstaff Hcoll Hid Hnone. enter_dispatch Hstaff Hcoll Hid.
  rewrite Hnone. reflexivity.
Qed.

Lemma dispatch_email_missing (env : Env) (data : DispatchRequest) (context : CallContext)
    (w : World) (order : Order) :
  isStaffRole (getRoleFromContext context) ->
  requestedCollection data ∈ ["eggOrders"; "livestockOrders"] ->
  requestedOrderId data <> "" ->
  orders (db w) !! (requestedCollection data, requestedOrderId data) = Some order ->
  trim (orElse (email order) "") = "" ->
  sendDispatchEmail env data context w
  = (Throw (HttpsError failed_precondition "Order email is missing."),
     afterRead w (requestedCollection data) (requestedOrderId data)).
Proof.
  intros Hstaff Hcoll Hid Hsome Hempty. enter_dispatch Hstaff Hcoll Hid.
  rewrite Hsome, Hempty. reflexivity.
Qed.

(** C3 fails on the code as stated: the order has an email address and
    no send date, and the callable reads it, hands the message to the
    provider and records the dispatch. *)
Lemma dispatch_without_send_date :
  orders oneOrderDb !! ("eggOrders", "o1") = Some pendingOrder
  /\ sendDate pendingOrder = None
  /\ (sendDispatchEmail liveEnv (dispatchOf "o1") staff {| db := oneOrderDb; trace := [] |}).1
     = Ok (Some "msg-1")
  /\ trace (sendDispatchEmail liveEnv (dispatchOf "o1") staff
              {| db := oneOrderDb; trace := [] |}).2
     = [ DocGet "eggOrders" "o1";
         TransportSend {| to := ["customer@example.com"];
                          subject := "Your order #0007 update from The Crooked Fence";
                          html := DispatchHtml pendingOrder |};
         DocSetDispatchSent "eggOrders" "o1" ].
Proof. vm_compute. repeat split; reflexivity. Qed.

(** C3, amended. For a staff caller, a valid collection name and a
    non-empty order id: the callable throws not-found when the order
    does not exist, and failed-precondition when the order's email is
    empty once trimmed; in both cases it has only read the order, with no
    message handed to the provider and nothing written. The dashboard
    enables the dispatch action only for an order with an email address
    and a send date in the form. *)
Theorem dispatch_preconditions (env : Env) (data : DispatchRequest) (context : CallContext)
    (w : World) :
  isStaffRole (getRoleFromContext context) ->
  requestedCollection data ∈ ["eggOrders"; "livestockOrders"] ->
  requestedOrderId data <> "" ->
  (orders (db w) !! (requestedCollection data, requestedOrderId data) = None ->
     sendDispatchEmail env data context w
     = (Throw (HttpsError not_found "Order not found."),
        afterRead w (requestedCollection data) (requestedOrderId data)))
  /\ (forall order,
        orders (db w) !! (requestedCollection data, requestedOrderId data) = Some order ->
        trim (orElse (email order) "") = "" ->
        sendDispatchEmail env data context w
        = (Throw (HttpsError failed_precondition "Order email is missing."),
           afterRead w (requestedCollection data) (requestedOrderId data)))
  /\ (forall order draftSendDate,
        canSendDispatch order draftSendDate = true
        <-> (exists e, email order = Some e /\ e <> "") /\ draftSendDate <> "").
Proof.
  intros Hstaff Hcoll Hid. refine (conj _ (conj _ _)).
  - apply dispatch_not_found; assumption.
  - intros order. apply dispatch_email_missing; assumption.
  - intros order draft. unfold canSendDispatch. rewrite andb_true_iff. split.
    + intros [He Hd]. split; [| apply truthy_true, Hd].
      destruct (email order) as [e|]; [|discriminate].
      exists e. split; [reflexivity | apply truthy_true, He].
    + intros [(e & -> & Hne) Hd]. split; apply truthy_nonempty; assumption.
Qed.

Lemma dispatch_preconditions_witness :
  sendDispatchEmail liveEnv (dispatchOf "missing") staff emptyWorld
  = (Throw (HttpsError not_found "Order not found."), afterRead emptyWorld "eggOrders" "missing").
Proof.
  refine (proj1 (dispatch_preconditions liveEnv (dispatchOf "missing") staff emptyWorld
                   _ _ _) _).
  - right. right. reflexivity.
  - vm_compute. apply list_elem_of_here.
  - discriminate.
  - reflexivity.
Defined.

(** ** The threshold watcher *)

Section Threshold.

Import QArith_base.

Lemma leq_true (a b : Q) : leq a b = true <-> Qle a b.
Proof. apply Qle_bool_iff. Qed.

Lemma gtr_true (a b : Q) : gtr a b = true <-> Qlt b a.
Proof. unfold gtr, Qlt. apply Z.ltb_lt. Qed.

Lemma leq_false (a b : Q) : leq a b = false <-> Qlt b a.
Proof.
  rewrite <- not_true_iff_false, leq_true. split.
  - apply Qnot_le_lt.
  - intros H1 H2. exact (Qlt_not_le _ _ H1 H2).
Qed.

Lemma gtr_leq (a b : Q) : gtr a b = negb (leq a b).
Proof.
  destruct (leq a b) eqn:H.
  - apply leq_true in H. apply not_true_iff_false. rewrite gtr_true.
    intros H'. exact (Qlt_not_le _ _ H' H).
  - apply leq_false in H. apply gtr_true, H.
Qed.

(** The watcher's decision, one test at a time. *)
Lemma stockAlertSignal_cases (before : option StockItem) (after : StockItem) :
  stockAlertSignal before (Some after)
  = if leq (toNumber Qzero (threshold after)) Qzero then None
    else if match before with
            | Some b => leq (toNumber Qzero (quantity b)) (toNumber Qzero (threshold after))
            | None => false
            end then None
    else if leq (toNumber Qzero (quantity after)) (toNumber Qzero (threshold after))
    then Some {| signalName := itemName after;
                 signalQuantity := toNumber Qzero (quantity after);
                 signalThreshold := toNumber Qzero (threshold after) |}
    else None.
Proof.
  unfold stockAlertSignal.
  destruct (leq (toNumber Qzero (threshold after)) Qzero); [reflexivity|].
  destruct before as [b|]; cbn [fmap option_fmap option_map].
  - rewrite gtr_leq.
    destruct (leq (toNumber Qzero (quantity b)) (toNumber Qzero (threshold after)));
      reflexivity.
  - reflexivity.
Qed.

Lemma positive_threshold (after : StockItem) :
  leq (toNumber Qzero (threshold after)) Qzero = false
  <-> exists t, threshold after = Some (Finite t) /\ Qlt Qzero t.
Proof.
  rewrite leq_false. split.
  - destruct (threshold after) as [[t| | |]|]; cbn;
      try (intros H; exfalso; exact (Qlt_irrefl _ H)).
    intros H. exists t. split; [reflexivity | exact H].
  - intros (t & -> & H). exact H.
Qed.

(** C5. A write emits a signal exactly when the threshold is a finite
    positive number, the new quantity is at or below it, and the item
    either did not exist before or was strictly above it. So a write
    that starts at or below the threshold emits nothing, a threshold that
    is zero, negative or not finite emits nothing, and of the writes
    10, 4, 3 against the threshold 5 only the second emits a signal. *)
Theorem stock_alert_edge_triggered (before : option StockItem) (after : StockItem) :
  (is_Some (stockAlertSignal before (Some after))
   <-> exists t, threshold after = Some (Finite t) /\ Qlt Qzero t
                 /\ Qle (toNumber Qzero (quantity after)) t
                 /\ (before = None
                     \/ exists b, before = Some b /\ Qlt t (toNumber Qzero (quantity b))))
  /\ (forall b, before = Some b ->
        Qle (toNumber Qzero (quantity b)) (toNumber Qzero (threshold after)) ->
        stockAlertSignal before (Some after) = None)
  /\ (Qle (toNumber Qzero (threshold after)) Qzero ->
        stockAlertSignal before (Some after) = None)
  /\ signalsOf None [stockOf 10 5; stockOf 4 5; stockOf 3 5]
     = [ {| signalName := Some "Layer feed"; signalQuantity := inject_Z 4;
            signalThreshold := inject_Z 5 |} ].
Proof.
  rewrite stockAlertSignal_cases. refine (conj _ (conj _ (conj _ _))).
  - split.
    + destruct (leq (toNumber Qzero (threshold after)) Qzero) eqn:Ht;
        [intros [x Hx]; discriminate|].
      apply positive_threshold in Ht as (t & Ht & Hpos). rewrite Ht. cbn [toNumber].
      destruct before as [b|].
      * destruct (leq (toNumber Qzero (quantity b)) t) eqn:Hb; [intros [x Hx]; discriminate|].
        destruct (leq (toNumber Qzero (quantity after)) t) eqn:Ha; [|intros [x Hx]; discriminate].
        intros _. exists t. repeat split; [exact Hpos | apply leq_true, Ha |].
        right. exists b. split; [reflexivity | apply leq_false, Hb].
      * destruct (leq (toNumber Qzero (quantity after)) t) eqn:Ha; [|intros [x Hx]; discriminate].
        intros _. exists t. repeat split; [exact Hpos | apply leq_true, Ha | left; reflexivity].
    + intros (t & Ht & Hpos & Ha & Hb).
      assert (Hthr : leq (toNumber Qzero (threshold after)) Qzero = false)
        by (apply positive_threshold; eauto).
      rewrite Hthr, Ht. cbn [toNumber].
      apply leq_true in Ha. rewrite Ha.
      destruct Hb as [-> | (b & -> & Hb)]; [eexists; reflexivity|].
      apply leq_false in Hb. rewrite Hb. eexists; reflexivity.
  - intros b -> Hb. apply leq_true in Hb. rewrite Hb.
    destruct (leq _ Qzero); reflexivity.
  - intros Ht. apply leq_true in Ht. rewrite Ht. reflexivity.
  - vm_compute. reflexivity.
Qed.

Lemma stock_alert_edge_triggered_witness :
  stockAlertSignal (Some (stockOf 4 5)) (Some (stockOf 3 5)) = None.
Proof.
  apply (proj1 (proj2 (stock_alert_edge_triggered (Some (stockOf 4 5)) (stockOf 3 5)))
           (stockOf 4 5)).
  - reflexivity.
  - unfold Qle. simpl. lia.
Defined.

End Threshold.

(** A signal becomes one message to the admin recipients; without a
    signal the trigger does nothing. *)
Lemma stockThresholdAlert_quiet (env : Env) (before after : option StockItem) (w : World) :
  stockAlertSignal before after = None -> stockThresholdAlert env before after w = (Ok tt, w).
Proof. intros H. unfold stockThresholdAlert. rewrite H. reflexivity. Qed.

Lemma stockThresholdAlert_sends (env : Env) (before after : option StockItem)
    (sig : Signal) (w : World) :
  stockAlertSignal before after = Some sig ->
  getAdminRecipients env <> [] ->
  is_Some (getResendClient env) ->
  (forall m, exists id, transport env m = Response id) ->
  stockThresholdAlert env before after w = (Ok tt, sentTo w [stockAlertEmail env sig]).
Proof.
  intros Hsig Hadmin Hclient Haccept. unfold stockThresholdAlert, sendStockAlert.
  rewrite Hsig. destruct (getAdminRecipients env) as [|a l] eqn:Hl; [congruence|].
  cbn [length Nat.eqb]. destruct (Haccept (stockAlertEmail env sig)) as [id Hid].
  unfold mbind, M_bind, bind.
  rewrite (sendEmail_delivers _ _ _ id Hclient); [reflexivity | | | exact Hid].
  - cbn [stockAlertEmail to]. rewrite Hl. discriminate.
  - apply getAdminRecipients_truthy.
Qed.

Example stockThresholdAlert_crossing :
  length (trace (stockThresholdAlert liveEnv (Some (stockOf 10 5)) (Some (stockOf 4 5))
                   emptyWorld).2) = 1%nat
  /\ stockThresholdAlert liveEnv (Some (stockOf 4 5)) (Some (stockOf 3 5)) emptyWorld
     = (Ok tt, emptyWorld).
Proof. vm_compute. split; reflexivity. Qed.

(** ** The allocation poller *)

Lemma pollFrom_reads_le (getDoc : nat -> Snapshot) (remaining : nat) : forall i,
  (reads (pollFrom getDoc i remaining).2 <= remaining)%nat.
Proof.
  induction remaining as [|r IH]; intros i; cbn [pollFrom]; [reflexivity|].
  destruct (getDoc i) as [msg | f]; [cbn; lia|].
  destruct (truthyField f); [cbn; lia|].
  specialize (IH (S i)). destruct (pollFrom getDoc (S i) r) as [res evs].
  cbn in *. lia.
Qed.

Lemma pollFrom_found (getDoc : nat -> Snapshot) (n : string) (k : nat) :
  forall remaining i,
  (k < remaining)%nat ->
  (forall j, (j < k)%nat -> falsyRead (getDoc (i + j)%nat)) ->
  getDoc (i + k)%nat = SnapshotOf (Some n) -> n <> "" ->
  (pollFrom getDoc i remaining).1 = inr (Some n)
  /\ reads (pollFrom getDoc i remaining).2 = S k.
Proof.
  induction k as [|k IH]; intros remaining i Hk Hfalsy Hfound Hn;
    (destruct remaining as [|r]; [lia|]); cbn [pollFrom].
  - rewrite Nat.add_0_r in Hfound. rewrite Hfound. cbn [truthyField].
    rewrite (truthy_nonempty _ Hn).
    split; reflexivity.
  - destruct (Hfalsy 0%nat ltac:(lia)) as (f & Hf & Hfalse).
    rewrite Nat.add_0_r in Hf. rewrite Hf, Hfalse.
    destruct (IH r (S i)) as [Hres Hreads]; [lia | | | exact Hn |].
    + intros j Hj. replace (S i + j)%nat with (i + S j)%nat by lia. apply Hfalsy. lia.
    + replace (S i + k)%nat with (i + S k)%nat by lia. exact Hfound.
    + destruct (pollFrom getDoc (S i) r) as [res evs]. cbn in *.
      split; [exact Hres | lia].
Qed.

Lemma pollFrom_exhausted (getDoc : nat -> Snapshot) : forall remaining i,
  (forall j, (j < remaining)%nat -> falsyRead (getDoc (i + j)%nat)) ->
  (pollFrom getDoc i remaining).1 = inr None
  /\ reads (pollFrom getDoc i remaining).2 = remaining
  /\ slept (pollFrom getDoc i remaining).2 = (250 * remaining)%nat.
Proof.
  induction remaining as [|r IH]; intros i Hfalsy; cbn [pollFrom].
  - repeat split; reflexivity.
  - destruct (Hfalsy 0%nat ltac:(lia)) as (f & Hf & Hfalse).
    rewrite Nat.add_0_r in Hf. rewrite Hf, Hfalse.
    destruct (IH (S i)) as (Hres & Hreads & Hslept).
    { intros j Hj. replace (S i + j)%nat with (i + S j)%nat by lia. apply Hfalsy. lia. }
    destruct (pollFrom getDoc (S i) r) as [res evs]. cbn in *.
    repeat split; [exact Hres | lia | lia].
Qed.

(** C9. The poller is a total function that reads the order at most
    five times. If the first read that shows a non-empty number is the
    one of attempt [k], the poller returns that number after [k + 1]
    reads. If none of the five reads shows a number, the poller returns
    nothing after exactly five reads, and the form reports success,
    without a number, not an error. *)
Theorem poller_bounded (getDoc : nat -> Snapshot) :
  (reads (pollOrderNumber getDoc).2 <= 5)%nat
  /\ (forall k n,
        (k < 5)%nat ->
        (forall j, (j < k)%nat -> falsyRead (getDoc j)) ->
        getDoc k = SnapshotOf (Some n) -> n <> "" ->
        (pollOrderNumber getDoc).1 = inr (Some n)
        /\ reads (pollOrderNumber getDoc).2 = S k)
  /\ ((forall j, (j < 5)%nat -> falsyRead (getDoc j)) ->
        (pollOrderNumber getDoc).1 = inr None
        /\ reads (pollOrderNumber getDoc).2 = 5%nat
        /\ (1000 <= slept (pollOrderNumber getDoc).2)%nat
        /\ showResult (pollOrderNumber getDoc).1
           = Success None "Order submitted successfully! Thank you for your support.").
Proof.
  unfold pollOrderNumber. refine (conj _ (conj _ _)).
  - apply pollFrom_reads_le.
  - intros k n Hk Hfalsy Hfound Hn. apply pollFrom_found; assumption.
  - intros Hfalsy. destruct (pollFrom_exhausted getDoc 5 0 Hfalsy) as (Hres & Hreads & Hslept).
    rewrite Hres, Hreads, Hslept. repeat split. lia.
Qed.

Lemma poller_bounded_witness :
  ((pollOrderNumber numberedAtThird).1 = inr (Some "#0007")
   /\ reads (pollOrderNumber numberedAtThird).2 = 3%nat)
  /\ (pollOrderNumber neverNumbered).1 = inr None
  /\ reads (pollOrderNumber neverNumbered).2 = 5%nat.
Proof.
  split.
  - apply (proj1 (proj2 (poller_bounded numberedAtThird)) 2%nat "#0007").
    + lia.
    + intros j Hj. exists (Some ""). split; [|reflexivity].
      unfold numberedAtThird. destruct j as [|[|j]]; [reflexivity | reflexivity | lia].
    + reflexivity.
    + discriminate.
  - destruct (proj2 (proj2 (poller_bounded neverNumbered))) as (Hres & Hreads & _).
    + intros j _. exists None. split; reflexivity.
    + split; assumption.
Defined.

(** * Properties of the further functions *)

(** ** Text helpers *)

Lemma append_cons (x : ascii) (a b : string) : String x a ++ b = String x (a ++ b).
Proof. reflexivity. Qed.

Lemma append_assoc (a b c : string) : (a ++ b) ++ c = a ++ b ++ c.
Proof. induction a as [|x a IH]; [reflexivity|]. rewrite !append_cons, IH. reflexivity. Qed.

Lemma append_empty_r (a : string) : a ++ "" = a.
Proof. induction a as [|x a IH]; [reflexivity|]. rewrite append_cons, IH. reflexivity. Qed.

Lemma replaceAll_app (c : ascii) (by_ s t : string) :
  replaceAll c by_ (s ++ t) = replaceAll c by_ s ++ replaceAll c by_ t.
Proof.
  induction s as [|a s IH]; simpl; [reflexivity|].
  rewrite IH. destruct (Ascii.eqb a c).
  - symmetry. apply append_assoc.
  - reflexivity.
Qed.

Lemma occurs_app (c : ascii) (s t : string) :
  occurs c (s ++ t) = occurs c s || occurs c t.
Proof.
  induction s as [|a s IH]; simpl; [reflexivity|].
  rewrite IH. apply orb_assoc.
Qed.

(** Replacing [c] by a text without [c] leaves no [c]. *)
Lemma occurs_replaceAll_same (c : ascii) (by_ s : string) :
  occurs c by_ = false -> occurs c (replaceAll c by_ s) = false.
Proof.
  intros Hby. induction s as [|a s IH]; simpl; [reflexivity|].
  rewrite occurs_app, IH, orb_false_r.
  destruct (Ascii.eqb a c) eqn:E; [exact Hby|]. simpl. rewrite E. reflexivity.
Qed.

(** A replacement by a text without [d] brings no [d] in. *)
Lemma occurs_replaceAll_other (d c : ascii) (by_ s : string) :
  occurs d by_ = false -> occurs d s = false -> occurs d (replaceAll c by_ s) = false.
Proof.
  intros Hby. induction s as [|a s IH]; simpl; [reflexivity|].
  intros H. apply orb_false_iff in H as [Ha Hs].
  rewrite occurs_app, (IH Hs), orb_false_r.
  destruct (Ascii.eqb a c); [exact Hby|]. simpl. rewrite Ha. reflexivity.
Qed.

(** The four characters that delimit markup and attribute values. *)
Lemma escapeHtml_free (c : ascii) (value : option string) :
  occurs c "<>'" = true \/ c = doubleQuote ->
  occurs c (escapeHtml value) = false.
Proof.
  intros Hc. unfold escapeHtml.
  assert (Hcases : c = "<"%char \/ c = ">"%char \/ c = doubleQuote \/ c = "'"%char).
  { destruct Hc as [Hc | Hc]; [|tauto]. cbn [occurs] in Hc.
    repeat (apply orb_true_iff in Hc as [Hc | Hc]; [apply Ascii.eqb_eq in Hc; subst c; tauto|]).
    discriminate Hc. }
  destruct Hcases as [-> | [-> | [-> | ->]]].
  - do 3 (apply occurs_replaceAll_other; [reflexivity|]).
    apply occurs_replaceAll_same. reflexivity.
  - do 2 (apply occurs_replaceAll_other; [reflexivity|]).
    apply occurs_replaceAll_same. reflexivity.
  - apply occurs_replaceAll_other; [reflexivity|].
    apply occurs_replaceAll_same. reflexivity.
  - apply occurs_replaceAll_same. reflexivity.
Qed.

(** X1. The text [escapeHtml] returns holds none of the characters
    [<], [>], the double quote and the apostrophe, whatever the input. *)
Theorem escapeHtml_no_markup (value : option string) :
  occurs "<" (escapeHtml value) = false
  /\ occurs ">" (escapeHtml value) = false
  /\ occurs doubleQuote (escapeHtml value) = false
  /\ occurs "'" (escapeHtml value) = false.
Proof.
  refine (conj _ (conj _ (conj _ _))); apply escapeHtml_free.
  - left. reflexivity.
  - left. reflexivity.
  - right. reflexivity.
  - left. reflexivity.
Qed.

Lemma escapeHtml_app (s t : string) :
  escapeHtml (Some (s ++ t)) = escapeHtml (Some s) ++ escapeHtml (Some t).
Proof.
  unfold escapeHtml.
  assert (H : forall u, orElse (Some u) "" = u) by (intros [|? ?]; reflexivity).
  rewrite !H, !replaceAll_app. reflexivity.
Qed.

Lemma escapeHtml_char (a : ascii) : escapeHtml (Some (String a "")) = escapeChar a.
Proof.
  unfold escapeChar.
  destruct (Ascii.eqb_spec a "&") as [->|H1]; [reflexivity|].
  destruct (Ascii.eqb_spec a "<") as [->|H2]; [reflexivity|].
  destruct (Ascii.eqb_spec a ">") as [->|H3]; [reflexivity|].
  destruct (Ascii.eqb_spec a doubleQuote) as [->|H4]; [reflexivity|].
  destruct (Ascii.eqb_spec a "'") as [->|H5]; [reflexivity|].
  apply Ascii.eqb_neq in H1, H2, H3, H4, H5.
  unfold escapeHtml, orElse, truthy.
  cbn [replaceAll]. rewrite H1. cbn [replaceAll append]. 
  change (String a "" ++ "") with (String a "").
  cbn [replaceAll]. rewrite H2. change (String a "" ++ "") with (String a "").
  cbn [replaceAll]. rewrite H3. change (String a "" ++ "") with (String a "").
  cbn [replaceAll]. rewrite H4. change (String a "" ++ "") with (String a "").
  cbn [replaceAll]. rewrite H5. reflexivity.
Qed.

(** The five replacements, made one after the other on the whole text,
    amount to one substitution per character. *)
Lemma escapeHtml_each (s : string) : escapeHtml (Some s) = escapeEach s.
Proof.
  induction s as [|a s IH]; [reflexivity|].
  change (String a s) with (String a "" ++ s).
  rewrite escapeHtml_app, escapeHtml_char, IH. reflexivity.
Qed.

Lemma escapeChar_cases (a : ascii) :
  (a = "&"%char /\ escapeChar a = "&amp;")
  \/ (a = "<"%char /\ escapeChar a = "&lt;")
  \/ (a = ">"%char /\ escapeChar a = "&gt;")
  \/ (a = doubleQuote /\ escapeChar a = "&quot;")
  \/ (a = "'"%char /\ escapeChar a = "&#39;")
  \/ (a <> "&"%char /\ escapeChar a = String a "").
Proof.
  unfold escapeChar.
  destruct (Ascii.eqb_spec a "&") as [->|H1]; [left; split; reflexivity|].
  destruct (Ascii.eqb_spec a "<") as [->|H2]; [right; left; split; reflexivity|].
  destruct (Ascii.eqb_spec a ">") as [->|H3]; [do 2 right; left; split; reflexivity|].
  destruct (Ascii.eqb_spec a doubleQuote) as [->|H4]; [do 3 right; left; split; reflexivity|].
  destruct (Ascii.eqb_spec a "'") as [->|H5]; [do 4 right; left; split; reflexivity|].
  do 5 right. split; [assumption | reflexivity].
Qed.

Lemma escapeEach_inj (s : string) : forall t, escapeEach s = escapeEach t -> s = t.
Proof.
  induction s as [|a s IH]; intros [|b t] H.
  - reflexivity.
  - exfalso. cbn [escapeEach] in H.
    destruct (escapeChar_cases b) as [[_ E]|[[_ E]|[[_ E]|[[_ E]|[[_ E]|[_ E]]]]]];
      rewrite E in H; discriminate H.
  - exfalso. cbn [escapeEach] in H.
    destruct (escapeChar_cases a) as [[_ E]|[[_ E]|[[_ E]|[[_ E]|[[_ E]|[_ E]]]]]];
      rewrite E in H; discriminate H.
  - cbn [escapeEach] in H.
    destruct (escapeChar_cases a) as [[-> E]|[[-> E]|[[-> E]|[[-> E]|[[-> E]|[Ha E]]]]]];
    destruct (escapeChar_cases b) as [[-> F]|[[-> F]|[[-> F]|[[-> F]|[[-> F]|[Hb F]]]]]];
      rewrite ?E, ?F in H; rewrite ?append_cons in H;
      change (append "" ?x) with x in H;
      try discriminate H;
      try (injection H as H; f_equal; apply IH; exact H);
      try (injection H as H0 H; congruence).
    injection H as H0 H. subst b. f_equal. apply IH. exact H.
Qed.

(** X2. Escaping loses nothing: two texts with the same escaped form
    are the same text. *)
Theorem escapeHtml_injective (s t : string) :
  escapeHtml (Some s) = escapeHtml (Some t) -> s = t.
Proof. rewrite !escapeHtml_each. apply escapeEach_inj. Qed.

Lemma escapeHtml_injective_witness : "Tom & <Jerry>" = "Tom & <Jerry>".
Proof. apply (escapeHtml_injective "Tom & <Jerry>" "Tom & <Jerry>"). reflexivity. Defined.

(** *** Trimming *)

Lemma trimEnd_cons (c : ascii) (r : string) :
  isSpace c = false -> trimEnd (String c r) = String c (trimEnd r).
Proof. intros H. cbn [trimEnd]. rewrite H. destruct (trimEnd r); reflexivity. Qed.

Lemma trimEnd_step (c : ascii) (r : string) :
  trimEnd (String c r)
  = match trimEnd r with
    | EmptyString => if isSpace c then EmptyString else String c EmptyString
    | r' => String c r'
    end.
Proof. reflexivity. Qed.

Lemma trimEnd_idem (s : string) : trimEnd (trimEnd s) = trimEnd s.
Proof.
  induction s as [|c r IH]; [reflexivity|]. rewrite trimEnd_step.
  destruct (trimEnd r) as [|c' r'] eqn:E.
  - destruct (isSpace c) eqn:Hc; [reflexivity|]. cbn [trimEnd]. rewrite Hc. reflexivity.
  - rewrite trimEnd_step, IH. reflexivity.
Qed.

Lemma trimStart_headed (s : string) : headed (trimStart s).
Proof.
  induction s as [|c r IH]; [exact I|]. cbn [trimStart].
  destruct (isSpace c) eqn:Hc; [exact IH | exact Hc].
Qed.

Lemma trimStart_of_headed (s : string) : headed s -> trimStart s = s.
Proof. destruct s as [|c r]; [reflexivity|]. cbn. intros ->. reflexivity. Qed.

Lemma trimEnd_headed (s : string) : headed s -> headed (trimEnd s).
Proof.
  destruct s as [|c r]; [intros _; exact I|]. cbn [headed]. intros Hc.
  rewrite trimEnd_cons by exact Hc. exact Hc.
Qed.

Lemma trim_headed (s : string) : headed (trim s).
Proof. apply trimEnd_headed, trimStart_headed. Qed.

Lemma trim_idem (s : string) : trim (trim s) = trim s.
Proof.
  unfold trim at 1. rewrite trimStart_of_headed by apply trim_headed.
  unfold trim. apply trimEnd_idem.
Qed.

Lemma trimEnd_trim (s : string) : trimEnd (trim s) = trim s.
Proof. unfold trim. apply trimEnd_idem. Qed.

Lemma toLowerCase_app (s t : string) :
  toLowerCase (s ++ t) = toLowerCase s ++ toLowerCase t.
Proof.
  induction s as [|c s IH]; [reflexivity|].
  rewrite append_cons. cbn [toLowerCase]. rewrite IH. reflexivity.
Qed.

Lemma normalizeUrl_cases (value : option string) :
  let url := trim (orElse value "") in
  (url = "" /\ normalizeUrl value = "")
  \/ (url <> "" /\ hasScheme url = true /\ normalizeUrl value = url)
  \/ (url <> "" /\ hasScheme url = false /\ normalizeUrl value = "https://" ++ url).
Proof.
  intros url. unfold normalizeUrl. fold url.
  destruct url as [|c r] eqn:E; [left; split; reflexivity|].
  right. cbn [truthy negb].
  destruct (hasScheme (String c r)); [left | right];
    (split; [discriminate | split; reflexivity]).
Qed.

Lemma hasScheme_https (url : string) : hasScheme ("https://" ++ url) = true.
Proof. unfold hasScheme. rewrite toLowerCase_app. apply orb_true_iff. right. reflexivity. Qed.

Lemma normalizeUrl_shape (value : option string) :
  normalizeUrl value = "" \/ hasScheme (normalizeUrl value) = true.
Proof.
  destruct (normalizeUrl_cases value) as [[_ ->] | [(_ & Hs & ->) | (_ & _ & ->)]].
  - left. reflexivity.
  - right. exact Hs.
  - right. apply hasScheme_https.
Qed.

(** X3. [normalizeUrl] is idempotent, and what it returns is empty or
    begins with [http://] or [https://] (in either case of the
    letters). *)
Theorem normalizeUrl_idempotent (value : option string) :
  normalizeUrl (Some (normalizeUrl value)) = normalizeUrl value
  /\ (normalizeUrl value = "" \/ hasScheme (normalizeUrl value) = true).
Proof.
  split; [|apply normalizeUrl_shape].
  assert (Hor : forall u, orElse (Some u) "" = u) by (intros [|? ?]; reflexivity).
  pose proof (trim_idem (orElse value "")) as Htrim.
  destruct (normalizeUrl_cases value) as [[_ ->] | [(Hne & Hs & ->) | (Hne & _ & ->)]].
  - reflexivity.
  - unfold normalizeUrl. rewrite Hor, Htrim, (truthy_nonempty _ Hne), Hs. reflexivity.
  - assert (Hfull : trim ("https://" ++ trim (orElse value ""))
                    = "https://" ++ trim (orElse value "")).
    { unfold trim at 1. rewrite !append_cons.
      rewrite trimStart_of_headed by reflexivity.
      rewrite !trimEnd_cons by reflexivity.
      change (append "" (trim (orElse value ""))) with (trim (orElse value "")).
      rewrite trimEnd_trim. reflexivity. }
    unfold normalizeUrl. rewrite Hor, Hfull, hasScheme_https. reflexivity.
Qed.

(** X4. The name [getCustomerName] returns is never empty and carries
    no white space at either end. *)
Theorem getCustomerName_shown (order : Order) :
  getCustomerName order <> "" /\ trim (getCustomerName order) = getCustomerName order.
Proof.
  unfold getCustomerName.
  destruct (truthy (trim (join " " (presentFields [name order; surname order])))) eqn:Ht.
  - split; [apply truthy_true, Ht | apply trim_idem].
  - split; [discriminate | reflexivity].
Qed.

(** ** Roles *)

Lemma requireAdmin_passes (context : CallContext) (w : World) :
  isAdminRole (getRoleFromContext context) -> requireAdmin context w = (Ok tt, w).
Proof. intros [H | H]; unfold requireAdmin; rewrite H; reflexivity. Qed.

Lemma requireAdmin_rejects (context : CallContext) (w : World) :
  ~ isAdminRole (getRoleFromContext context) ->
  requireAdmin context w = (Throw (HttpsError permission_denied "Admin access required."), w).
Proof.
  intros H. unfold requireAdmin, isAdminRole in *.
  rewrite !bool_decide_eq_true_2; [reflexivity | tauto | tauto].
Qed.

Lemma requireStaff_rejects (context : CallContext) (w : World) :
  ~ isStaffRole (getRoleFromContext context) ->
  requireStaff context w = (Throw (HttpsError permission_denied "Staff access required."), w).
Proof.
  intros H. unfold requireStaff, isStaffRole in *.
  rewrite !bool_decide_eq_true_2; [reflexivity | tauto | tauto | tauto].
Qed.

(** X5. Who passes [requireAdmin]: a caller whose role claim is [admin]
    or [super_admin], or a caller without role claim (missing or empty)
    whose lower-cased email is a bootstrap admin. A role claim overrides
    the bootstrap list. Everybody else gets [permission-denied], and
    whoever passes [requireAdmin] passes [requireStaff]. *)
Theorem requireAdmin_characterised (context : CallContext) (w : World) :
  (requireAdmin context w = (Ok tt, w)
   <-> (tokenRole context = Some "admin" \/ tokenRole context = Some "super_admin"
        \/ (truthyField (tokenRole context) = false
            /\ exists e, tokenEmail context = Some e /\ toLowerCase e ∈ BOOTSTRAP_ADMINS)))
  /\ (requireAdmin context w = (Ok tt, w)
      \/ requireAdmin context w
         = (Throw (HttpsError permission_denied "Admin access required."), w))
  /\ (requireAdmin context w = (Ok tt, w) -> requireStaff context w = (Ok tt, w)).
Proof.
  assert (Hrole : isAdminRole (getRoleFromContext context)
                  <-> (tokenRole context = Some "admin" \/ tokenRole context = Some "super_admin"
                       \/ (truthyField (tokenRole context) = false
                           /\ exists e, tokenEmail context = Some e
                                        /\ toLowerCase e ∈ BOOTSTRAP_ADMINS))).
  { unfold isAdminRole, getRoleFromContext.
    destruct (truthyField (tokenRole context)) eqn:Ht.
    - split; [tauto|]. intros [H | [H | [H _]]]; [tauto | tauto | discriminate].
    - destruct (tokenEmail context) as [e|].
      + destruct (bool_decide (toLowerCase e ∈ BOOTSTRAP_ADMINS)) eqn:Hb.
        * apply bool_decide_eq_true_1 in Hb. split.
          -- intros _. right. right. split; [reflexivity|]. exists e. split; [reflexivity|exact Hb].
          -- intros _. left. reflexivity.
        * apply bool_decide_eq_false_1 in Hb. split.
          -- intros [H | H]; discriminate.
          -- intros [H | [H | [_ (e' & He & Hin)]]].
             ++ rewrite H in Ht. discriminate.
             ++ rewrite H in Ht. discriminate.
             ++ injection He as <-. contradiction.
      + rewrite bool_decide_eq_false_2.
        * split.
          -- intros [H | H]; discriminate.
          -- intros [H | [H | [_ (e' & He & Hin)]]].
             ++ rewrite H in Ht. discriminate.
             ++ rewrite H in Ht. discriminate.
             ++ discriminate.
        * vm_compute. intros H. repeat (apply elem_of_cons in H as [H | H]; [discriminate|]).
          apply elem_of_nil in H. exact H. }
  assert (Hdec : isAdminRole (getRoleFromContext context)
                 \/ ~ isAdminRole (getRoleFromContext context)).
  { unfold isAdminRole.
    destruct (decide (getRoleFromContext context = Some "admin")); [tauto|].
    destruct (decide (getRoleFromContext context = Some "super_admin")); tauto. }
  refine (conj _ (conj _ _)).
  - rewrite <- Hrole. split.
    + intros H. destruct Hdec as [Ha | Hn]; [exact Ha|].
      rewrite (requireAdmin_rejects _ _ Hn) in H. discriminate.
    + apply requireAdmin_passes.
  - destruct Hdec as [Ha | Hn].
    + left. apply requireAdmin_passes, Ha.
    + right. apply requireAdmin_rejects, Hn.
  - intros H. destruct Hdec as [Ha | Hn].
    + apply requireStaff_passes. destruct Ha; [left | right; left]; assumption.
    + rewrite (requireAdmin_rejects _ _ Hn) in H. discriminate.
Qed.

(** ** The dispatch callable: refusals and the order of its effects *)

(** X6. A call that is refused before the order is read leaves the
    store and the trace as they were: a caller who is not staff gets
    [permission-denied], a staff caller naming another collection than
    the two order collections, or no order id, gets [invalid-argument];
    the role is checked first. *)
Theorem dispatch_refused_untouched (env : Env) (data : DispatchRequest)
    (context : CallContext) (w : World) :
  (~ isStaffRole (getRoleFromContext context) ->
     sendDispatchEmail env data context w
     = (Throw (HttpsError permission_denied "Staff access required."), w))
  /\ (isStaffRole (getRoleFromContext context) ->
      requestedCollection data ∉ ["eggOrders"; "livestockOrders"] ->
      sendDispatchEmail env data context w
      = (Throw (HttpsError invalid_argument "Invalid collection name."), w))
  /\ (isStaffRole (getRoleFromContext context) ->
      requestedCollection data ∈ ["eggOrders"; "livestockOrders"] ->
      requestedOrderId data = "" ->
      sendDispatchEmail env data context w
      = (Throw (HttpsError invalid_argument "Order id is required."), w)).
Proof.
  refine (conj _ (conj _ _)).
  - intros Hn. unfold sendDispatchEmail.
    unfold mbind at 1, M_bind at 1, bind at 1.
    rewrite requireStaff_rejects by exact Hn. reflexivity.
  - intros Hs Hc. unfold sendDispatchEmail.
    unfold mbind at 1, M_bind at 1, bind at 1.
    rewrite requireStaff_passes by exact Hs.
    rewrite bool_decide_eq_false_2 by exact Hc. reflexivity.
  - intros Hs Hc Hid. unfold sendDispatchEmail.
    unfold mbind at 1, M_bind at 1, bind at 1.
    rewrite requireStaff_passes by exact Hs.
    rewrite bool_decide_eq_true_2 by exact Hc. rewrite Hid. reflexivity.
Qed.

Lemma dispatchEmail_to (order : Order) :
  trim (orElse (email order) "") <> "" ->
  List.filter truthy (to (dispatchEmail order)) = to (dispatchEmail order).
Proof.
  intros H. cbn [dispatchEmail to List.filter]. rewrite (truthy_nonempty _ H). reflexivity.
Qed.

(** X7. For an order with an email address, a well-formed call of a
    staff member reads the order, hands one message to the provider,
    addressed to the trimmed address, and only then marks the order as
    notified. When the provider key is missing, or the call to the
    provider throws (its promise is rejected), the call fails and the
    order is not marked. When the provider answers, whatever its answer
    holds, also an answer that reports an error and carries no message
    id, the order is marked as notified. *)
Theorem dispatch_recorded_after_send (env : Env) (data : DispatchRequest)
    (context : CallContext) (w : World) (order : Order) :
  isStaffRole (getRoleFromContext context) ->
  requestedCollection data ∈ ["eggOrders"; "livestockOrders"] ->
  requestedOrderId data <> "" ->
  orders (db w) !! (requestedCollection data, requestedOrderId data) = Some order ->
  trim (orElse (email order) "") <> "" ->
  let c := requestedCollection data in
  let i := requestedOrderId data in
  (getResendClient env = None ->
     sendDispatchEmail env data context w = (Throw notConfigured, afterRead w c i))
  /\ (forall msg, is_Some (getResendClient env) ->
        transport env (dispatchEmail order) = Rejected msg ->
        sendDispatchEmail env data context w
        = (Throw (TransportError msg), sentTo (afterRead w c i) [dispatchEmail order]))
  /\ (forall id, is_Some (getResendClient env) ->
        transport env (dispatchEmail order) = Response id ->
        sendDispatchEmail env data context w
        = (Ok (match id with Some s => if truthy s then Some s else None | None => None end),
           dispatchRecorded (sentTo (afterRead w c i) [dispatchEmail order]) c i)).
Proof.
  intros Hstaff Hcoll Hid Hsome Hmail c i.
  assert (Ht : truthy (trim (orElse (email order) "")) = true) by (apply truthy_nonempty, Hmail).
  refine (conj _ (conj _ _)).
  - intros Hkey. enter_dispatch Hstaff Hcoll Hid. rewrite Hsome, Ht. cbn [negb].
    unfold sendEmail. rewrite Hkey. reflexivity.
  - intros msg [k Hkey] Hrej. enter_dispatch Hstaff Hcoll Hid. rewrite Hsome, Ht. cbn [negb].
    unfold sendEmail. rewrite Hkey. cbn [to List.filter]. rewrite Ht. cbn [length Nat.eqb].
    run. cbn [subject html].
    change {| to := [trim (orElse (email order) "")]; subject := _; html := DispatchHtml order |}
      with (dispatchEmail order).
    rewrite Hrej. reflexivity.
  - intros id [k Hkey] Hok. enter_dispatch Hstaff Hcoll Hid. rewrite Hsome, Ht. cbn [negb].
    unfold sendEmail. rewrite Hkey. cbn [to List.filter]. rewrite Ht. cbn [length Nat.eqb].
    run. cbn [subject html].
    change {| to := [trim (orElse (email order) "")]; subject := _; html := DispatchHtml order |}
      with (dispatchEmail order).
    rewrite Hok. reflexivity.
Qed.

Lemma dispatch_recorded_after_send_witness :
  sendDispatchEmail liveEnv (dispatchOf "o1") staff {| db := oneOrderDb; trace := [] |}
  = (Ok (Some "msg-1"),
     dispatchRecorded
       (sentTo (afterRead {| db := oneOrderDb; trace := [] |} "eggOrders" "o1")
          [dispatchEmail pendingOrder])
       "eggOrders" "o1").
Proof.
  refine (proj2 (proj2 (dispatch_recorded_after_send liveEnv (dispatchOf "o1") staff
                          {| db := oneOrderDb; trace := [] |} pendingOrder _ _ _ _ _))
            (Some "msg-1") _ _).
  - right. right. reflexivity.
  - vm_compute. apply list_elem_of_here.
  - discriminate.
  - vm_compute. reflexivity.
  - discriminate.
  - exists "re_key". reflexivity.
  - reflexivity.
Defined.

(** ** Handlers that only send *)

Lemma onlySends_le {A} (n k : nat) (m : M A) :
  (n <= k)%nat -> onlySends n m -> onlySends k m.
Proof.
  intros Hle H w. destruct (H w) as (sent & Hlen & Hw).
  exists sent. split; [lia | exact Hw].
Qed.

Lemma onlySends_ret {A} (a : A) : onlySends 0 (mret a : M A).
Proof. intros w. exists []. split; [reflexivity|]. rewrite sentTo_nil. reflexivity. Qed.

Lemma onlySends_throw {A} (e : Error) : onlySends 0 (throw e : M A).
Proof. intros w. exists []. split; [reflexivity|]. rewrite sentTo_nil. reflexivity. Qed.

Lemma onlySends_bind {A B} (n k : nat) (m : M A) (f : A -> M B) :
  onlySends n m -> (forall a, onlySends k (f a)) -> onlySends (n + k) (m ≫= f).
Proof.
  intros Hm Hf w. unfold mbind, M_bind, bind.
  destruct (Hm w) as (s1 & Hl1 & Hw1).
  destruct (m w) as [[a | e] w1] eqn:E; cbn [snd] in Hw1; subst w1.
  - destruct (Hf a (sentTo w s1)) as (s2 & Hl2 & Hw2).
    exists (s1 ++ s2)%list. split; [rewrite length_app; lia|].
    rewrite Hw2. apply sentTo_app.
  - exists s1. split; [lia | reflexivity].
Qed.

Lemma onlySends_sendEmail (env : Env) (message : Email) : onlySends 1 (sendEmail env message).
Proof.
  unfold sendEmail. destruct (getResendClient env).
  - destruct (length (List.filter truthy (to message)) =? 0)%nat.
    + apply (onlySends_le 0); [lia | apply onlySends_ret].
    + intros w. eexists [_]. split; [reflexivity|].
      run. destruct (transport env _); reflexivity.
  - apply (onlySends_le 0); [lia | apply onlySends_throw].
Qed.

Lemma onlySends_when {A} (n : nat) (cond : bool) (m : M A) :
  onlySends n m -> onlySends n (when cond m).
Proof.
  intros H. unfold when. destruct cond.
  - replace n with (n + 0)%nat by lia. apply onlySends_bind; [exact H|].
    intros _. apply onlySends_ret.
  - apply (onlySends_le 0); [lia | apply onlySends_ret].
Qed.

(** X8. A status change never writes to the store: whatever the two
    versions of the order and the configuration, and whether the
    provider accepts, rejects or is not configured, the trigger leaves
    the store as it was and hands at most two messages to the provider. *)
Theorem onStatusChange_only_sends (collectionName : string) (env : Env)
    (before after : Order) :
  onlySends 2 (onStatusChange collectionName env before after).
Proof.
  unfold onStatusChange. destruct (bool_decide _).
  - apply (onlySends_le 0); [lia | apply onlySends_ret].
  - unfold sendOrderStatusEmails. destruct (_ || _).
    + apply (onlySends_le 0); [lia | apply onlySends_ret].
    + change 2%nat with (1 + 1)%nat. apply onlySends_bind.
      * apply onlySends_when, onlySends_sendEmail.
      * intros _. apply onlySends_when, onlySends_sendEmail.
Qed.

(** X9. A write of a stock item never changes the store through the
    watcher and produces at most one message, whatever the two versions
    of the item and whether or not the provider accepts. *)
Theorem stockThresholdAlert_only_sends (env : Env) (before after : option StockItem) :
  onlySends 1 (stockThresholdAlert env before after).
Proof.
  unfold stockThresholdAlert. destruct (stockAlertSignal before after) as [sig|].
  - unfold sendStockAlert. destruct (_ =? _)%nat.
    + apply (onlySends_le 0); [lia | apply onlySends_ret].
    + replace 1%nat with (1 + 0)%nat by lia. apply onlySends_bind.
      * apply onlySends_sendEmail.
      * intros _. apply onlySends_ret.
  - apply (onlySends_le 0); [lia | apply onlySends_ret].
Qed.

(** ** Order-created notifications *)

Section RenderedProperties.

Variable render : Template -> string.

Lemma sendOrderCreatedEmails_delivers (env : Env) (order : Order)
    (orderId collectionName : string) (w : World) :
  accepting env ->
  sendOrderCreatedEmails render env order orderId collectionName w
  = (Ok tt, sentTo w (createdEmails render env order orderId collectionName)).
Proof.
  intros [Hkey Hacc]. unfold sendOrderCreatedEmails, createdEmails.
  unfold mbind, M_bind, bind.
  destruct (truthyField (email order)) eqn:He.
  - destruct (Hacc (orderCreatedCustomerEmail render order collectionName)) as [id1 H1].
    unfold when at 1. unfold mbind, M_bind, bind.
    rewrite (sendEmail_delivers env _ w id1 Hkey); [| discriminate | | exact H1].
    + cbn [mret M_ret ret].
      destruct (0 <? length (getAdminRecipients env))%nat eqn:Hr.
      * destruct (Hacc (orderCreatedAdminEmail render env order collectionName orderId))
          as [id2 H2].
        unfold when. unfold mbind, M_bind, bind.
        rewrite (sendEmail_delivers env _ _ id2 Hkey); [| | | exact H2].
        -- cbn [mret M_ret ret]. rewrite sentTo_app. reflexivity.
        -- cbn [to orderCreatedAdminEmail]. intros Hnil. rewrite Hnil in Hr. discriminate.
        -- apply getAdminRecipients_truthy.
      * cbn [when mret M_ret ret]. rewrite app_nil_r. reflexivity.
    + cbn [to orderCreatedCustomerEmail]. constructor; [|constructor].
      destruct (email order); [exact He | discriminate].
  - cbn [when mret M_ret ret app].
    destruct (0 <? length (getAdminRecipients env))%nat eqn:Hr.
    + destruct (Hacc (orderCreatedAdminEmail render env order collectionName orderId))
        as [id2 H2].
      unfold when. unfold mbind, M_bind, bind.
      rewrite (sendEmail_delivers env _ _ id2 Hkey); [| | | exact H2].
      * reflexivity.
      * cbn [to orderCreatedAdminEmail]. intros Hnil. rewrite Hnil in Hr. discriminate.
      * apply getAdminRecipients_truthy.
    + cbn [when mret M_ret ret]. rewrite sentTo_nil. reflexivity.
Qed.

Lemma db_sentTo (w : World) (l : list Email) : db (sentTo w l) = db w.
Proof. reflexivity. Qed.

(** X10. The creation of an order without number, with the provider
    accepting: the trigger runs the transaction, writes the formatted
    number on the order and then hands over the customer message (when
    the order has an email address) and the admin message (when there
    are admin recipients), both composed from the order with its new
    number; nothing else is done. *)
Theorem onOrderCreate_allocates_then_sends (collectionName : string) (env : Env)
    (orderId : string) (order : Order) (w : World) :
  truthyField (orderNumber order) = false ->
  accepting env ->
  onOrderCreate render collectionName env orderId order w
  = (Ok tt,
     sentTo (numberAssigned collectionName orderId w)
       (createdEmails render env
          (withOrderNumber order
             (Some (formatOrderNumber (plusOne (lastRead collectionName (db w))))))
          orderId collectionName)).
Proof.
  intros Hn Hacc. unfold onOrderCreate.
  unfold mbind at 1, M_bind at 1, bind at 1.
  rewrite (ensureOrderNumber_unnumbered _ _ _ _ Hn).
  apply sendOrderCreatedEmails_delivers, Hacc.
Qed.

(** X11. The trigger judges the snapshot it was handed, not the stored
    order: delivered a second time for the same creation, with the
    provider accepting and the number [n] read by the first allocation
    at least 0 and at most 2^53 - 2, it allocates again, and the order
    ends with the second number, one above the first; the counter has
    advanced by two. *)
Theorem onOrderCreate_redelivered (collectionName : string) (env : Env)
    (orderId : string) (order : Order) (w : World) (n : Z) :
  truthyField (orderNumber order) = false ->
  accepting env ->
  lastRead collectionName (db w) = Finite n ->
  0 <= n -> n + 2 <= 2 ^ 53 ->
  exists w1 w2,
    onOrderCreate render collectionName env orderId order w = (Ok tt, w1)
    /\ onOrderCreate render collectionName env orderId order w1 = (Ok tt, w2)
    /\ numberAt (db w1) (collectionName, orderId) = Some (formatOrderNumber (Finite (n + 1)))
    /\ numberAt (db w2) (collectionName, orderId) = Some (formatOrderNumber (Finite (n + 2)))
    /\ formatOrderNumber (Finite (n + 1)) <> formatOrderNumber (Finite (n + 2))
    /\ lastRead collectionName (db w2) = Finite (n + 2).
Proof.
  intros Hn Hacc Hread Hpos Hsafe.
  assert (Hrun : forall w0,
            onOrderCreate render collectionName env orderId order w0
            = (Ok tt,
               sentTo (numberAssigned collectionName orderId w0)
                 (createdEmails render env
                    (withOrderNumber order
                       (Some (formatOrderNumber (plusOne (lastRead collectionName (db w0))))))
                    orderId collectionName))).
  { intros w0. unfold onOrderCreate. unfold mbind at 1, M_bind at 1, bind at 1.
    rewrite (ensureOrderNumber_unnumbered _ _ _ _ Hn).
    apply sendOrderCreatedEmails_delivers, Hacc. }
  assert (Hfirst : plusOne (lastRead collectionName (db w)) = Finite (n + 1)).
  { rewrite Hread. apply plusOne_exact. lia. }
  assert (Hsecond : plusOne (Finite (n + 1)) = Finite (n + 2)).
  { rewrite plusOne_exact by lia. f_equal. lia. }
  eexists _, _. refine (conj _ (conj _ (conj _ (conj _ (conj _ _))))).
  - apply Hrun.
  - apply Hrun.
  - rewrite db_sentTo, numberAt_numberAssigned, Hfirst. reflexivity.
  - rewrite db_sentTo, numberAt_numberAssigned, db_sentTo, lastRead_numberAssigned.
    rewrite Hfirst. cbn [valueOf toNumber]. rewrite Hsecond. reflexivity.
  - intros H. apply formatOrderNumber_inj in H; lia.
  - rewrite db_sentTo, lastRead_numberAssigned, db_sentTo, lastRead_numberAssigned.
    rewrite Hfirst. cbn [valueOf toNumber]. rewrite Hsecond. reflexivity.
Qed.

(** X12. The number is assigned before anything is sent: with no
    provider key, the creation of an order without number that has an
    email address, or admin recipients, makes the trigger fail, and by
    then the counter has advanced and the number is on the order. *)
Theorem onOrderCreate_fails_after_numbering (collectionName : string) (env : Env)
    (orderId : string) (order : Order) (w : World) :
  truthyField (orderNumber order) = false ->
  getResendClient env = None ->
  truthyField (email order) = true \/ getAdminRecipients env <> [] ->
  onOrderCreate render collectionName env orderId order w
  = (Throw notConfigured, numberAssigned collectionName orderId w).
Proof.
  intros Hn Hkey Hsome. unfold onOrderCreate.
  unfold mbind at 1, M_bind at 1, bind at 1.
  rewrite (ensureOrderNumber_unnumbered _ _ _ _ Hn).
  unfold sendOrderCreatedEmails. unfold mbind, M_bind, bind.
  cbn [email withOrderNumber].
  destruct (truthyField (email order)) eqn:He.
  - unfold when at 1. unfold mbind, M_bind, bind.
    rewrite sendEmail_not_configured by exact Hkey. reflexivity.
  - cbn [when mret M_ret ret].
    destruct Hsome as [Hc | Hr]; [discriminate|].
    destruct (getAdminRecipients env) as [|a l] eqn:Hl; [congruence|].
    cbn [length Nat.ltb Nat.leb when]. unfold mbind, M_bind, bind.
    rewrite sendEmail_not_configured by exact Hkey. reflexivity.
Qed.

(** X13. The creation of an order that already carries a number reads
    and writes no counter and no order: the trigger only sends, at most
    two messages. *)
Theorem onOrderCreate_numbered_only_sends (collectionName : string) (env : Env)
    (orderId : string) (order : Order) (n : string) :
  orderNumber order = Some n -> n <> "" ->
  onlySends 2 (onOrderCreate render collectionName env orderId order).
Proof.
  intros Hn Hne. unfold onOrderCreate.
  change 2%nat with (0 + 2)%nat. apply onlySends_bind.
  - intros w. exists []. split; [reflexivity|].
    unfold ensureOrderNumber. rewrite Hn, (truthy_nonempty _ Hne).
    rewrite sentTo_nil. reflexivity.
  - intros f. unfold sendOrderCreatedEmails.
    change 2%nat with (1 + 1)%nat. apply onlySends_bind.
    + apply onlySends_when, onlySends_sendEmail.
    + intros _. apply onlySends_when, onlySends_sendEmail.
Qed.

End RenderedProperties.

Lemma accepting_liveEnv : accepting liveEnv.
Proof.
  split; [exists "re_key"; reflexivity | intros message; exists (Some "msg-1"); reflexivity].
Qed.

Lemma onOrderCreate_allocates_then_sends_witness :
  emailOnOrderCreate plainRender liveEnv "o1" newOrder emptyWorld
  = (Ok tt,
     sentTo (numberAssigned "eggOrders" "o1" emptyWorld)
       (createdEmails plainRender liveEnv (withOrderNumber newOrder (Some "#0001"))
          "o1" "eggOrders")).
Proof.
  apply (onOrderCreate_allocates_then_sends plainRender "eggOrders" liveEnv "o1" newOrder
           emptyWorld).
  - reflexivity.
  - split; [exists "re_key"; reflexivity | intros message; exists (Some "msg-1"); reflexivity].
Defined.

Lemma onOrderCreate_redelivered_witness :
  exists w1 w2,
    emailOnOrderCreate plainRender liveEnv "o1" newOrder emptyWorld = (Ok tt, w1)
    /\ emailOnOrderCreate plainRender liveEnv "o1" newOrder w1 = (Ok tt, w2)
    /\ numberAt (db w1) ("eggOrders", "o1") = Some "#0001"
    /\ numberAt (db w2) ("eggOrders", "o1") = Some "#0002"
    /\ "#0001" <> "#0002"
    /\ lastRead "eggOrders" (db w2) = Finite 2.
Proof.
  apply (onOrderCreate_redelivered plainRender "eggOrders" liveEnv "o1" newOrder emptyWorld 0).
  - reflexivity.
  - split; [exists "re_key"; reflexivity | intros message; exists (Some "msg-1"); reflexivity].
  - reflexivity.
  - lia.
  - vm_compute. discriminate.
Defined.

Lemma onOrderCreate_fails_after_numbering_witness :
  emailOnOrderCreate plainRender bareEnv "o1" newOrder emptyWorld
  = (Throw notConfigured, numberAssigned "eggOrders" "o1" emptyWorld).
Proof.
  apply (onOrderCreate_fails_after_numbering plainRender "eggOrders" bareEnv "o1" newOrder
           emptyWorld).
  - reflexivity.
  - reflexivity.
  - left. reflexivity.
Defined.

Lemma onOrderCreate_numbered_only_sends_witness :
  exists sent,
    (length sent <= 2)%nat
    /\ (emailOnOrderCreate plainRender liveEnv "o1" pendingOrder emptyWorld).2
       = sentTo emptyWorld sent.
Proof.
  apply (onOrderCreate_numbered_only_sends plainRender "eggOrders" liveEnv "o1" pendingOrder
           "#0007").
  - reflexivity.
  - discriminate.
Defined.

(** ** Handlers that never write *)

Lemma neverWrites_ret {A} (a : A) : neverWrites (mret a : M A).
Proof. intros w. reflexivity. Qed.

Lemma neverWrites_throw {A} (e : Error) : neverWrites (throw e : M A).
Proof. intros w. reflexivity. Qed.

Lemma neverWrites_bind {A B} (m : M A) (f : A -> M B) :
  neverWrites m -> (forall a, neverWrites (f a)) -> neverWrites (m ≫= f).
Proof.
  intros Hm Hf w. unfold mbind, M_bind, bind.
  pose proof (Hm w) as H1. destruct (m w) as [[a | e] w1]; cbn [snd] in H1.
  - rewrite Hf. exact H1.
  - exact H1.
Qed.

Lemma neverWrites_onlySends {A} (n : nat) (m : M A) : onlySends n m -> neverWrites m.
Proof. intros H w. destruct (H w) as (sent & _ & ->). reflexivity. Qed.

Lemma neverWrites_docGet (collectionName id : string) : neverWrites (docGet collectionName id).
Proof. intros w. reflexivity. Qed.

Lemma neverWrites_requireAdmin (context : CallContext) : neverWrites (requireAdmin context).
Proof. intros w. unfold requireAdmin. destruct (_ && _); reflexivity. Qed.

(** ** The correction mailing *)

Section MailingProperties.

Variable render : Template -> string.

Lemma neverWrites_legacyLoop (env : Env) (collectionName subject message : string)
    (orderIds : list string) : forall results,
  neverWrites (legacyLoop render env collectionName subject message orderIds results).
Proof.
  induction orderIds as [|orderId rest IH]; intros results; cbn [legacyLoop].
  - apply neverWrites_ret.
  - apply neverWrites_bind; [apply neverWrites_docGet|].
    intros [order|]; [|apply IH].
    destruct (negb _); [apply IH|].
    apply neverWrites_bind.
    + apply (neverWrites_onlySends 1), onlySends_sendEmail.
    + intros result. apply IH.
Qed.

(** X14. The correction mailing never writes to the store: whatever the
    request, the caller and the provider do, the store is the same after
    the call as before. *)
Theorem sendLegacyCorrectionEmails_never_writes (env : Env) (data : LegacyRequest)
    (context : CallContext) :
  neverWrites (sendLegacyCorrectionEmails render env data context).
Proof.
  unfold sendLegacyCorrectionEmails.
  apply neverWrites_bind; [apply neverWrites_requireAdmin|]. intros _.
  destruct (_ =? _)%nat; [apply neverWrites_throw|].
  apply neverWrites_bind; [apply neverWrites_legacyLoop|].
  intros results. apply neverWrites_ret.
Qed.

Lemma legacyOps_cons (d : Db) (collectionName subject message orderId : string)
    (rest : list string) :
  legacyOps render d collectionName subject message (orderId :: rest)
  = (DocGet collectionName orderId ::
     match legacyTarget d collectionName orderId with
     | Some order => [TransportSend (legacyCorrectionEmail render subject message order)]
     | None => []
     end ++ legacyOps render d collectionName subject message rest)%list.
Proof. reflexivity. Qed.

Lemma legacyLoop_run (env : Env) (collectionName subject message : string)
    (orderIds : list string) :
  accepting env -> forall results w,
  legacyLoop render env collectionName subject message orderIds results w
  = (Ok (results ++ legacyResults render env (db w) collectionName subject message orderIds)%list,
     {| db := db w;
        trace := (trace w
                  ++ legacyOps render (db w) collectionName subject message orderIds)%list |}).
Proof.
  intros [Hkey Hacc].
  induction orderIds as [|orderId rest IH]; intros results w.
  - cbn. rewrite !app_nil_r. destruct w; reflexivity.
  - rewrite legacyOps_cons. unfold legacyResults. cbn [omap list_omap]. 
    fold (legacyResults render env (db w) collectionName subject message rest).
    cbn [legacyLoop].
    unfold mbind at 1, M_bind at 1, bind at 1. unfold docGet at 1. run.
    unfold legacyTarget.
    destruct (orders (db w) !! (collectionName, orderId)) as [order|].
    + destruct (truthyField (email order)) eqn:He; cbn [negb].
      * destruct (Hacc (legacyCorrectionEmail render subject message order)) as [id Hid].
        rewrite (sendEmail_delivers env _ _ id Hkey); cycle 1.
        -- discriminate.
        -- cbn [to legacyCorrectionEmail]. constructor; [|constructor].
           destruct (email order); [exact He | discriminate].
        -- exact Hid.
        -- rewrite IH. cbn [db trace sentTo fmap list_fmap]. rewrite Hid.
           rewrite <- !app_assoc. reflexivity.
      * rewrite IH. cbn [db trace]. rewrite <- app_assoc. reflexivity.
    + rewrite IH. cbn [db trace]. rewrite <- app_assoc. reflexivity.
Qed.

(** X15. The correction mailing of an admin, with the provider
    accepting: the ids are taken in the order listed; each is read once,
    and each one whose order exists and has an email address is mailed
    once, right after its read, at that address; an id listed twice is
    mailed twice. The call returns one result per message, and [sent] is
    the number of listed ids whose order exists with an email address. *)
Theorem sendLegacyCorrectionEmails_mails_each (env : Env) (data : LegacyRequest)
    (context : CallContext) (w : World) :
  isAdminRole (getRoleFromContext context) ->
  legOrderIds data <> [] ->
  accepting env ->
  let collectionName := orElse (legCollectionName data) "eggOrders" in
  let subject := orElse (legSubject data) "Order update from The Crooked Fence" in
  let message := orElse (legMessage data) "Please note an update to your order." in
  let results :=
    legacyResults render env (db w) collectionName subject message (legOrderIds data) in
  sendLegacyCorrectionEmails render env data context w
  = (Ok (length results, results),
     {| db := db w;
        trace := (trace w ++ legacyOps render (db w) collectionName subject message
                               (legOrderIds data))%list |})
  /\ length results
     = length (List.filter
                 (fun orderId => bool_decide (is_Some (legacyTarget (db w) collectionName orderId)))
                 (legOrderIds data)).
Proof.
  intros Hadmin Hids Hacc collectionName subject message results. split.
  - unfold sendLegacyCorrectionEmails.
    unfold mbind at 1, M_bind at 1, bind at 1.
    rewrite requireAdmin_passes by exact Hadmin.
    destruct (legOrderIds data) as [|i ids] eqn:E; [congruence|].
    cbn [length Nat.eqb]. unfold mbind, M_bind, bind.
    fold collectionName subject message.
    rewrite (legacyLoop_run env collectionName subject message (i :: ids) Hacc).
    reflexivity.
  - subst results. unfold legacyResults. clear Hids.
    induction (legOrderIds data) as [|i ids IH]; [reflexivity|].
    cbn [omap list_omap List.filter].
    destruct (legacyTarget (db w) collectionName i) as [order|].
    + rewrite bool_decide_eq_true_2 by (eexists; reflexivity).
      cbn [length]. f_equal. exact IH.
    + rewrite bool_decide_eq_false_2 by (intros [? ?]; discriminate). exact IH.
Qed.

(** X16. The correction mailing refuses, with the store and the trace
    untouched, a caller who is not an admin ([permission-denied]) and a
    request without order ids ([invalid-argument]). *)
Theorem sendLegacyCorrectionEmails_refused (env : Env) (data : LegacyRequest)
    (context : CallContext) (w : World) :
  (~ isAdminRole (getRoleFromContext context) ->
     sendLegacyCorrectionEmails render env data context w
     = (Throw (HttpsError permission_denied "Admin access required."), w))
  /\ (isAdminRole (getRoleFromContext context) ->
      legOrderIds data = [] ->
      sendLegacyCorrectionEmails render env data context w
      = (Throw (HttpsError invalid_argument "Order ids are required."), w)).
Proof.
  split.
  - intros Hn. unfold sendLegacyCorrectionEmails.
    unfold mbind at 1, M_bind at 1, bind at 1.
    rewrite requireAdmin_rejects by exact Hn. reflexivity.
  - intros Ha Hids. unfold sendLegacyCorrectionEmails.
    unfold mbind at 1, M_bind at 1, bind at 1.
    rewrite requireAdmin_passes by exact Ha. rewrite Hids. reflexivity.
Qed.

End MailingProperties.

Lemma sendLegacyCorrectionEmails_mails_each_witness :
  (sendLegacyCorrectionEmails plainRender liveEnv (correctionOf ["o1"; "gone"; "o1"]) admin
     {| db := oneOrderDb; trace := [] |}).1
  = Ok (2%nat,
        [ {| resultId := "o1"; resultEmail := "customer@example.com";
             resultMessageId := Some "msg-1" |};
          {| resultId := "o1"; resultEmail := "customer@example.com";
             resultMessageId := Some "msg-1" |} ]).
Proof.
  rewrite (proj1 (sendLegacyCorrectionEmails_mails_each plainRender liveEnv
                    (correctionOf ["o1"; "gone"; "o1"]) admin
                    {| db := oneOrderDb; trace := [] |}
                    (or_introl eq_refl) ltac:(discriminate) accepting_liveEnv)).
  vm_compute. reflexivity.
Defined.

(** ** Stock summaries *)

Lemma isLow_stockRow (s : StockStore) (id : string) (data : StockDoc) :
  isLow (stockRow s id data) = true
  <-> is_Some (stockAlertSignal None (Some (stockFields data))).
Proof.
  rewrite stockAlertSignal_cases. unfold isLow. cbn [rowThreshold rowQuantity stockRow].
  rewrite gtr_leq.
  destruct (leq (toNumber Qzero (threshold (stockFields data))) Qzero); cbn [negb andb].
  - split; [discriminate | intros [x Hx]; discriminate].
  - destruct (leq (toNumber Qzero (quantity (stockFields data)))
                (toNumber Qzero (threshold (stockFields data)))).
    + split; [intros _; eexists; reflexivity | reflexivity].
    + split; [discriminate | intros [x Hx]; discriminate].
Qed.

(** The rows of a summary are the rows of the stored items that have a
    [name] field. *)
Lemma elem_of_loadStockData (s : StockStore) (row : StockRow) :
  row ∈ loadStockData s
  <-> exists id data,
        stockItems s !! id = Some data
        /\ is_Some (itemName (stockFields data))
        /\ row = stockRow s id data.
Proof.
  unfold loadStockData, named. rewrite list_elem_of_fmap. split.
  - intros ([[n id] data] & -> & Hin).
    rewrite merge_sort_Permutation in Hin.
    apply list_elem_of_omap in Hin as ([id' data'] & Hin & Hn).
    apply elem_of_map_to_list in Hin. cbn [fst snd] in Hn.
    destruct (itemName (stockFields data')) as [n'|] eqn:E; [|discriminate].
    injection Hn as <- <- <-. exists id', data'.
    split; [exact Hin|]. split; [rewrite E; eexists; reflexivity | reflexivity].
  - intros (id & data & Hin & [n Hn] & ->).
    exists (n, id, data). split; [reflexivity|].
    rewrite merge_sort_Permutation. apply list_elem_of_omap.
    exists (id, data). split; [apply elem_of_map_to_list, Hin|].
    cbn [fst snd]. rewrite Hn. reflexivity.
Qed.

(** X17. The summary and the watcher agree on what low stock is, for
    the items a summary holds. A summary holds the stored items that
    have a [name] field. Among those, the items a summary counts and
    flags as low are exactly the items on which the watcher would raise
    an alert on seeing them for the first time. An item without [name]
    field is in no summary, also when the watcher raises an alert on
    it. *)
Theorem summary_low_matches_alert (s : StockStore) :
  (forall row,
     row ∈ lowStock (loadStockData s)
     <-> exists id data,
           stockItems s !! id = Some data
           /\ is_Some (itemName (stockFields data))
           /\ row = stockRow s id data
           /\ is_Some (stockAlertSignal None (Some (stockFields data))))
  /\ (forall id data,
        stockItems s !! id = Some data ->
        itemName (stockFields data) = None ->
        forall row, row ∈ loadStockData s -> rowId row <> id).
Proof.
  split.
  - intros row. unfold lowStock.
    rewrite list_elem_of_In, filter_In, <- list_elem_of_In, elem_of_loadStockData. split.
    + intros [(id & data & Hin & Hname & ->) Hlow].
      exists id, data. split; [exact Hin|]. split; [exact Hname|].
      split; [reflexivity|]. apply (proj1 (isLow_stockRow s id data) Hlow).
    + intros (id & data & Hin & Hname & -> & Halert).
      split; [exists id, data; auto | apply (proj2 (isLow_stockRow s id data) Halert)].
  - intros id data Hin Hnone row Hrow Hid.
    apply elem_of_loadStockData in Hrow as (id' & data' & Hin' & [n Hn] & ->).
    cbn [rowId stockRow] in Hid. subst id'. rewrite Hin in Hin'. injection Hin' as <-.
    congruence.
Qed.

(** An item without name on which the watcher raises an alert, and
    which the summary leaves out. *)
Example nameless_item_left_out :
  is_Some (stockAlertSignal None (Some (stockFields namelessDoc)))
  /\ loadStockData namelessStock = [].
Proof. split; [eexists; reflexivity | vm_compute; reflexivity]. Qed.

Section SummaryProperties.

Variable render : Template -> string.

(** X18. A stock summary goes out whenever there are admin recipients,
    whatever the stock: one message, to the recipients, with the title
    as subject. Without admin recipients the call returns [null] and
    does nothing, even when no provider key is configured; with
    recipients and no key it fails. *)
Theorem sendStockSummaryEmail_sends (env : Env) (s : StockStore) (title : string)
    (includeAll : bool) (w : World) :
  (getAdminRecipients env = [] ->
     sendStockSummaryEmail render env s title includeAll w = (Ok None, w))
  /\ (getAdminRecipients env <> [] -> getResendClient env = None ->
      sendStockSummaryEmail render env s title includeAll w = (Throw notConfigured, w))
  /\ (forall id, getAdminRecipients env <> [] -> is_Some (getResendClient env) ->
        transport env (stockSummaryEmail render env s title includeAll) = Response id ->
        sendStockSummaryEmail render env s title includeAll w
        = (Ok (Some id), sentTo w [stockSummaryEmail render env s title includeAll])).
Proof.
  unfold sendStockSummaryEmail. refine (conj _ (conj _ _)).
  - intros ->. reflexivity.
  - intros Hr Hkey. destruct (getAdminRecipients env) eqn:E; [congruence|].
    cbn [length Nat.eqb]. apply sendEmail_not_configured, Hkey.
  - intros id Hr Hkey Hid. destruct (getAdminRecipients env) eqn:E; [congruence|].
    cbn [length Nat.eqb]. apply sendEmail_delivers.
    + exact Hkey.
    + cbn [to stockSummaryEmail]. rewrite E. discriminate.
    + apply getAdminRecipients_truthy.
    + exact Hid.
Qed.

End SummaryProperties.

(** ** Deleting a category *)

Lemma lookup_foldr_delete {A} (l : list (string * A)) (m : gmap string A) (i : string) :
  foldr (fun kv items => delete kv.1 items) m l !! i
  = if bool_decide (i ∈ l.*1) then None else m !! i.
Proof.
  induction l as [|kv l IH]; cbn [foldr fmap list_fmap].
  - rewrite bool_decide_eq_false_2 by apply not_elem_of_nil. reflexivity.
  - destruct (decide (kv.1 = i)) as [<- | Hne].
    + rewrite lookup_delete_eq, bool_decide_eq_true_2 by apply list_elem_of_here. reflexivity.
    + rewrite lookup_delete_ne by exact Hne. rewrite IH.
      destruct (bool_decide (i ∈ l.*1)) eqn:E.
      * apply bool_decide_eq_true_1 in E.
        rewrite bool_decide_eq_true_2 by (apply list_elem_of_further, E). reflexivity.
      * apply bool_decide_eq_false_1 in E.
        rewrite bool_decide_eq_false_2; [reflexivity|].
        intros H. apply elem_of_cons in H as [H | H]; [congruence | contradiction].
Qed.

Lemma size_foldr_delete {A} (l : list (string * A)) (m : gmap string A) :
  NoDup l.*1 ->
  (forall kv, kv ∈ l -> m !! kv.1 = Some kv.2) ->
  (length l + size (foldr (fun kv items => delete kv.1 items) m l))%nat = size m.
Proof.
  induction l as [|kv l IH]; cbn [foldr fmap list_fmap length]; intros Hnd Hin.
  - reflexivity.
  - apply NoDup_cons in Hnd as [Hkv Hnd].
    assert (Hl : forall kv', kv' ∈ l -> m !! kv'.1 = Some kv'.2).
    { intros kv' H. apply Hin, list_elem_of_further, H. }
    specialize (IH Hnd Hl).
    assert (Hpresent : foldr (fun kv items => delete kv.1 items) m l !! kv.1 = Some kv.2).
    { rewrite lookup_foldr_delete, bool_decide_eq_false_2 by exact Hkv.
      apply Hin, list_elem_of_here. }
    assert (Hsome : is_Some (foldr (fun kv items => delete kv.1 items) m l !! kv.1))
      by (eexists; exact Hpresent).
    rewrite (map_size_delete_Some _ _ Hsome).
    pose proof (map_size_ne_0_lookup_2 _ _ Hsome). lia.
Qed.

Lemma sublist_List_filter {A} (p : A -> bool) (l : list A) : sublist (List.filter p l) l.
Proof.
  induction l as [|x l IH]; cbn [List.filter]; [constructor|].
  destruct (p x); [apply sublist_skip | apply sublist_cons]; exact IH.
Qed.

Lemma elem_of_itemsQuery (categoryId : string) (s : StockStore) (kv : string * StockDoc) :
  kv ∈ itemsQuery categoryId s
  <-> stockItems s !! kv.1 = Some kv.2 /\ inCategory categoryId kv.2 = true.
Proof.
  unfold itemsQuery. rewrite list_elem_of_In, filter_In, <- list_elem_of_In.
  destruct kv as [i d]. rewrite elem_of_map_to_list. reflexivity.
Qed.

(** X19. Deleting a category, for an admin and a non-empty id: every
    stock item filed under the category is deleted and every other item
    is kept as it is, the category itself is deleted, and the number
    returned is the number of items deleted. *)
Theorem deleteCategoryWithItems_removes (categoryId : option string)
    (context : CallContext) (s : StockStore) :
  isAdminRole (getRoleFromContext context) ->
  trim (orElse categoryId "") <> "" ->
  let c := trim (orElse categoryId "") in
  exists n s',
    deleteCategoryWithItems categoryId context s = (Ok n, s')
    /\ (forall id,
          stockItems s' !! id
          = match stockItems s !! id with
            | Some data => if inCategory c data then None else Some data
            | None => None
            end)
    /\ stockCategories s' = delete c (stockCategories s)
    /\ (n + size (stockItems s'))%nat = size (stockItems s).
Proof.
  intros Hadmin Hid c. unfold deleteCategoryWithItems.
  assert (Hrole : bool_decide (getRoleFromContext context ≠ Some "admin")
                  && bool_decide (getRoleFromContext context ≠ Some "super_admin") = false).
  { destruct Hadmin as [-> | ->]; reflexivity. }
  assert (Ht : truthy c = true) by (apply truthy_nonempty, Hid).
  rewrite Hrole. fold c. rewrite Ht. cbn [negb]. clear Hrole.
  eexists _, _. refine (conj eq_refl (conj _ (conj eq_refl _))).
  - intros id. cbn [commitDeletes stockItems]. rewrite lookup_foldr_delete.
    destruct (stockItems s !! id) as [data|] eqn:E.
    + destruct (inCategory c data) eqn:Hc.
      * rewrite bool_decide_eq_true_2; [reflexivity|].
        apply list_elem_of_fmap. exists (id, data). split; [reflexivity|].
        apply elem_of_itemsQuery. split; assumption.
      * rewrite bool_decide_eq_false_2; [reflexivity|].
        intros H. apply list_elem_of_fmap in H as ([i d] & Hi & Hin). cbn in Hi. subst i.
        apply elem_of_itemsQuery in Hin as [Hl Hd]. cbn in Hl, Hd. congruence.
    + destruct (bool_decide (id ∈ _)); reflexivity.
  - cbn [commitDeletes stockItems]. apply size_foldr_delete.
    + apply (sublist_NoDup _ (map_to_list (stockItems s)).*1).
      * apply NoDup_fst_map_to_list.
      * apply fmap_sublist, sublist_List_filter.
    + intros kv Hkv. apply elem_of_itemsQuery in Hkv as [H _]. exact H.
Qed.

Lemma deleteCategoryWithItems_removes_witness :
  exists n s',
    deleteCategoryWithItems (Some " feed ") admin sampleStock = (Ok n, s')
    /\ (forall id,
          stockItems s' !! id
          = match stockItems sampleStock !! id with
            | Some data => if inCategory "feed" data then None else Some data
            | None => None
            end)
    /\ stockCategories s' = delete "feed" (stockCategories sampleStock)
    /\ (n + size (stockItems s'))%nat = size (stockItems sampleStock).
Proof.
  apply (deleteCategoryWithItems_removes (Some " feed ") admin sampleStock).
  - left. reflexivity.
  - discriminate.
Defined.

Example deleteCategoryWithItems_feed :
  (deleteCategoryWithItems (Some " feed ") admin sampleStock).1 = Ok 2%nat.
Proof. vm_compute. reflexivity. Qed.

Example loadStockData_sorted :
  rowName <$> loadStockData sampleStock = ["Chick crumbs"; "Egg trays"; "Layer feed"].
Proof. vm_compute. reflexivity. Qed.

(** ** Writing in batches *)

Lemma chunksFrom_concat {A} (size : nat) (docs : list A) :
  (0 < size)%nat -> forall fuel i,
  (length docs - i <= fuel)%nat ->
  concat (chunksFrom fuel i size docs) = drop i docs.
Proof.
  intros Hsize. induction fuel as [|f IH]; intros i Hfuel; cbn [chunksFrom].
  - rewrite drop_ge by lia. reflexivity.
  - destruct (i <? length docs)%nat eqn:Hi.
    + apply Nat.ltb_lt in Hi. cbn [concat]. rewrite IH by lia.
      rewrite <- (drop_drop docs size i). apply take_drop.
    + apply Nat.ltb_ge in Hi. rewrite drop_ge by lia. reflexivity.
Qed.

Lemma chunksFrom_sizes {A} (size : nat) (docs : list A) :
  (0 < size)%nat -> forall fuel i,
  Forall (fun chunk => (1 <= length chunk <= size)%nat) (chunksFrom fuel i size docs).
Proof.
  intros Hsize. induction fuel as [|f IH]; intros i; cbn [chunksFrom]; [constructor|].
  destruct (i <? length docs)%nat eqn:Hi; [|constructor].
  apply Nat.ltb_lt in Hi. constructor; [|apply IH].
  rewrite length_take, length_drop. lia.
Qed.

(** X20. [chunkedWrite] puts the write of every document in exactly
    one batch, in the order of the documents; the batches are never
    empty and hold at most 400 writes. *)
Theorem chunkedWrite_partitions {A B} (docs : list A) (handler : A -> B) :
  concat (chunkedWrite docs handler) = handler <$> docs
  /\ Forall (fun batch => (1 <= length batch <= 400)%nat) (chunkedWrite docs handler).
Proof.
  unfold chunkedWrite, chunksOf. split.
  - assert (Hmap : forall l : list (list A),
               concat ((fun chunk : list A => handler <$> chunk) <$> l)
               = handler <$> concat l).
    { induction l as [|c l IH]; [reflexivity|].
      cbn [fmap list_fmap concat]. cbn [fmap] in IH. rewrite IH, fmap_app. reflexivity. }
    rewrite Hmap, (chunksFrom_concat 400 docs) by lia. reflexivity.
  - apply Forall_fmap. eapply Forall_impl; [apply chunksFrom_sizes; lia|].
    intros chunk H. cbn. rewrite length_fmap. exact H.
Qed.

(** ** The profile of the caller *)


(** ** The first allocation on a stream without counter *)

Lemma numberAt_orderNumbersOf (collectionName id n : string) (d : Db) :
  numberAt d (collectionName, id) = Some n -> n ∈ orderNumbersOf collectionName d.
Proof.
  unfold numberAt, orderNumbersOf. intros H.
  destruct (orders d !! (collectionName, id)) as [o|] eqn:E; [|discriminate].
  cbn in H. apply list_elem_of_omap. exists (collectionName, id, o). split.
  - apply elem_of_map_to_list, E.
  - cbn. rewrite decide_True by reflexivity. exact H.
Qed.

(** X22. On a stream without counter whose orders carry numbers of the
    pad width (up to [#9999]) the first allocation continues the
    sequence: it issues the highest number assigned plus one, a number
    no order of the stream carries yet, and writes it on the order. *)
Theorem first_allocation_continues (collectionName id : string) (w : World) :
  orderCounters (db w) !! collectionName = None ->
  Forall padWidth (orderNumbersOf collectionName (db w)) ->
  let next := highestAssigned collectionName (db w) + 1 in
  (assignOrderNumber collectionName (collectionName, id) w).1
  = Ok (formatOrderNumber (Finite next))
  /\ (forall other,
        numberAt (db w) (collectionName, other) <> Some (formatOrderNumber (Finite next)))
  /\ numberAt (db (assignOrderNumber collectionName (collectionName, id) w).2)
       (collectionName, id) = Some (formatOrderNumber (Finite next))
  /\ counterValue collectionName (db (assignOrderNumber collectionName (collectionName, id) w).2)
     = Some next.
Proof.
  intros Hnone Hall next.
  pose proof (highestAssigned_padWidth _ _ Hall) as Hrange.
  assert (Hnext : plusOne (lastRead collectionName (db w)) = Finite next).
  { rewrite (lastRead_padWidth _ _ Hnone Hall). apply plusOne_exact.
    pose proof safe_bounds. lia. }
  rewrite assignOrderNumber_run, Hnext.
  refine (conj eq_refl (conj _ (conj _ _))).
  - intros other Hother.
    pose proof (numberAt_orderNumbersOf _ _ _ _ Hother) as Hin.
    rewrite Forall_forall in Hall. destruct (Hall _ Hin) as (k & Hk & Hfmt).
    assert (Hle : k <= highestAssigned collectionName (db w)).
    { unfold highestAssigned. rewrite <- (numberShown_format k) by lia.
      apply foldr_max_ge, list_elem_of_fmap.
      exists (formatOrderNumber (Finite next)). split; [congruence | exact Hin]. }
    pose proof safe_bounds.
    apply formatOrderNumber_inj in Hfmt; subst next; lia.
  - cbn [snd]. rewrite numberAt_numberAssigned, Hnext. reflexivity.
  - cbn [snd]. rewrite counterValue_numberAssigned, Hnext. reflexivity.
Qed.

Lemma legacyStream_padWidth :
  forall n, n ∈ orderNumbersOf "eggOrders" legacyStream -> padWidth n.
Proof.
  intros n Hn. apply list_elem_of_omap in Hn as ([[c i] o] & Hin & Ho).
  apply elem_of_map_to_list in Hin. cbn in Ho.
  destruct (decide (c = "eggOrders")) as [->|]; [|discriminate].
  unfold legacyStream in Hin. cbn [orders] in Hin.
  apply lookup_insert_Some in Hin as [[Hk <-] | [_ Hin]].
  - injection Ho as <-. exists 41. split; [lia | reflexivity].
  - apply lookup_singleton_Some in Hin as [_ <-].
    injection Ho as <-. exists 7. split; [lia | reflexivity].
Qed.

Lemma first_allocation_continues_witness :
  (assignOrderNumber "eggOrders" ("eggOrders", "c") {| db := legacyStream; trace := [] |}).1
  = Ok "#0042".
Proof.
  apply (proj1 (first_allocation_continues "eggOrders" "c"
                  {| db := legacyStream; trace := [] |} eq_refl
                  (proj2 (Forall_forall padWidth _) legacyStream_padWidth))).
Defined.

(** ** The admin callables *)

Lemma deleteCategoryWithItems_refused (categoryId : option string) (context : CallContext)
    (s : StockStore) :
  ~ isAdminRole (getRoleFromContext context) ->
  deleteCategoryWithItems categoryId context s
  = (Throw (HttpsError permission_denied "Admin access required."), s).
Proof.
  intros Hn. unfold deleteCategoryWithItems, isAdminRole in *.
  rewrite !bool_decide_eq_true_2; [reflexivity | tauto | tauto].
Qed.

Section AdminCallables.

Variable render : Template -> string.

(** X23. A caller who is not an admin gets [permission-denied] from the
    test message, the stock test summary and the category deletion, and
    none of them has done anything by then: no message was handed to the
    provider and the stores are as they were. A category deletion
    without category id is refused in the same way with
    [invalid-argument]. *)
Theorem admin_callables_refuse (env : Env) (context : CallContext) (w : World)
    (s : StockStore) (test : TestRequest) (categoryId : option string) :
  (~ isAdminRole (getRoleFromContext context) ->
     sendTestEmail render env test context w
     = (Throw (HttpsError permission_denied "Admin access required."), w)
     /\ sendStockTestEmail render env s context w
        = (Throw (HttpsError permission_denied "Admin access required."), w)
     /\ deleteCategoryWithItems categoryId context s
        = (Throw (HttpsError permission_denied "Admin access required."), s))
  /\ (isAdminRole (getRoleFromContext context) -> trim (orElse categoryId "") = "" ->
      deleteCategoryWithItems categoryId context s
      = (Throw (HttpsError invalid_argument "Category id is required."), s)).
Proof.
  split.
  - intros Hn. refine (conj _ (conj _ _)).
    + unfold sendTestEmail. unfold mbind at 1, M_bind at 1, bind at 1.
      rewrite requireAdmin_rejects by exact Hn. reflexivity.
    + unfold sendStockTestEmail. unfold mbind at 1, M_bind at 1, bind at 1.
      rewrite requireAdmin_rejects by exact Hn. reflexivity.
    + apply deleteCategoryWithItems_refused, Hn.
  - intros Ha He. unfold deleteCategoryWithItems.
    destruct Ha as [-> | ->]; cbn [bool_decide andb]; rewrite He; reflexivity.
Qed.

(** X24. The test message and the stock test summary of an admin only
    send: whatever the request and the provider do, the store is left as
    it was and at most one message is handed to the provider. *)
Theorem test_callables_only_send (env : Env) (context : CallContext) (s : StockStore)
    (test : TestRequest) :
  onlySends 1 (sendTestEmail render env test context)
  /\ onlySends 1 (sendStockTestEmail render env s context).
Proof.
  assert (Hreq : onlySends 0 (requireAdmin context)).
  { unfold requireAdmin. destruct (_ && _); [apply onlySends_throw | apply onlySends_ret]. }
  split.
  - unfold sendTestEmail. change 1%nat with (0 + 1)%nat.
    apply onlySends_bind; [exact Hreq|]. intros _.
    change 1%nat with (1 + 0)%nat.
    apply onlySends_bind; [apply onlySends_sendEmail|]. intros r. apply onlySends_ret.
  - unfold sendStockTestEmail. change 1%nat with (0 + 1)%nat.
    apply onlySends_bind; [exact Hreq|]. intros _.
    change 1%nat with (1 + 0)%nat. apply onlySends_bind.
    + unfold sendStockSummaryEmail. destruct (_ =? _)%nat.
      * apply (onlySends_le 0); [lia | apply onlySends_ret].
      * apply onlySends_sendEmail.
    + intros r. apply onlySends_ret.
Qed.

End AdminCallables.

(** ** The order form *)

Lemma lookup_toQuantityMap (items : list CatalogItem) (existing : gmap string (number Q))
    (id : string) :
  toQuantityMap items existing !! id
  = if bool_decide (id ∈ catalogId <$> items)
    then Some (default (Finite Qzero) (existing !! id)) else None.
Proof.
  unfold toQuantityMap.
  assert (H : forall acc : gmap string (number Q),
             foldl (fun map item => <[catalogId item := quantityOf existing item]> map) acc items
             !! id
             = if bool_decide (id ∈ catalogId <$> items)
               then Some (default (Finite Qzero) (existing !! id)) else acc !! id).
  { induction items as [|item items IH]; intros acc; cbn [foldl fmap list_fmap].
    - rewrite bool_decide_eq_false_2 by apply not_elem_of_nil. reflexivity.
    - rewrite IH. destruct (bool_decide (id ∈ catalogId <$> items)) eqn:E.
      + apply bool_decide_eq_true_1 in E.
        rewrite bool_decide_eq_true_2 by (apply list_elem_of_further, E). reflexivity.
      + apply bool_decide_eq_false_1 in E.
        destruct (decide (catalogId item = id)) as [<- | Hne].
        * rewrite bool_decide_eq_true_2 by apply list_elem_of_here.
          rewrite lookup_insert_eq. reflexivity.
        * rewrite bool_decide_eq_false_2.
          -- apply lookup_insert_ne, Hne.
          -- intros H. apply elem_of_cons in H as [H | H]; [congruence | contradiction]. }
  rewrite H. destruct (bool_decide _); [reflexivity | apply lookup_empty].
Qed.

(** X25. When the catalogue is loaded again, [toQuantityMap] keeps the
    quantity entered for every item still offered, gives zero to the new
    items and drops the quantities of the items no longer offered; the
    items selected are the same as before the reload. *)
Theorem toQuantityMap_keeps_selection (items : list CatalogItem)
    (existing : gmap string (number Q)) :
  (forall id,
     toQuantityMap items existing !! id
     = if bool_decide (id ∈ catalogId <$> items)
       then Some (default (Finite Qzero) (existing !! id)) else None)
  /\ selectedItems items (toQuantityMap items existing) = selectedItems items existing.
Proof.
  split; [apply lookup_toQuantityMap|].
  unfold selectedItems. apply filter_ext_in. intros item Hin.
  unfold quantityOf at 1. rewrite lookup_toQuantityMap.
  rewrite bool_decide_eq_true_2; [reflexivity|].
  apply list_elem_of_fmap. exists item. split; [reflexivity | apply list_elem_of_In, Hin].
Qed.

(** X26. An order the form lets through is one the functions can work
    on: its payload has a non-empty, trimmed email address and a send
    date, carries the status [pending] and no order number, so that the
    creation trigger allocates one; the dashboard's gate on the dispatch
    action and the email check of [sendDispatchEmail] both pass. At
    least one item is selected. *)
Theorem validated_order_is_dispatchable (itemLabel : string) (form : FormState)
    (selected : list CatalogItem) (deliveryOptions : list (string * string)) :
  validate itemLabel form selected = "" ->
  let order := payloadOrder form deliveryOptions in
  selected <> []
  /\ (exists e, email order = Some e /\ e <> "" /\ trim e = e)
  /\ truthyField (orderNumber order) = false
  /\ orderStatus order = Some "pending"
  /\ canSendDispatch order (formSendDate form) = true
  /\ trim (orElse (email order) "") <> "".
Proof.
  intros H order. unfold validate in H.
  destruct (_ || _) eqn:Hreq in H; [discriminate H|].
  repeat (apply orb_false_iff in Hreq as [Hreq ?]).
  repeat match goal with Hn : negb _ = false |- _ => apply negb_false_iff in Hn end.
  destruct (_ && _) in H; [discriminate H|].
  destruct selected as [|item selected]; [cbn in H; discriminate H|].
  assert (He : trim (formEmail form) <> "") by (apply truthy_true; assumption).
  refine (conj _ (conj _ (conj eq_refl (conj eq_refl (conj _ _))))).
  - discriminate.
  - exists (trim (formEmail form)). split; [reflexivity|]. split; [exact He | apply trim_idem].
  - unfold canSendDispatch. cbn [order payloadOrder email truthyField].
    apply andb_true_iff. split; assumption.
  - cbn [order payloadOrder email]. 
    assert (Hor : forall u, orElse (Some u) "" = u) by (intros [|? ?]; reflexivity).
    rewrite Hor, trim_idem. exact He.
Qed.

Lemma validated_order_is_dispatchable_witness :
  canSendDispatch (payloadOrder filledForm [("courier", "Courier")]) "2026-03-02" = true
  /\ email (payloadOrder filledForm [("courier", "Courier")]) = Some "ann@example.com".
Proof.
  split.
  - apply (validated_order_is_dispatchable "egg" filledForm
             [{| catalogId := "e1"; catalogLabel := "Brahma" |}] [("courier", "Courier")]).
    reflexivity.
  - reflexivity.
Defined.

(** ** The admin recipients *)

(** X27. No admin message goes to an excluded address: whatever is
    configured, every address [getAdminRecipients] returns is non-empty
    and, in lower case, outside the exclusion list. *)
Theorem getAdminRecipients_never_excluded (env : Env) :
  Forall (fun address => address <> "" /\ toLowerCase address ∉ ADMIN_EMAIL_EXCLUSIONS)
    (getAdminRecipients env).
Proof.
  unfold getAdminRecipients, resolveRecipients.
  destruct (truthy (orElse _ _)); cbn [negb]; [|constructor].
  match goal with
  | |- context [List.filter ?p ?l] => set (kept := List.filter p l)
  end.
  assert (Hkept : Forall (fun address => address <> ""
                                         /\ toLowerCase address ∉ ADMIN_EMAIL_EXCLUSIONS) kept).
  { apply Forall_forall. intros a Ha. subst kept.
    apply list_elem_of_In, filter_In in Ha as [_ Ha].
    apply andb_true_iff in Ha as [Ht Hx]. split; [apply truthy_true, Ht|].
    apply negb_true_iff, bool_decide_eq_false_1 in Hx. exact Hx. }
  destruct kept as [|a kept]; [|exact Hkept].
  cbn [length Nat.ltb Nat.leb]. repeat constructor; [discriminate|].
  vm_compute. intros H. discriminate H.
Qed.

(** ** A failed customer message *)

Lemma sendEmail_rejected (env : Env) (message : Email) (w : World) (msg : string) :
  is_Some (getResendClient env) ->
  to message <> [] ->
  Forall (fun a => truthy a = true) (to message) ->
  transport env message = Rejected msg ->
  sendEmail env message w = (Throw (TransportError msg), sentTo w [message]).
Proof.
  intros [k Hk] Hto Hall Hsend. unfold sendEmail. rewrite Hk.
  rewrite (filter_all_true _ _ Hall).
  destruct message as [recipients subj body]. simpl in *.
  destruct recipients as [|a recipients]; [congruence|]. simpl.
  run. rewrite Hsend. reflexivity.
Qed.

Lemma when_true {A} (m : M A) : when true m = (m;; mret tt).
Proof. reflexivity. Qed.

Section Rejections.

Variable render : Template -> string.

(** X28. The messages of a new order are sent one after the other, the
    customer's first. When the call to the provider throws (its promise
    is rejected) on the customer message, the trigger fails there, with
    the number already assigned, and the admin message is not sent,
    whoever the admin recipients are. An answer of the provider stops
    nothing, whatever it holds, also an answer that reports an error and
    carries no message id: the trigger goes on to the admin message and
    succeeds. *)
Theorem onOrderCreate_failure_skips_admin (collectionName : string) (env : Env)
    (orderId : string) (order : Order) (w : World) :
  truthyField (orderNumber order) = false ->
  truthyField (email order) = true ->
  is_Some (getResendClient env) ->
  let numbered :=
    withOrderNumber order
      (Some (formatOrderNumber (plusOne (lastRead collectionName (db w))))) in
  let customer := orderCreatedCustomerEmail render numbered collectionName in
  let admin := orderCreatedAdminEmail render env numbered collectionName orderId in
  (forall msg,
     transport env customer = Rejected msg ->
     onOrderCreate render collectionName env orderId order w
     = (Throw (TransportError msg),
        sentTo (numberAssigned collectionName orderId w) [customer]))
  /\ (forall id id',
        transport env customer = Response id ->
        transport env admin = Response id' ->
        getAdminRecipients env <> [] ->
        onOrderCreate render collectionName env orderId order w
        = (Ok tt, sentTo (numberAssigned collectionName orderId w) [customer; admin])).
Proof.
  intros Hn He Hkey numbered customer admin.
  assert (Hto : Forall (fun a => truthy a = true) (to customer)).
  { subst customer. cbn [to orderCreatedCustomerEmail].
    change (email numbered) with (email order).
    destruct (email order) as [e|]; [|discriminate]. repeat constructor. exact He. }
  assert (Henter : onOrderCreate render collectionName env orderId order w
                   = sendOrderCreatedEmails render env numbered orderId collectionName
                       (numberAssigned collectionName orderId w)).
  { unfold onOrderCreate. unfold mbind at 1, M_bind at 1, bind at 1.
    rewrite (ensureOrderNumber_unnumbered _ _ _ _ Hn). reflexivity. }
  rewrite Henter. unfold sendOrderCreatedEmails. unfold mbind, M_bind, bind.
  change (email numbered) with (email order). rewrite He.
  rewrite when_true. unfold mbind, M_bind, bind. fold customer. split.
  - intros msg Hrej.
    rewrite (sendEmail_rejected env _ _ msg Hkey);
      [reflexivity | discriminate | exact Hto | exact Hrej].
  - intros id id' Hid Hid' Hadmin.
    rewrite (sendEmail_delivers env _ _ id Hkey); [| discriminate | exact Hto | exact Hid].
    cbn [mret M_ret ret].
    destruct (getAdminRecipients env) as [|a l] eqn:Hl; [congruence|].
    cbn [length Nat.ltb Nat.leb when]. unfold mbind, M_bind, bind. fold admin.
    rewrite (sendEmail_delivers env _ _ id' Hkey).
    + cbn [mret M_ret ret]. rewrite sentTo_app. reflexivity.
    + subst admin. cbn [to orderCreatedAdminEmail]. rewrite Hl. discriminate.
    + subst admin. cbn [to orderCreatedAdminEmail]. apply getAdminRecipients_truthy.
    + exact Hid'.
Qed.

End Rejections.

Lemma onOrderCreate_failure_skips_admin_witness :
  emailOnOrderCreate plainRender faultyEnv "o1" newOrder emptyWorld
  = (Throw (TransportError "socket hang up"),
     sentTo (numberAssigned "eggOrders" "o1" emptyWorld)
       [orderCreatedCustomerEmail plainRender (withOrderNumber newOrder (Some "#0001"))
          "eggOrders"])
  /\ emailOnOrderCreate plainRender decliningEnv "o1" newOrder emptyWorld
     = (Ok tt,
        sentTo (numberAssigned "eggOrders" "o1" emptyWorld)
          [orderCreatedCustomerEmail plainRender (withOrderNumber newOrder (Some "#0001"))
             "eggOrders";
           orderCreatedAdminEmail plainRender decliningEnv
             (withOrderNumber newOrder (Some "#0001")) "eggOrders" "o1"]).
Proof.
  split.
  - refine (proj1 (onOrderCreate_failure_skips_admin plainRender "eggOrders" faultyEnv "o1"
                     newOrder emptyWorld _ _ _) "socket hang up" _).
    + reflexivity.
    + reflexivity.
    + exists "re_key". reflexivity.
    + reflexivity.
  - refine (proj2 (onOrderCreate_failure_skips_admin plainRender "eggOrders" decliningEnv "o1"
                     newOrder emptyWorld _ _ _) None None _ _ _).
    + reflexivity.
    + reflexivity.
    + exists "re_key". reflexivity.
    + reflexivity.
    + reflexivity.
    + vm_compute. discriminate.
Defined.

(** X29. The same holds for a status change. When the call to the
    provider throws (its promise is rejected) on the customer message,
    the trigger fails there and the admin message is not sent. An answer
    of the provider stops nothing, whatever it holds, also an answer
    that reports an error and carries no message id: the trigger goes on
    to the admin message and succeeds. *)
Theorem onStatusChange_failure_skips_admin (collectionName : string) (env : Env)
    (before after : Order) (w : World) (status : string) :
  orderStatus before <> orderStatus after ->
  orderStatus after = Some status ->
  status <> "" -> status <> "cancelled" -> status <> "archived" ->
  truthyField (email after) = true ->
  is_Some (getResendClient env) ->
  let customer := statusCustomerEmail (statusOrder before after) (Some status) in
  let admin :=
    statusAdminEmail env (statusOrder before after) (orderStatus before) (Some status) in
  (forall msg,
     transport env customer = Rejected msg ->
     onStatusChange collectionName env before after w
     = (Throw (TransportError msg), sentTo w [customer]))
  /\ (forall id id',
        transport env customer = Response id ->
        transport env admin = Response id' ->
        getAdminRecipients env <> [] ->
        onStatusChange collectionName env before after w
        = (Ok tt, sentTo w [customer; admin])).
Proof.
  intros Hne Hstatus Hnonempty Hc Ha He Hkey customer admin.
  assert (Hto : Forall (fun a => truthy a = true) (to customer)).
  { subst customer. cbn [to statusCustomerEmail].
    change (email (statusOrder before after)) with (email after).
    destruct (email after) as [e|]; [|discriminate]. repeat constructor. exact He. }
  unfold onStatusChange. rewrite bool_decide_eq_false_2 by exact Hne.
  fold (statusOrder before after). unfold sendOrderStatusEmails.
  rewrite Hstatus. cbn [truthyField default].
  rewrite (truthy_nonempty _ Hnonempty).
  rewrite not_suppressed by assumption. cbn [negb orb].
  change (email (statusOrder before after)) with (email after).
  unfold mbind, M_bind, bind. rewrite He.
  rewrite when_true. unfold mbind, M_bind, bind. fold customer. split.
  - intros msg Hrej.
    rewrite (sendEmail_rejected env _ _ msg Hkey);
      [reflexivity | discriminate | exact Hto | exact Hrej].
  - intros id id' Hid Hid' Hadmin.
    rewrite (sendEmail_delivers env _ _ id Hkey); [| discriminate | exact Hto | exact Hid].
    cbn [mret M_ret ret].
    destruct (getAdminRecipients env) as [|a l] eqn:Hl; [congruence|].
    cbn [length Nat.ltb Nat.leb when]. unfold mbind, M_bind, bind.
    change (orderStatus (statusOrder before after)) with (orderStatus after).
    rewrite ?Hstatus. fold admin.
    rewrite (sendEmail_delivers env _ _ id' Hkey).
    + cbn [mret M_ret ret]. rewrite sentTo_app. reflexivity.
    + subst admin. cbn [to statusAdminEmail]. rewrite Hl. discriminate.
    + subst admin. cbn [to statusAdminEmail]. apply getAdminRecipients_truthy.
    + exact Hid'.
Qed.

Lemma onStatusChange_failure_skips_admin_witness :
  emailOnStatusChange faultyEnv pendingOrder (withStatus pendingOrder (Some "packed"))
    emptyWorld
  = (Throw (TransportError "socket hang up"),
     sentTo emptyWorld
       [statusCustomerEmail
          (statusOrder pendingOrder (withStatus pendingOrder (Some "packed")))
          (Some "packed")])
  /\ emailOnStatusChange decliningEnv pendingOrder (withStatus pendingOrder (Some "packed"))
       emptyWorld
     = (Ok tt,
        sentTo emptyWorld
          [statusCustomerEmail
             (statusOrder pendingOrder (withStatus pendingOrder (Some "packed")))
             (Some "packed");
           statusAdminEmail decliningEnv
             (statusOrder pendingOrder (withStatus pendingOrder (Some "packed")))
             (orderStatus pendingOrder) (Some "packed")]).
Proof.
  split.
  - refine (proj1 (onStatusChange_failure_skips_admin "eggOrders" faultyEnv pendingOrder
                     (withStatus pendingOrder (Some "packed")) emptyWorld "packed"
                     _ _ _ _ _ _ _) "socket hang up" _).
    + discriminate.
    + reflexivity.
    + discriminate.
    + discriminate.
    + discriminate.
    + reflexivity.
    + exists "re_key". reflexivity.
    + reflexivity.
  - refine (proj2 (onStatusChange_failure_skips_admin "eggOrders" decliningEnv pendingOrder
                     (withStatus pendingOrder (Some "packed")) emptyWorld "packed"
                     _ _ _ _ _ _ _) None None _ _ _).
    + discriminate.
    + reflexivity.
    + discriminate.
    + discriminate.
    + discriminate.
    + reflexivity.
    + exists "re_key". reflexivity.
    + reflexivity.
    + reflexivity.
    + vm_compute. discriminate.
Defined.

(** ** The tracking link of the dispatch message *)

(** A character whose lower case is none of the five escaped characters
    is left as it is. *)
Lemma escapeChar_plain (c x : ascii) :
  Ascii.eqb x (lowerChar c) = true ->
  occurs x "&<>'" = false -> Ascii.eqb x doubleQuote = false ->
  escapeChar c = String c "".
Proof.
  intros Hx Hocc Hq. apply Ascii.eqb_eq in Hx.
  destruct (escapeChar_cases c) as [[-> _]|[[-> _]|[[-> _]|[[-> _]|[[-> _]|[_ E]]]]]];
    [| | | | | exact E]; subst x; vm_compute in Hocc, Hq; discriminate.
Qed.

Lemma escapeEach_app (s t : string) : escapeEach (s ++ t) = escapeEach s ++ escapeEach t.
Proof. rewrite <- !escapeHtml_each. apply escapeHtml_app. Qed.

Lemma startsWith_escapeEach (p u : string) :
  (forall x, occurs x p = true ->
             occurs x "&<>'" = false /\ Ascii.eqb x doubleQuote = false) ->
  startsWith p (toLowerCase u) = true ->
  startsWith p (toLowerCase (escapeEach u)) = true.
Proof.
  revert u. induction p as [|a p IH]; intros u Hp H; [reflexivity|].
  destruct u as [|c u]; [discriminate H|].
  cbn [toLowerCase startsWith] in H. apply andb_true_iff in H as [Ha H].
  destruct (Hp a) as [Hocc Hq]; [cbn [occurs]; rewrite Ascii.eqb_refl; reflexivity|].
  cbn [escapeEach]. rewrite (escapeChar_plain c a Ha Hocc Hq).
  change (String c "" ++ escapeEach u) with (String c (escapeEach u)).
  cbn [toLowerCase startsWith]. rewrite Ha. cbn [andb].
  apply IH; [|exact H].
  intros x Hx. apply Hp. cbn [occurs]. rewrite Hx. apply orb_true_r.
Qed.

Lemma hasScheme_escapeHtml (u : string) :
  hasScheme u = true -> hasScheme (escapeHtml (Some u)) = true.
Proof.
  rewrite escapeHtml_each. unfold hasScheme. intros H.
  apply orb_true_iff in H as [H | H]; apply orb_true_iff; [left | right];
    (apply startsWith_escapeEach; [|exact H]);
    intros x Hx; cbn [occurs] in Hx;
    repeat (apply orb_true_iff in Hx as [Hx | Hx];
            [apply Ascii.eqb_eq in Hx; subst x; split; reflexivity|]);
    discriminate Hx.
Qed.

(** X30. The link the dispatch message shows: [normalizeUrl] followed by
    [escapeHtml], as [sendDispatchEmail] composes them on the tracking
    link of the order. It is empty exactly when the tracking link is
    empty once trimmed, and then no link is shown; otherwise it begins
    with [http://] or [https://], whatever was stored, and holds no
    double quote, apostrophe, [<] or [>]. *)
Theorem tracking_link_is_safe (trackingLink : option string) :
  let href := escapeHtml (Some (normalizeUrl trackingLink)) in
  (href = "" <-> trim (orElse trackingLink "") = "")
  /\ (href = "" \/ hasScheme href = true)
  /\ occurs doubleQuote href = false
  /\ occurs "'" href = false
  /\ occurs "<" href = false
  /\ occurs ">" href = false.
Proof.
  intros href.
  assert (Hempty : href = "" <-> normalizeUrl trackingLink = "").
  { subst href. rewrite escapeHtml_each. split.
    - intros H. apply escapeEach_inj. rewrite H. reflexivity.
    - intros ->. reflexivity. }
  refine (conj _ (conj _ (conj _ (conj _ (conj _ _))))).
  - rewrite Hempty.
    destruct (normalizeUrl_cases trackingLink) as [[He ->] | [(Hne & _ & ->) | (Hne & _ & ->)]].
    + rewrite He. tauto.
    + tauto.
    + split; [discriminate | intros H; contradiction].
  - destruct (normalizeUrl_shape trackingLink) as [H | H].
    + left. apply Hempty, H.
    + right. apply hasScheme_escapeHtml, H.
  - apply escapeHtml_free. right. reflexivity.
  - apply escapeHtml_free. left. reflexivity.
  - apply escapeHtml_free. left. reflexivity.
  - apply escapeHtml_free. left. reflexivity.
Qed.
